(** * Cursor2.0 terminal agent: a shallow embedding of [src/index.ts]

    The development follows the source file top to bottom: the JavaScript
    string primitives the program calls, Node's [path] functions,
    [normalizePath], regular expressions, JSON, the file system and
    [createDynamicFile], the backend tools, the approval gate, the tool
    registry and the [runAgent] loop; the properties come last.

    Conventions.  A string is a sequence of 8-bit characters, and the
    character classes and case mapping are the ASCII ones.  Node's [path]
    functions are those of the POSIX flavour.  A JavaScript value that came
    out of [JSON.parse] is a [json]; one that may be [undefined] is an
    [option json].  What the program receives from outside is scripted:
    the replies of the backend, the lines typed by the user, the initial
    file system.  Console output, spinners and the wording of the prompts
    sent to the backend are left out. *)

From Stdlib Require Import Ascii String List Bool Arith Lia.
From stdpp Require Import base option list strings gmap.
Import ListNotations.

Local Open Scope string_scope.
Local Open Scope list_scope.
Local Open Scope nat_scope.

(** ** JavaScript string primitives *)

(** [s.length === 0] *)
Definition is_empty (s : string) : bool :=
  match s with EmptyString => true | String _ _ => false end.

(** [s.split(sep)] for a one-character separator: never the empty list. *)
Fixpoint split_on (sep : ascii) (s : string) : list string :=
  match s with
  | EmptyString => [EmptyString]
  | String c s' =>
      if Ascii.eqb c sep then EmptyString :: split_on sep s'
      else match split_on sep s' with
           | seg :: rest => String c seg :: rest
           | [] => [String c EmptyString]
           end
  end.

(** [parts.join(sep)] *)
Fixpoint join_with (sep : string) (l : list string) : string :=
  match l with
  | [] => EmptyString
  | [x] => x
  | x :: rest => x +:+ sep +:+ join_with sep rest
  end.

(** [s.replace(/c/g, d)] for single characters [c] and [d]. *)
Fixpoint replace_char (c d : ascii) (s : string) : string :=
  match s with
  | EmptyString => EmptyString
  | String a s' => String (if Ascii.eqb a c then d else a) (replace_char c d s')
  end.

Fixpoint starts_with (p s : string) : bool :=
  match p, s with
  | EmptyString, _ => true
  | String a p', String b s' => Ascii.eqb a b && starts_with p' s'
  | String _ _, EmptyString => false
  end.

(** [s.includes(p)] *)
Fixpoint includes (p s : string) : bool :=
  starts_with p s ||
  match s with
  | EmptyString => false
  | String _ s' => includes p s'
  end.

(** The character [c] occurs in [s]. *)
Fixpoint has_char (c : ascii) (s : string) : bool :=
  match s with
  | EmptyString => false
  | String a s' => Ascii.eqb c a || has_char c s'
  end.

(** [s.endsWith(p)] *)
Definition ends_with (p s : string) : bool :=
  starts_with (String.rev p) (String.rev s).

Definition lower_char (c : ascii) : ascii :=
  let n := nat_of_ascii c in
  if (65 <=? n) && (n <=? 90) then ascii_of_nat (n + 32) else c.

(** [s.toLowerCase()] on ASCII letters. *)
Fixpoint toLowerCase (s : string) : string :=
  match s with
  | EmptyString => EmptyString
  | String c s' => String (lower_char c) (toLowerCase s')
  end.

(** The ASCII members of the regular-expression class [\s], which is also
    what [trim] strips: tab, line feed, vertical tab, form feed, carriage
    return and space. *)
Definition is_ws (c : ascii) : bool :=
  let n := nat_of_ascii c in
  ((9 <=? n) && (n <=? 13)) || (n =? 32).

Fixpoint trim_start (s : string) : string :=
  match s with
  | EmptyString => EmptyString
  | String c s' => if is_ws c then trim_start s' else s
  end.

(** [s.trim()] *)
Definition trim (s : string) : string :=
  String.rev (trim_start (String.rev (trim_start s))).

(** Every character of [s] is white space. *)
Fixpoint all_ws (s : string) : bool :=
  match s with
  | EmptyString => true
  | String c s' => is_ws c && all_ws s'
  end.

(** ** Node's [path] module, POSIX flavour

    [normalizeSegs] is the segment-wise effect of Node's internal
    [normalizeString]: empty and [.] segments vanish, a [..] removes the
    segment before it unless there is none or it is itself [..]; in that
    case the [..] is kept when the path is relative ([allowAboveRoot]) and
    dropped otherwise.  [stack] holds the output so far, last segment
    first. *)
Fixpoint normalizeSegs (allowAboveRoot : bool) (stack segs : list string)
  : list string :=
  match segs with
  | [] => rev stack
  | seg :: rest =>
      if String.eqb seg "" || String.eqb seg "." then
        normalizeSegs allowAboveRoot stack rest
      else if String.eqb seg ".." then
        match stack with
        | top :: below =>
            if String.eqb top ".." then
              normalizeSegs allowAboveRoot
                (if allowAboveRoot then ".." :: stack else stack) rest
            else normalizeSegs allowAboveRoot below rest
        | [] =>
            normalizeSegs allowAboveRoot
              (if allowAboveRoot then [".."] else []) rest
        end
      else normalizeSegs allowAboveRoot (seg :: stack) rest
  end.

(** [path.normalize(p)] *)
Definition path_normalize (p : string) : string :=
  if is_empty p then "."
  else
    let isAbsolute := starts_with "/" p in
    let trailingSeparator := ends_with "/" p in
    let body :=
      join_with "/" (normalizeSegs (negb isAbsolute) [] (split_on "/" p)) in
    if is_empty body then
      if isAbsolute then "/" else if trailingSeparator then "./" else "."
    else
      (if isAbsolute then "/" else "") +:+ body +:+
      (if trailingSeparator then "/" else "").

(** [path.join(...args)]: zero-length arguments are skipped. *)
Definition path_join (args : list string) : string :=
  match filter (fun a => is_empty a = false) args with
  | [] => "."
  | used => path_normalize (join_with "/" used)
  end.

(** ** Path confinement *)

Definition ROOT_DIR : string := "chaicode".

(** [parts.indexOf(x)], with [None] for [-1]. *)
Fixpoint indexOf (x : string) (l : list string) : option nat :=
  match l with
  | [] => None
  | y :: rest => if String.eqb y x then Some 0 else S <$> indexOf x rest
  end.

(** The segment list [parts] that [normalizePath] computes from its
    argument, before the splice. *)
Definition path_parts (filePath : string) : list string :=
  let normalized := replace_char "\" "/" (path_normalize filePath) in
  filter (fun part => is_empty part = false) (split_on "/" normalized).

(** [normalizePath], lines 36 to 44. *)
Definition normalizePath (filePath : string) : string :=
  let parts := path_parts filePath in
  let parts :=
    match indexOf "chaicode" parts with
    | Some (S i) => drop (S i) parts
    | _ => parts
    end in
  replace_char "\" "/" (path_join (ROOT_DIR :: parts)).

(** The non-empty [/]-separated segments of a path. *)
Definition segments (p : string) : list string :=
  filter (fun part => is_empty part = false) (split_on "/" p).

Definition first_segment (p : string) : option string := head (segments p).

(** The segments of one piece of a path once backslashes are read as
    separators, and the segments of an input path: the non-empty pieces
    between slashes and backslashes. *)
Definition piece_segments (piece : string) : list string :=
  filter (fun part => is_empty part = false)
    (split_on "/" (replace_char "\" "/" piece)).

Definition input_segments (p : string) : list string :=
  filter (fun part => is_empty part = false)
    (split_on "/" (replace_char "\" "/" p)).

(** A segment that is non-empty and holds neither a slash nor a
    backslash. *)
Definition clean_segment (seg : string) : Prop :=
  is_empty seg = false /\ has_char "/" seg = false /\ has_char "\" seg = false.


(** ** Regular expressions

    The source's regular expressions are matched with JavaScript's
    backtracking semantics: alternatives are tried left to right, [*] is
    greedy and never iterates on an empty match, a search takes the
    leftmost match.  [RBol] and [REol] are [^] and [$] under the [m] flag
    (every anchor in the source is written with it). *)
Inductive regex : Type :=
| RChar (cls : ascii -> bool)
| REps
| RSeq (r1 r2 : regex)
| RAlt (r1 r2 : regex)
| RStar (r : regex)
| RGroup (i : nat) (r : regex)
| RBol
| REol.

Record mstate : Type := MState {
  ms_prev : option ascii;          (* the character before the cursor *)
  ms_rest : string;                (* the input from the cursor on *)
  ms_caps : list (nat * string)    (* captures, most recent first *)
}.

Definition is_line_terminator (c : ascii) : bool :=
  Ascii.eqb c "010" || Ascii.eqb c "013".

Fixpoint take_str (n : nat) (s : string) : string :=
  match n, s with
  | S n', String c s' => String c (take_str n' s')
  | _, _ => EmptyString
  end.

Fixpoint rmatch (r : regex) (st : mstate) (k : mstate -> option mstate)
  {struct r} : option mstate :=
  match r with
  | RChar cls =>
      match ms_rest st with
      | String c rest =>
          if cls c then k (MState (Some c) rest (ms_caps st)) else None
      | EmptyString => None
      end
  | REps => k st
  | RSeq r1 r2 => rmatch r1 st (fun st1 => rmatch r2 st1 k)
  | RAlt r1 r2 =>
      match rmatch r1 st k with
      | Some res => Some res
      | None => rmatch r2 st k
      end
  | RStar r1 =>
      (fix loop (fuel : nat) (st0 : mstate) {struct fuel} : option mstate :=
         match fuel with
         | O => k st0
         | S fuel' =>
             match rmatch r1 st0 (fun st1 =>
                     if String.length (ms_rest st1) <? String.length (ms_rest st0)
                     then loop fuel' st1 else None) with
             | Some res => Some res
             | None => k st0
             end
         end) (String.length (ms_rest st)) st
  | RGroup i r1 =>
      rmatch r1 st (fun st1 =>
        let n := String.length (ms_rest st) - String.length (ms_rest st1) in
        k (MState (ms_prev st1) (ms_rest st1)
             ((i, take_str n (ms_rest st)) :: ms_caps st1)))
  | RBol =>
      match ms_prev st with
      | None => k st
      | Some c => if is_line_terminator c then k st else None
      end
  | REol =>
      match ms_rest st with
      | EmptyString => k st
      | String c _ => if is_line_terminator c then k st else None
      end
  end.

(** The literal [s] as a regular expression. *)
Fixpoint RLit (s : string) : regex :=
  match s with
  | EmptyString => REps
  | String c s' => RSeq (RChar (Ascii.eqb c)) (RLit s')
  end.

Definition RPlus (r : regex) : regex := RSeq r (RStar r).
Definition ROpt (r : regex) : regex := RAlt r REps.

(** [\s], [\w], [.] and [[^']] *)
Definition cls_space : ascii -> bool := is_ws.
Definition cls_word (c : ascii) : bool :=
  let n := nat_of_ascii c in
  ((48 <=? n) && (n <=? 57)) || ((65 <=? n) && (n <=? 90)) ||
  ((97 <=? n) && (n <=? 122)) || (n =? 95).
Definition cls_dot (c : ascii) : bool := negb (is_line_terminator c).
Definition cls_not_apostrophe (c : ascii) : bool := negb (Ascii.eqb c "'").

(** [s.replace(re, '')] for a regular expression with the [g] flag: every
    match, scanning left to right, is deleted; an empty match deletes
    nothing and the scan moves on by one character. *)
Fixpoint delete_matches_go (fuel : nat) (re : regex) (prev : option ascii)
  (s : string) : string :=
  match fuel with
  | O => s
  | S fuel' =>
      let step_over :=
        match s with
        | EmptyString => EmptyString
        | String c s' => String c (delete_matches_go fuel' re (Some c) s')
        end in
      match rmatch re (MState prev s []) Some with
      | Some st1 =>
          if String.length (ms_rest st1) <? String.length s
          then delete_matches_go fuel' re (ms_prev st1) (ms_rest st1)
          else step_over
      | None => step_over
      end
  end.

Definition delete_matches (re : regex) (s : string) : string :=
  delete_matches_go (S (String.length s)) re None s.

(** [s.match(re)] for a regular expression without flags: the captures of
    the leftmost match, [None] for [null]. *)
Fixpoint regex_search (re : regex) (prev : option ascii) (s : string)
  : option (list (nat * string)) :=
  match rmatch re (MState prev s []) Some with
  | Some st1 => Some (ms_caps st1)
  | None =>
      match s with
      | EmptyString => None
      | String c s' => regex_search re (Some c) s'
      end
  end.

Definition js_match (re : regex) (s : string) : option (list (nat * string)) :=
  regex_search re None s.

(** [m[i]] of a match result, for a group [i] that took part in it. *)
Fixpoint capture (i : nat) (caps : list (nat * string)) : string :=
  match caps with
  | [] => EmptyString
  | (j, v) :: rest => if Nat.eqb i j then v else capture i rest
  end.

(** The regular expressions of the source. *)

(** [/^```json\s*|\s*```$/gm] *)
Definition re_json_fence : regex :=
  RAlt (RSeq RBol (RSeq (RLit "```json") (RStar (RChar cls_space))))
       (RSeq (RStar (RChar cls_space)) (RSeq (RLit "```") REol)).

(** [/^```.*$/gm] *)
Definition re_fence_line : regex :=
  RSeq RBol (RSeq (RLit "```") (RSeq (RStar (RChar cls_dot)) REol)).

(** [/\n\s*/g] *)
Definition re_newline_indent : regex :=
  RSeq (RChar (Ascii.eqb "010")) (RStar (RChar cls_space)).

(** [/identified as an? ([\w\s]+)\./] *)
Definition re_project_type : regex :=
  RSeq (RLit "identified as a")
    (RSeq (ROpt (RChar (Ascii.eqb "n")))
       (RSeq (RChar (Ascii.eqb " "))
          (RSeq (RGroup 1 (RPlus (RChar (fun c => cls_word c || cls_space c))))
                (RChar (Ascii.eqb "."))))).

(** [/I'll name it '([^']+)'/] *)
Definition re_name_it : regex :=
  RSeq (RLit "I'll name it '")
    (RSeq (RGroup 1 (RPlus (RChar cls_not_apostrophe))) (RChar (Ascii.eqb "'"))).

(** [/Found project '([^']+)'/] *)
Definition re_found_project : regex :=
  RSeq (RLit "Found project '")
    (RSeq (RGroup 1 (RPlus (RChar cls_not_apostrophe))) (RChar (Ascii.eqb "'"))).

(** [/Found project '([^']+)' in '.*' with a ([^']+)\.(\w+)/] *)
Definition re_update_file : regex :=
  RSeq (RLit "Found project '")
    (RSeq (RGroup 1 (RPlus (RChar cls_not_apostrophe)))
       (RSeq (RLit "' in '")
          (RSeq (RStar (RChar cls_dot))
             (RSeq (RLit "' with a ")
                (RSeq (RGroup 2 (RPlus (RChar cls_not_apostrophe)))
                   (RSeq (RChar (Ascii.eqb "."))
                      (RGroup 3 (RPlus (RChar cls_word))))))))).


(** ** JSON values, [JSON.parse] and [JSON.stringify]

    A number keeps the lexeme it was written with, and is printed with it.
    An object is the list of its properties in insertion order; a repeated
    key overwrites the earlier value in place, as property assignment
    does. *)
#[local] Set Warnings "-register-all".
Inductive json : Type :=
| JNull
| JBool (b : bool)
| JNum (lexeme : string)
| JStr (s : string)
| JArr (items : list json)
| JObj (fields : list (string * json)).

Definition dquote : ascii := "034".
Definition backslash : ascii := "\".

Inductive token : Type :=
| TLBrace | TRBrace | TLBracket | TRBracket | TColon | TComma
| TStr (s : string) | TNum (lexeme : string)
| TTrue | TFalse | TNull.

Definition hex_value (c : ascii) : option nat :=
  let n := nat_of_ascii c in
  if (48 <=? n) && (n <=? 57) then Some (n - 48)
  else if (65 <=? n) && (n <=? 70) then Some (n - 55)
  else if (97 <=? n) && (n <=? 102) then Some (n - 87)
  else None.

(** The UTF-8 bytes of a code unit below 65536. *)
Definition utf8_of_code (n : nat) : string :=
  if n <? 128 then String (ascii_of_nat n) EmptyString
  else if n <? 2048 then
    String (ascii_of_nat (192 + n / 64))
      (String (ascii_of_nat (128 + n mod 64)) EmptyString)
  else
    String (ascii_of_nat (224 + n / 4096))
      (String (ascii_of_nat (128 + (n / 64) mod 64))
         (String (ascii_of_nat (128 + n mod 64)) EmptyString)).

Definition unescape (c : ascii) : option ascii :=
  if Ascii.eqb c dquote then Some dquote
  else if Ascii.eqb c backslash then Some backslash
  else if Ascii.eqb c "/" then Some "/"%char
  else if Ascii.eqb c "b" then Some "008"%char
  else if Ascii.eqb c "f" then Some "012"%char
  else if Ascii.eqb c "n" then Some "010"%char
  else if Ascii.eqb c "r" then Some "013"%char
  else if Ascii.eqb c "t" then Some "009"%char
  else None.

(** The body of a string literal, from just after its opening quote: the
    decoded text and the input after the closing quote. *)
Fixpoint lex_string (s : string) : option (string * string) :=
  match s with
  | EmptyString => None
  | String c r =>
      if Ascii.eqb c dquote then Some (EmptyString, r)
      else if Ascii.eqb c backslash then
        match r with
        | String e r2 =>
            if Ascii.eqb e "u" then
              match r2 with
              | String h1 (String h2 (String h3 (String h4 r3))) =>
                  match hex_value h1, hex_value h2, hex_value h3, hex_value h4 with
                  | Some a, Some b, Some c', Some d =>
                      match lex_string r3 with
                      | Some (body, rest) =>
                          Some (utf8_of_code (a * 4096 + b * 256 + c' * 16 + d) +:+ body, rest)
                      | None => None
                      end
                  | _, _, _, _ => None
                  end
              | _ => None
              end
            else
              match unescape e, lex_string r2 with
              | Some ch, Some (body, rest) => Some (String ch body, rest)
              | _, _ => None
              end
        | EmptyString => None
        end
      else if nat_of_ascii c <? 32 then None
      else
        match lex_string r with
        | Some (body, rest) => Some (String c body, rest)
        | None => None
        end
  end.

Definition is_digit (c : ascii) : bool :=
  let n := nat_of_ascii c in (48 <=? n) && (n <=? 57).

Definition is_number_char (c : ascii) : bool :=
  is_digit c || Ascii.eqb c "-" || Ascii.eqb c "+" || Ascii.eqb c "." ||
  Ascii.eqb c "e" || Ascii.eqb c "E".

(** The longest prefix of characters satisfying [f], and what follows. *)
Fixpoint span_str (f : ascii -> bool) (s : string) : string * string :=
  match s with
  | EmptyString => (EmptyString, EmptyString)
  | String c r =>
      if f c then let '(a, b) := span_str f r in (String c a, b)
      else (EmptyString, s)
  end.

(** The JSON number grammar: an optional minus sign; a single zero or a
    non-zero digit followed by digits; optionally a dot and at least one
    digit; optionally [e] or [E], an optional sign and at least one digit. *)
Definition valid_number (s : string) : bool :=
  let s := match s with String "-"%char r => r | _ => s end in
  let after_int :=
    match s with
    | String "0"%char r => Some r
    | String c r => if is_digit c then Some (snd (span_str is_digit r)) else None
    | EmptyString => None
    end in
  let after_frac :=
    match after_int with
    | Some (String "."%char r) =>
        let '(ds, r') := span_str is_digit r in
        if is_empty ds then None else Some r'
    | other => other
    end in
  let after_exp :=
    match after_frac with
    | Some (String c r) =>
        if Ascii.eqb c "e" || Ascii.eqb c "E" then
          let r := match r with
                   | String s' r' =>
                       if Ascii.eqb s' "+" || Ascii.eqb s' "-" then r' else r
                   | EmptyString => r
                   end in
          let '(ds, r') := span_str is_digit r in
          if is_empty ds then None else Some r'
        else Some (String c r)
    | other => other
    end in
  match after_exp with
  | Some EmptyString => true
  | _ => false
  end.

Fixpoint drop_str (n : nat) (s : string) : string :=
  match n, s with
  | S n', String _ s' => drop_str n' s'
  | _, _ => s
  end.

Definition is_json_ws (c : ascii) : bool :=
  Ascii.eqb c " " || Ascii.eqb c "009" || Ascii.eqb c "010" || Ascii.eqb c "013".

Fixpoint lex (fuel : nat) (s : string) : option (list token) :=
  match fuel with
  | O => None
  | S fuel' =>
      match s with
      | EmptyString => Some []
      | String c r =>
          let single (t : token) := cons t <$> lex fuel' r in
          if is_json_ws c then lex fuel' r
          else if Ascii.eqb c "{" then single TLBrace
          else if Ascii.eqb c "}" then single TRBrace
          else if Ascii.eqb c "[" then single TLBracket
          else if Ascii.eqb c "]" then single TRBracket
          else if Ascii.eqb c ":" then single TColon
          else if Ascii.eqb c "," then single TComma
          else if Ascii.eqb c dquote then
            match lex_string r with
            | Some (body, rest) => cons (TStr body) <$> lex fuel' rest
            | None => None
            end
          else if starts_with "true" s then cons TTrue <$> lex fuel' (drop_str 4 s)
          else if starts_with "false" s then cons TFalse <$> lex fuel' (drop_str 5 s)
          else if starts_with "null" s then cons TNull <$> lex fuel' (drop_str 4 s)
          else if is_number_char c then
            let '(lexeme, rest) := span_str is_number_char s in
            if valid_number lexeme then cons (TNum lexeme) <$> lex fuel' rest
            else None
          else None
      end
  end.

(** [obj[k] = v] on the property list. *)
Fixpoint obj_set (k : string) (v : json) (fields : list (string * json))
  : list (string * json) :=
  match fields with
  | [] => [(k, v)]
  | (k', v') :: rest =>
      if String.eqb k' k then (k', v) :: rest else (k', v') :: obj_set k v rest
  end.

Fixpoint parse_value (fuel : nat) (ts : list token) {struct fuel}
  : option (json * list token) :=
  match fuel with
  | O => None
  | S f =>
      match ts with
      | TNull :: r => Some (JNull, r)
      | TTrue :: r => Some (JBool true, r)
      | TFalse :: r => Some (JBool false, r)
      | TNum n :: r => Some (JNum n, r)
      | TStr s :: r => Some (JStr s, r)
      | TLBracket :: TRBracket :: r => Some (JArr [], r)
      | TLBracket :: r =>
          match parse_value f r with
          | Some (v, r1) => parse_elements f r1 [v]
          | None => None
          end
      | TLBrace :: TRBrace :: r => Some (JObj [], r)
      | TLBrace :: TStr k :: TColon :: r =>
          match parse_value f r with
          | Some (v, r1) => parse_members f r1 [(k, v)]
          | None => None
          end
      | _ => None
      end
  end
with parse_elements (fuel : nat) (ts : list token) (acc : list json)
  {struct fuel} : option (json * list token) :=
  match fuel with
  | O => None
  | S f =>
      match ts with
      | TRBracket :: r => Some (JArr acc, r)
      | TComma :: r =>
          match parse_value f r with
          | Some (v, r1) => parse_elements f r1 (acc ++ [v])
          | None => None
          end
      | _ => None
      end
  end
with parse_members (fuel : nat) (ts : list token) (acc : list (string * json))
  {struct fuel} : option (json * list token) :=
  match fuel with
  | O => None
  | S f =>
      match ts with
      | TRBrace :: r => Some (JObj acc, r)
      | TComma :: TStr k :: TColon :: r =>
          match parse_value f r with
          | Some (v, r1) => parse_members f r1 (obj_set k v acc)
          | None => None
          end
      | _ => None
      end
  end.

(** [JSON.parse(text)]; [None] stands for the [SyntaxError] it throws. *)
Definition JSON_parse (text : string) : option json :=
  match lex (S (String.length text)) text with
  | Some ts =>
      match parse_value (S (length ts)) ts with
      | Some (v, []) => Some v
      | _ => None
      end
  | None => None
  end.

Definition hex_digit (n : nat) : ascii :=
  if n <? 10 then ascii_of_nat (48 + n) else ascii_of_nat (87 + n).

Fixpoint escape_string (s : string) : string :=
  match s with
  | EmptyString => EmptyString
  | String c r =>
      let n := nat_of_ascii c in
      (if Ascii.eqb c dquote then String backslash (String dquote EmptyString)
       else if Ascii.eqb c backslash then String backslash (String backslash EmptyString)
       else if n =? 8 then "\b"
       else if n =? 12 then "\f"
       else if n =? 10 then "\n"
       else if n =? 13 then "\r"
       else if n =? 9 then "\t"
       else if n <? 32 then
         "\u00" +:+ String (hex_digit (n / 16)) (String (hex_digit (n mod 16)) EmptyString)
       else String c EmptyString) +:+ escape_string r
  end.

Definition quote_string (s : string) : string :=
  String dquote (escape_string s) +:+ String dquote EmptyString.

(** [JSON.stringify(v)] *)
Fixpoint JSON_stringify (v : json) : string :=
  match v with
  | JNull => "null"
  | JBool true => "true"
  | JBool false => "false"
  | JNum n => n
  | JStr s => quote_string s
  | JArr items => "[" +:+ join_with "," (map JSON_stringify items) +:+ "]"
  | JObj fields =>
      "{" +:+
      join_with ","
        (map (fun kv => quote_string (fst kv) +:+ ":" +:+ JSON_stringify (snd kv))
           fields) +:+ "}"
  end.

(** *** JavaScript's view of a parsed value

    A value that may be [undefined] is an [option json], with [None] for
    [undefined]. *)

(** [v[k]] for a [v] that is neither [null] nor [undefined] and a [k] that
    is none of the built-in property names of strings and arrays. *)
Fixpoint assoc_last (k : string) (fields : list (string * json)) : option json :=
  match fields with
  | [] => None
  | (k', v) :: rest =>
      match assoc_last k rest with
      | Some v' => Some v'
      | None => if String.eqb k' k then Some v else None
      end
  end.

Definition get_prop (v : json) (k : string) : option json :=
  match v with
  | JObj fields => assoc_last k fields
  | _ => None
  end.

(** The mantissa of a number lexeme is zero. *)
Fixpoint mantissa_is_zero (s : string) : bool :=
  match s with
  | EmptyString => true
  | String c r =>
      if Ascii.eqb c "e" || Ascii.eqb c "E" then true
      else (negb (is_digit c) || Ascii.eqb c "0") && mantissa_is_zero r
  end.

(** JavaScript truthiness. *)
Definition truthy (v : option json) : bool :=
  match v with
  | None | Some JNull => false
  | Some (JBool b) => b
  | Some (JNum n) => negb (mantissa_is_zero n)
  | Some (JStr s) => negb (is_empty s)
  | Some (JArr _) | Some (JObj _) => true
  end.

(** [String(v)], which is also how a value becomes a property key. *)
Fixpoint js_to_string (v : json) : string :=
  match v with
  | JNull => "null"
  | JBool true => "true"
  | JBool false => "false"
  | JNum n => n
  | JStr s => s
  | JArr items =>
      join_with ","
        (map (fun x => match x with JNull => EmptyString | _ => js_to_string x end)
           items)
  | JObj _ => "[object Object]"
  end.

(** [String(v)] throws a [TypeError] instead: on an object with a property
    of its own named [toString] (a parsed value is never callable, and the
    inherited [valueOf] hands back the object itself), and on an array with
    such an element.  Template literals and property keys convert their
    values this way. *)
Fixpoint to_string_throws (v : json) : bool :=
  match v with
  | JObj fields => existsb (fun kv => String.eqb (fst kv) "toString") fields
  | JArr items => existsb to_string_throws items
  | _ => false
  end.

(** The value can stand in a template literal. *)
Definition printable (v : option json) : bool :=
  match v with
  | Some x => negb (to_string_throws x)
  | None => true
  end.

(** ** More of Node's [path] module *)

Fixpoint drop_while_str (f : ascii -> bool) (s : string) : string :=
  match s with
  | EmptyString => EmptyString
  | String c r => if f c then drop_while_str f r else s
  end.

Definition is_slash (c : ascii) : bool := Ascii.eqb c "/".

(** [path.dirname(p)]: scanning from the end down to index 1, trailing
    slashes are skipped and the next slash after them ends the result. *)
Definition path_dirname (p : string) : string :=
  match p with
  | EmptyString => "."
  | String c0 tail =>
      let hasRoot := is_slash c0 in
      let r1 := drop_while_str is_slash (String.rev tail) in
      let r2 := drop_while_str (fun c => negb (is_slash c)) r1 in
      match r1, r2 with
      | String _ _, String _ r3 =>
          let e := S (String.length r3) in
          if hasRoot && (e =? 1) then "//" else take_str e p
      | _, _ => if hasRoot then "/" else "."
      end
  end.

(** [path.basename(p)]: the last segment, trailing slashes set aside. *)
Definition path_basename (p : string) : string :=
  let r1 := drop_while_str is_slash (String.rev p) in
  String.rev (fst (span_str (fun c => negb (is_slash c)) r1)).

(** [path.extname(p)]: from the last dot of the base name on; empty when
    there is no dot, when the dot opens the base name, or when the base
    name is [..]. *)
Definition path_extname (p : string) : string :=
  let base := path_basename p in
  let '(ext_rev, rest) :=
    span_str (fun c => negb (Ascii.eqb c ".")) (String.rev base) in
  match rest with
  | EmptyString => EmptyString
  | String _ left_rev =>
      if is_empty left_rev then EmptyString
      else if String.eqb base ".." then EmptyString
      else String "." (String.rev ext_rev)
  end.

(** ** The file system

    A node is named by the segments of its normalised path; a relative path
    is taken from the working directory, an absolute one carries the
    leading segment [/].  The working directory, its ancestors (paths made
    of [..] only) and the root are directories that are always there.
    Symbolic links, permissions and quotas are outside the model. *)
Inductive node : Type :=
| File (content : string)
| Dir.

Abbreviation filesystem := (gmap (list string) node).

Inductive fs_error : Type :=
| ENOENT | ENOTDIR | EISDIR | EEXIST | ERR_INVALID_ARG_TYPE.

(** The text of [(error as Error).message], reduced to the error code. *)
Definition error_message (e : fs_error) : string :=
  match e with
  | ENOENT => "ENOENT: no such file or directory"
  | ENOTDIR => "ENOTDIR: not a directory"
  | EISDIR => "EISDIR: illegal operation on a directory"
  | EEXIST => "EEXIST: file already exists"
  | ERR_INVALID_ARG_TYPE => "The argument must be of type string"
  end.

Inductive result (A : Type) : Type :=
| Ok (a : A)
| Err (e : fs_error).
Arguments Ok {A} a.
Arguments Err {A} e.

Definition fs_key (p : string) : list string :=
  if starts_with "/" p
  then "/" :: normalizeSegs false [] (split_on "/" p)
  else normalizeSegs true [] (split_on "/" p).

Definition always_dir (key : list string) : bool :=
  forallb (String.eqb "..") key ||
  match key with ["/"] => true | _ => false end.

Definition fs_lookup (fs : filesystem) (key : list string) : option node :=
  if always_dir key then Some Dir else fs !! key.

(** [fs.existsSync(p)] *)
Definition existsSync (fs : filesystem) (p : string) : bool :=
  match fs_lookup fs (fs_key p) with Some _ => true | None => false end.

(** [fs.mkdirSync(p, { recursive: true })]: every missing directory on the
    way is created; a regular file on the way makes the call throw. *)
Fixpoint mkdir_go (fs : filesystem) (done todo : list string)
  : result filesystem :=
  match todo with
  | [] => Ok fs
  | seg :: rest =>
      let here := done ++ [seg] in
      match fs_lookup fs here with
      | Some Dir => mkdir_go fs here rest
      | Some (File _) => Err (match rest with [] => EEXIST | _ => ENOTDIR end)
      | None => mkdir_go (<[here := Dir]> fs) here rest
      end
  end.

Definition mkdirSync (fs : filesystem) (p : string) : result filesystem :=
  mkdir_go fs [] (fs_key p).

(** [fs.readFileSync(p, 'utf-8')] *)
Definition readFileSync (fs : filesystem) (p : string) : result string :=
  match fs_lookup fs (fs_key p) with
  | Some (File content) => Ok content
  | Some Dir => Err EISDIR
  | None => Err ENOENT
  end.

(** [fs.writeFileSync(p, content)] *)
Definition writeFileSync (fs : filesystem) (p : string) (content : string)
  : result filesystem :=
  let key := fs_key p in
  match fs_lookup fs key with
  | Some Dir => Err EISDIR
  | _ =>
      match fs_lookup fs (removelast key) with
      | Some Dir => Ok (<[key := File content]> fs)
      | Some (File _) => Err ENOTDIR
      | None => Err ENOENT
      end
  end.

(** The names in a directory, for [fs.readdirSync(p)]; their order is the
    file system's. *)
Definition children (fs : filesystem) (key : list string) : list string :=
  omap (fun kv =>
          match rev (fst kv) with
          | name :: parent_rev =>
              if bool_decide (rev parent_rev = key) then Some name else None
          | [] => None
          end)
       (map_to_list fs).

Definition readdirSync (fs : filesystem) (p : string) : result (list string) :=
  match fs_lookup fs (fs_key p) with
  | Some Dir => Ok (children fs (fs_key p))
  | Some (File _) => Err ENOTDIR
  | None => Err ENOENT
  end.

(** ** [ensureRootDir] and [createDynamicFile] *)

Definition ensureRootDir (fs : filesystem) : result filesystem :=
  if existsSync fs ROOT_DIR then Ok fs else mkdirSync fs ROOT_DIR.

(** What [createDynamicFile] returns; [outcome_text] is the returned
    string. *)
Inductive outcome : Type :=
| Created (fileName : string)
| Updated (fileName : string)
| Unchanged (fileName : string)
| Failed (e : fs_error).

Definition outcome_text (o : outcome) : string :=
  match o with
  | Created f => "File " +:+ f +:+ " created successfully"
  | Updated f => "File " +:+ f +:+ " updated successfully"
  | Unchanged f => "File " +:+ f +:+ " unchanged (content identical)"
  | Failed e => "Error creating/updating file: " +:+ error_message e
  end.

(** [fs.writeFileSync(p, data)] for whatever value [data] is at run time:
    anything but a string is refused before the file is touched. *)
Definition writeFileSync_js (fs : filesystem) (p : string) (data : option json)
  : result filesystem :=
  match data with
  | Some (JStr content) => writeFileSync fs p content
  | _ => Err ERR_INVALID_ARG_TYPE
  end.

(** [existingContent === args.content] *)
Definition same_content (existingContent : string) (data : option json) : bool :=
  match data with
  | Some (JStr content) => String.eqb existingContent content
  | _ => false
  end.

(** The body of the [try] block; [argFileName] and [content] are
    [args.fileName] and [args.content].  [normalizePath] throws on a
    [fileName] that is not a string. *)
Definition createDynamicFile_try (fs : filesystem)
  (argFileName content : option json) : filesystem * result outcome :=
  match ensureRootDir fs with
  | Err e => (fs, Err e)
  | Ok fs1 =>
      match argFileName with
      | Some (JStr name) =>
          let fileName := normalizePath name in
          let dirPath := path_dirname fileName in
          let made :=
            if negb (String.eqb dirPath ROOT_DIR) && negb (existsSync fs1 dirPath)
            then mkdirSync fs1 dirPath else Ok fs1 in
          match made with
          | Err e => (fs1, Err e)
          | Ok fs2 =>
              if existsSync fs2 fileName then
                match readFileSync fs2 fileName with
                | Err e => (fs2, Err e)
                | Ok existingContent =>
                    if same_content existingContent content
                    then (fs2, Ok (Unchanged fileName))
                    else
                      match writeFileSync_js fs2 fileName content with
                      | Ok fs3 => (fs3, Ok (Updated fileName))
                      | Err e => (fs2, Err e)
                      end
                end
              else
                match writeFileSync_js fs2 fileName content with
                | Ok fs3 => (fs3, Ok (Created fileName))
                | Err e => (fs2, Err e)
                end
          end
      | _ => (fs1, Err ERR_INVALID_ARG_TYPE)
      end
  end.

Definition is_nullish (v : option json) : bool :=
  match v with None | Some JNull => true | _ => false end.

(** [v.k] for a value [v] that is not nullish. *)
Definition prop_of (v : option json) (k : string) : option json :=
  match v with Some o => get_prop o k | None => None end.

(** [createDynamicFile(args)].  An error thrown in the [try] block becomes
    the [Failed] outcome; the handler prints [args.fileName] in its message,
    so a nullish [args], or a [fileName] that cannot be printed, makes the
    handler itself throw ([None]). *)
Definition createDynamicFile (fs : filesystem) (args : option json)
  : filesystem * option outcome :=
  if is_nullish args then
    (match ensureRootDir fs with Ok fs1 => fs1 | Err _ => fs end, None)
  else
    match createDynamicFile_try fs (prop_of args "fileName") (prop_of args "content") with
    | (fs', Ok o) => (fs', Some o)
    | (fs', Err e) =>
        (fs', if printable (prop_of args "fileName") then Some (Failed e) else None)
    end.

(** The argument record [{ fileName, content }]. *)
Definition file_args (fileName content : string) : option json :=
  Some (JObj [("fileName", JStr fileName); ("content", JStr content)]).

(** ** The backend tools *)

(** Source texts written with [~] for a double quote and [\n] for a line
    feed. *)
Fixpoint js_text (s : string) : string :=
  match s with
  | EmptyString => EmptyString
  | String "\"%char (String "n"%char r) => String "010" (js_text r)
  | String c r => String (if Ascii.eqb c "~" then dquote else c) (js_text r)
  end.

(** [generateExecuteMdContent]; the texts are written with [~] for a double
    quote and [\n] for a line feed. *)
Definition generateExecuteMdContent (projectType projectName : string) : string :=
  let content :=
    js_text "# Execution Instructions for " +:+ projectName +:+ js_text "\n\n" +:+
    js_text "This document provides detailed instructions on how to run your " +:+ projectType +:+ js_text " project, along with necessary dependencies, compatibility information, and potential issues you might encounter.\n\n" +:+
    js_text "## How to Run the Project\n\n" in
  content +:+
  (if includes "html" (toLowerCase projectType) then
    js_text "- **Step 1**: Navigate to the project directory: `" +:+ ROOT_DIR +:+ js_text "/" +:+ projectName +:+ js_text "`\n" +:+
    js_text "- **Step 2**: Open `index.html` in a web browser (e.g., Chrome, Firefox) by double-clicking the file or right-clicking and selecting ~Open with~ your browser.\n\n" +:+
    js_text "### Dependencies\n- None required. This is a static HTML project that runs directly in a browser.\n\n" +:+
    js_text "### Compatibility\n- Works on all modern browsers (Chrome, Firefox, Edge, Safari).\n- No additional software needed.\n\n" +:+
    js_text "### Potential Issues\n- **Browser Compatibility**: Ensure your browser is up to date to support modern HTML5/CSS3 features.\n- **File Path Issues**: If the page doesn't load correctly, ensure you're opening the file directly from the file system (not through a server unless specified).\n"
  else if includes "python" (toLowerCase projectType) then
    js_text "- **Step 1**: Open your terminal.\n" +:+
    js_text "- **Step 2**: Navigate to the project directory:\n" +:+
    js_text "  ```bash\n  cd " +:+ ROOT_DIR +:+ js_text "/" +:+ projectName +:+ js_text "\n  ```\n" +:+
    js_text "- **Step 3**: Run the script:\n" +:+
    js_text "  ```bash\n  python " +:+ projectName +:+ js_text ".py\n  ```\n\n" +:+
    js_text "### Dependencies\n- **Python**: Version 3.6 or higher is required.\n- No additional libraries are needed for this basic script.\n\n" +:+
    js_text "### Compatibility\n- Works on Windows, macOS, and Linux.\n- Requires Python to be installed (download from https://www.python.org/downloads/).\n\n" +:+
    js_text "### Potential Issues\n- **Python Not Installed**: If Python isn't installed, you'll see a ~command not found~ error. Install Python and ensure it's added to your PATH.\n- **Version Mismatch**: Ensure you're using Python 3 (run `python --version` or `python3 --version`).\n- **File Path Issues**: Ensure you're in the correct directory when running the script.\n"
  else if includes "react" (toLowerCase projectType) then
    js_text "- **Step 1**: Open your terminal.\n" +:+
    js_text "- **Step 2**: Navigate to the project directory:\n" +:+
    js_text "  ```bash\n  cd " +:+ ROOT_DIR +:+ js_text "/" +:+ projectName +:+ js_text "\n  ```\n" +:+
    js_text "- **Step 3**: Install dependencies:\n" +:+
    js_text "  ```bash\n  npm install\n  ```\n" +:+
    js_text "- **Step 4**: Start the development server:\n" +:+
    js_text "  ```bash\n  npm start\n  ```\n" +:+
    js_text "- **Step 5**: Open http://localhost:3000 in your browser.\n\n" +:+
    js_text "### Dependencies\n- **Node.js**: Version 14 or higher (includes npm). Download from https://nodejs.org/.\n- **React**: Included in the project (installed via npm).\n- **Tailwind CSS**: Assumed to be set up in the project (via npm).\n\n" +:+
    js_text "### Compatibility\n- Works on Windows, macOS, and Linux.\n- Requires Node.js and npm to be installed.\n- Best viewed in modern browsers (Chrome, Firefox, Edge).\n\n" +:+
    js_text "### Potential Issues\n- **Node.js Not Installed**: If Node.js isn't installed, you'll see a ~command not found~ error. Install Node.js and npm.\n- **Port Conflict**: If port 3000 is in use, the React dev server will prompt you to use a different port.\n- **Dependency Errors**: If `npm install` fails, delete the `node_modules` folder and `package-lock.json` file, then run `npm install` again.\n"
  else
    js_text "- **Step 1**: Navigate to the project directory: `" +:+ ROOT_DIR +:+ js_text "/" +:+ projectName +:+ js_text "`\n" +:+
    js_text "- **Step 2**: Refer to the specific instructions in the `README.md` file for running the project.\n\n" +:+
    js_text "### Dependencies\n- Refer to the `README.md` file for any required dependencies.\n\n" +:+
    js_text "### Compatibility\n- Refer to the `README.md` file for compatibility information.\n\n" +:+
    js_text "### Potential Issues\n- **Missing Dependencies**: Ensure all required software and libraries are installed as per the `README.md`.\n- **Environment Setup**: Check your environment configuration if the project fails to run.\n").

(** What a [fetch] of the backend comes to: [FetchFails] when the request
    throws, the status is not a success or the body is not JSON (all three
    end in the same [catch]); otherwise the parsed body. *)
Inductive fetch_outcome : Type :=
| FetchFails
| FetchData (data : json).

(** [v[0]] *)
Definition index0 (v : json) : option json :=
  match v with
  | JArr (x :: _) => Some x
  | JObj fields => assoc_last "0" fields
  | JStr (String c _) => Some (JStr (String c EmptyString))
  | _ => None
  end.

(** [v?.[0]] and [v?.k] *)
Definition opt_index0 (v : option json) : option json :=
  match v with
  | None | Some JNull => None
  | Some x => index0 x
  end.

Definition opt_prop (v : option json) (k : string) : option json :=
  match v with
  | None | Some JNull => None
  | Some x => get_prop x k
  end.

(** [data.candidates?.[0]?.content?.parts?.[0]?.text]; the outer [None] is
    the [TypeError] of reading [candidates] off [null]. *)
Definition candidate_text (data : json) : option (option json) :=
  match data with
  | JNull => None
  | _ =>
      Some (opt_prop
              (opt_index0 (opt_prop (opt_prop (opt_index0 (get_prop data "candidates"))
                                       "content") "parts")) "text")
  end.

(** The fence stripping of [generateProjectStructure]. *)
Definition clean_structure_text (rawText : string) : string :=
  trim (delete_matches re_fence_line (delete_matches re_json_fence rawText)).

(** The [try] block of [generateProjectStructure]. *)
Definition generateProjectStructure_try (response : fetch_outcome) : string :=
  match response with
  | FetchFails => "{}"
  | FetchData data =>
      match candidate_text data with
      | None => "{}"
      | Some text =>
          let rawText := if truthy text then text else Some (JStr "{}") in
          match rawText with
          | Some (JStr rawText) =>
              let cleanedText := clean_structure_text rawText in
              match JSON_parse cleanedText with
              | Some _ => cleanedText
              | None => "{}"
              end
          | _ => "{}"             (* [rawText.replace] is not a function *)
          end
      end
  end.

(** [generateProjectStructure(projectType, description)].  The arguments
    only enter the prompt, which is built before the [try] block: when one
    of them cannot be printed the promise is rejected ([None]).  The
    backend's answer is taken as given, whatever the prompt. *)
Definition generateProjectStructure (projectType description : option json)
  (response : fetch_outcome) : option string :=
  if printable projectType && printable description
  then Some (generateProjectStructure_try response)
  else None.

(** The next scripted backend response; an exhausted script is a backend
    that cannot be reached. *)
Definition next_fetch (fetches : list fetch_outcome)
  : fetch_outcome * list fetch_outcome :=
  match fetches with
  | [] => (FetchFails, [])
  | r :: rest => (r, rest)
  end.

(** [generateFileContent(filePath, projectType, description, isUpdate,
    updateIssue)].  [description], [isUpdate] and [updateIssue] only enter
    the prompt.  [None] is a rejected promise: [normalizePath] throws on a
    [filePath] that is not a string, the first prompt cannot be built from
    a [projectType] or [description] that cannot be printed, and
    [projectType.toLowerCase()] throws on a [projectType] that is not a
    string.  The module-level [projectName] is read for the execution
    instructions. *)
Definition generateFileContent (projectName : option string)
  (filePath projectType description : option json)
  (fetches : list fetch_outcome)
  : option json * list fetch_outcome :=
  match filePath with
  | Some (JStr filePath) =>
    if negb (printable projectType && printable description)
    then (None, fetches)
    else
      let normalizedFilePath := normalizePath filePath in
      let ext := drop_str 1 (path_extname filePath) in
      let fileType := if is_empty ext then path_basename filePath else ext in
      let ask (_ : unit) :=
        let '(response, rest) := next_fetch fetches in
        let failed := JStr ("// Error generating content for " +:+ normalizedFilePath) in
        match response with
        | FetchFails => (Some failed, rest)
        | FetchData data =>
            match candidate_text data with
            | None => (Some failed, rest)
            | Some text =>
                if truthy text then (text, rest)
                else (Some (JStr ("// Default " +:+ fileType +:+ " content")), rest)
            end
        end in
      if String.eqb fileType "md" && ends_with "execute.md" normalizedFilePath then
        match projectType with
        | Some (JStr pt) =>
            let name := match projectName with
                        | Some n => if is_empty n then "unknown" else n
                        | None => "unknown"
                        end in
            (Some (JStr (generateExecuteMdContent pt name)), fetches)
        | _ => (None, fetches)
        end
      else if String.eqb fileType "html" then ask tt
      else
        match projectType with
        | Some (JStr _) => ask tt
        | _ => (None, fetches)
        end
  | _ => (None, fetches)
  end.

(** [readDirectory(dirPath = ROOT_DIR)].  Of each item the model keeps
    [name], [path] and [isDirectory]; the size and the creation time that
    [statSync] adds are left out.  The handler prints [dirPath] in its
    message and throws itself ([None]) when that cannot be done. *)
Definition readDirectory (fs : filesystem) (arg : option json)
  : filesystem * option json :=
  let dirPath := match arg with None => JStr ROOT_DIR | Some v => v end in
  let failure (fs' : filesystem) (e : fs_error) :=
    (fs',
     if to_string_throws dirPath then None
     else
       Some (JObj [("path", dirPath); ("items", JArr []);
                   ("message",
                    JStr ("Error reading directory " +:+ js_to_string dirPath
                          +:+ ": " +:+ error_message e))])) in
  match ensureRootDir fs with
  | Err e => failure fs e
  | Ok fs1 =>
      match dirPath with
      | JStr dir =>
          match readdirSync fs1 dir with
          | Err e => failure fs1 e
          | Ok items =>
              let fileDetails :=
                map (fun item =>
                       let itemPath := path_join [dir; item] in
                       JObj [("name", JStr item); ("path", JStr itemPath);
                             ("isDirectory",
                              JBool match fs_lookup fs1 (fs_key itemPath) with
                                    | Some Dir => true
                                    | _ => false
                                    end)])
                    items in
              (fs1,
               Some (JObj [("path", dirPath); ("items", JArr fileDetails);
                           ("message",
                            JStr ("Successfully read directory: " +:+ dir))]))
          end
      | _ => failure fs1 ERR_INVALID_ARG_TYPE
      end
  end.

(** ** The approval gate *)

(** The test of [presentStructure] on the line the user typed. *)
Definition approves (answer : string) : bool :=
  String.eqb (toLowerCase (trim answer)) "yes".

(** ** The tool registry *)

Inductive tool : Type :=
| read_directory
| create_dynamic_file
| generate_project_structure
| generate_file_content.

(** What [available_tools[key]] evaluates to: [available_tools] is an
    object literal, so besides its four own properties a lookup finds the
    properties every object inherits from [Object.prototype]; those are
    truthy and have no [fn]. *)
Inductive registry_entry : Type :=
| Registered (t : tool)
| Inherited.

Definition object_prototype_keys : list string :=
  ["constructor"; "hasOwnProperty"; "isPrototypeOf"; "propertyIsEnumerable";
   "toLocaleString"; "toString"; "valueOf"; "__proto__";
   "__defineGetter__"; "__defineSetter__"; "__lookupGetter__"; "__lookupSetter__"].

Definition available_tools (key : string) : option registry_entry :=
  if String.eqb key "read_directory" then Some (Registered read_directory)
  else if String.eqb key "create_dynamic_file" then Some (Registered create_dynamic_file)
  else if String.eqb key "generate_project_structure" then Some (Registered generate_project_structure)
  else if String.eqb key "generate_file_content" then Some (Registered generate_file_content)
  else if existsb (String.eqb key) object_prototype_keys then Some Inherited
  else None.

(** ** The state of the program

    [contents], [proposedStructure], [projectType] and [projectName] are the
    module-level variables; [isUpdateRequest], [isExecutionRequest],
    [updateIssue] and [updateFile] are the variables [runAgent] declares
    afresh at each call.  [fs] is the file system, [fetches] the backend's
    answers to the calls the tools make, [answers] the lines the user types
    at the approval prompt.  [calls] records, oldest first, every call of a
    tool function and every approval prompt. *)
Record turn : Type := Turn { role : string; text : string }.

Inductive event : Type :=
| CallReadDirectory (arg : option json)
| CallCreateDynamicFile (arg : option json)
| CallGenerateProjectStructure (projectType description : option json)
| CallGenerateFileContent (filePath projectType description : option json)
    (isUpdate : bool) (updateIssue : option string)
| AskApproval (structure : json) (answer : string).

Record state : Type := State {
  contents : list turn;
  proposedStructure : json;
  projectType : option string;
  projectName : option string;
  isUpdateRequest : bool;
  isExecutionRequest : bool;
  updateIssue : option string;
  updateFile : option string;
  fs : filesystem;
  fetches : list fetch_outcome;
  answers : list string;
  calls : list event
}.

Definition set_contents (v : list turn) (st : state) : state :=
  State v (proposedStructure st) (projectType st) (projectName st)
    (isUpdateRequest st) (isExecutionRequest st) (updateIssue st)
    (updateFile st) (fs st) (fetches st) (answers st) (calls st).
Definition set_proposedStructure (v : json) (st : state) : state :=
  State (contents st) v (projectType st) (projectName st)
    (isUpdateRequest st) (isExecutionRequest st) (updateIssue st)
    (updateFile st) (fs st) (fetches st) (answers st) (calls st).
Definition set_projectType (v : option string) (st : state) : state :=
  State (contents st) (proposedStructure st) v (projectName st)
    (isUpdateRequest st) (isExecutionRequest st) (updateIssue st)
    (updateFile st) (fs st) (fetches st) (answers st) (calls st).
Definition set_projectName (v : option string) (st : state) : state :=
  State (contents st) (proposedStructure st) (projectType st) v
    (isUpdateRequest st) (isExecutionRequest st) (updateIssue st)
    (updateFile st) (fs st) (fetches st) (answers st) (calls st).
Definition set_isUpdateRequest (v : bool) (st : state) : state :=
  State (contents st) (proposedStructure st) (projectType st)
    (projectName st) v (isExecutionRequest st) (updateIssue st)
    (updateFile st) (fs st) (fetches st) (answers st) (calls st).
Definition set_isExecutionRequest (v : bool) (st : state) : state :=
  State (contents st) (proposedStructure st) (projectType st)
    (projectName st) (isUpdateRequest st) v (updateIssue st) (updateFile st)
    (fs st) (fetches st) (answers st) (calls st).
Definition set_updateIssue (v : option string) (st : state) : state :=
  State (contents st) (proposedStructure st) (projectType st)
    (projectName st) (isUpdateRequest st) (isExecutionRequest st) v
    (updateFile st) (fs st) (fetches st) (answers st) (calls st).
Definition set_updateFile (v : option string) (st : state) : state :=
  State (contents st) (proposedStructure st) (projectType st)
    (projectName st) (isUpdateRequest st) (isExecutionRequest st)
    (updateIssue st) v (fs st) (fetches st) (answers st) (calls st).
Definition set_fs (v : filesystem) (st : state) : state :=
  State (contents st) (proposedStructure st) (projectType st)
    (projectName st) (isUpdateRequest st) (isExecutionRequest st)
    (updateIssue st) (updateFile st) v (fetches st) (answers st) (calls st).
Definition set_fetches (v : list fetch_outcome) (st : state) : state :=
  State (contents st) (proposedStructure st) (projectType st)
    (projectName st) (isUpdateRequest st) (isExecutionRequest st)
    (updateIssue st) (updateFile st) (fs st) v (answers st) (calls st).
Definition set_answers (v : list string) (st : state) : state :=
  State (contents st) (proposedStructure st) (projectType st)
    (projectName st) (isUpdateRequest st) (isExecutionRequest st)
    (updateIssue st) (updateFile st) (fs st) (fetches st) v (calls st).
Definition set_calls (v : list event) (st : state) : state :=
  State (contents st) (proposedStructure st) (projectType st)
    (projectName st) (isUpdateRequest st) (isExecutionRequest st)
    (updateIssue st) (updateFile st) (fs st) (fetches st) (answers st) v.

(** [contents.push({ role, parts: [{ text }] })] *)
Definition push (r t : string) (st : state) : state :=
  set_contents (contents st ++ [Turn r t]) st.

Definition record_call (e : event) (st : state) : state :=
  set_calls (calls st ++ [e]) st.

(** How one pass through the body of the [while] loop ends: it falls
    through to the next statement, an exception reaches the [catch], the
    user turns the structure down, [final_result] is reached, or the
    approval prompt is never answered. *)
Inductive flow : Type := Next | Thrown | Rejected | Finished | Stalled.

Definition and_then (r : state * flow) (f : state -> state * flow)
  : state * flow :=
  match r with
  | (st, Next) => f st
  | _ => r
  end.

Notation "r >>> f" := (and_then r f) (at level 61, left associativity).

(** [dataObj.step === name] *)
Definition step_is (dataObj : json) (name : string) : bool :=
  match get_prop dataObj "step" with
  | Some (JStr s) => String.eqb s name
  | _ => false
  end.

(** The [initialization] block. *)
Definition classify (userMsg : string) (st : state) : state :=
  let lowerMsg := toLowerCase userMsg in
  if includes "not working" lowerMsg || includes "fix" lowerMsg
     || includes "update" lowerMsg
  then set_updateIssue (Some userMsg) (set_isUpdateRequest true st)
  else if includes "run" lowerMsg || includes "execute" lowerMsg
          || includes "start" lowerMsg
  then set_isExecutionRequest true st
  else st.

Definition first_match (a b : option (list (nat * string)))
  : option (list (nat * string)) :=
  match a with Some m => Some m | None => b end.

(** The [analyze] block, for a [content] that is a string. *)
Definition analyze (content : string) (st : state) : state :=
  let typeMatch := js_match re_project_type content in
  let nameMatch :=
    first_match (js_match re_name_it content) (js_match re_found_project content) in
  let st := match typeMatch with
            | Some m => set_projectType (Some (capture 1 m)) st
            | None => st
            end in
  let st := match nameMatch with
            | Some m => set_projectName (Some (capture 1 m)) st
            | None => st
            end in
  if isUpdateRequest st then
    match js_match re_update_file content with
    | Some m =>
        set_updateFile
          (Some (capture 1 m +:+ "/" +:+ capture 2 m +:+ "." +:+ capture 3 m)) st
    | None => st
    end
  else st.

(** Lines 494 to 520: both blocks; [content.match] throws unless [content]
    is a string. *)
Definition interpret (userMsg : string) (dataObj : json) (st : state)
  : state * flow :=
  let st := if step_is dataObj "initialization" then classify userMsg st else st in
  if step_is dataObj "analyze" then
    match get_prop dataObj "content" with
    | Some (JStr content) => (analyze content st, Next)
    | _ => (st, Thrown)
    end
  else (st, Next).

(** The loop over an array of [create_dynamic_file] arguments: the file
    system after it and the outcomes, or [None] for the [TypeError] of
    printing [arg.fileName] in the progress message, when [arg] is nullish
    or its [fileName] cannot be printed. *)
Fixpoint create_each (fs0 : filesystem) (items : list json) (done : list event)
  : filesystem * list event * option (list string) :=
  match items with
  | [] => (fs0, done, Some [])
  | arg :: rest =>
      if is_nullish (Some arg) || negb (printable (get_prop arg "fileName"))
      then (fs0, done, None)
      else
        match createDynamicFile fs0 (Some arg) with
        | (fs1, Some o) =>
            match create_each fs1 rest (done ++ [CallCreateDynamicFile (Some arg)]) with
            | (fs2, done', Some texts) => (fs2, done', Some (outcome_text o :: texts))
            | other => other
            end
        | (fs1, None) => (fs1, done ++ [CallCreateDynamicFile (Some arg)], None)
        end
  end.

(** [String(s)] is a positive number, up to the corners of numeric
    conversion. *)
Definition number_text_positive (s : string) : bool :=
  valid_number s && negb (starts_with "-" s) && negb (mantissa_is_zero s).

(** [v.length > 0] *)
Definition has_positive_length (v : json) : bool :=
  match v with
  | JArr items => negb (bool_decide (length items = 0))
  | JStr s => negb (is_empty s)
  | JObj _ =>
      match get_prop v "length" with
      | Some (JBool b) => b
      | Some (JNum n) => number_text_positive n
      | Some (JStr t) => number_text_positive (trim t)
      | Some (JArr items) => number_text_positive (trim (js_to_string (JArr items)))
      | _ => false
      end
  | _ => false
  end.

Definition tool_result (functionResult : json) (st : state) : state * flow :=
  (push "user" (JSON_stringify functionResult) st, Next).

(** Lines 522 to 558: dispatch of the function the step declares. *)
Definition dispatch (dataObj : json) (st : state) : state * flow :=
  let fn := get_prop dataObj "function" in
  let args := get_prop dataObj "args" in
  match fn with
  | Some fnv =>
      if truthy fn then
        if to_string_throws fnv then (st, Thrown)   (* no property key *)
        else
        match available_tools (js_to_string fnv) with
        | None => (st, Next)
        | Some entry =>
            let named (n : string) :=
              match fnv with JStr f => String.eqb f n | _ => false end in
            if named "generate_project_structure" then
              if is_nullish args then (st, Thrown)
              else
                let called :=
                  record_call
                    (CallGenerateProjectStructure (prop_of args "projectType")
                       (prop_of args "description")) st in
                let '(response, rest) := next_fetch (fetches st) in
                match generateProjectStructure (prop_of args "projectType")
                        (prop_of args "description") response with
                | None => (called, Thrown)
                | Some functionResult =>
                let st := set_fetches rest called in
                match JSON_parse functionResult with
                | None | Some JNull => (st, Thrown)
                | Some parsedResult =>
                    let structure := get_prop parsedResult "structure" in
                    let st :=
                      set_proposedStructure
                        (match structure with
                         | Some v => if truthy structure then v else JArr []
                         | None => JArr []
                         end) st in
                    tool_result (JStr (JSON_stringify parsedResult)) st
                end
                end
            else if named "generate_file_content" then
              if is_nullish args || negb (printable (prop_of args "filePath"))
              then (st, Thrown)
              else
                let '(content, rest) :=
                  generateFileContent (projectName st) (prop_of args "filePath")
                    (prop_of args "projectType") (prop_of args "description")
                    (fetches st) in
                let st :=
                  record_call
                    (CallGenerateFileContent (prop_of args "filePath")
                       (prop_of args "projectType") (prop_of args "description")
                       (isUpdateRequest st) (updateIssue st))
                    (set_fetches rest st) in
                match content with
                | Some v => tool_result v st
                | None => (st, Thrown)
                end
            else if named "create_dynamic_file" then
              match args with
              | Some (JArr items) =>
                  match create_each (fs st) items [] with
                  | (fs', done, Some texts) =>
                      tool_result (JStr (join_with (String "010" EmptyString) texts))
                        (set_calls (calls st ++ done) (set_fs fs' st))
                  | (fs', done, None) =>
                      (set_calls (calls st ++ done) (set_fs fs' st), Thrown)
                  end
              | _ =>
                  if is_nullish args || negb (printable (prop_of args "fileName"))
                  then (st, Thrown)
                  else
                    let '(fs', o) := createDynamicFile (fs st) args in
                    let st := record_call (CallCreateDynamicFile args) (set_fs fs' st) in
                    match o with
                    | Some o => tool_result (JStr (outcome_text o)) st
                    | None => (st, Thrown)
                    end
              end
            else
              (* [toolFn(dataObj.args)] *)
              match entry with
              | Inherited => (st, Thrown)           (* [toolFn] is [undefined] *)
              | Registered read_directory =>
                  let '(fs', r) := readDirectory (fs st) args in
                  let st := record_call (CallReadDirectory args) (set_fs fs' st) in
                  match r with
                  | Some r => tool_result r st
                  | None => (st, Thrown)
                  end
              | Registered create_dynamic_file =>
                  let '(fs', o) := createDynamicFile (fs st) args in
                  let st := record_call (CallCreateDynamicFile args) (set_fs fs' st) in
                  match o with
                  | Some o => tool_result (JStr (outcome_text o)) st
                  | None => (st, Thrown)
                  end
              | Registered generate_project_structure =>
                  (* a promise nobody awaits: it serialises as an empty object *)
                  tool_result (JObj [])
                    (record_call (CallGenerateProjectStructure args None) st)
              | Registered generate_file_content =>
                  tool_result (JObj [])
                    (record_call
                       (CallGenerateFileContent args None None false None) st)
              end
        end
      else (st, Next)
  | None => (st, Next)
  end.

(** [presentStructure(structure)]: [forEach] exists on arrays only, and
    every entry is printed; the answer is the next line the user types. *)
Definition presentStructure (structure : json) (st : state) : state * flow :=
  match structure with
  | JArr items =>
      if existsb to_string_throws items then (st, Thrown)
      else
      match answers st with
      | [] => (st, Stalled)
      | answer :: rest =>
          let st := record_call (AskApproval structure answer) (set_answers rest st) in
          if approves answer then (st, Next) else (st, Rejected)
      end
  | _ => (st, Thrown)
  end.

(** The comparison [v.length > 0] throws when the [length] of an object
    cannot be converted to a number, which fails as printing does. *)
Definition length_test_throws (v : json) : bool :=
  match v with
  | JObj _ => negb (printable (get_prop v "length"))
  | _ => false
  end.

(** Lines 560 to 566. *)
Definition gate (dataObj : json) (st : state) : state * flow :=
  if step_is dataObj "generate_structure" then
    if length_test_throws (proposedStructure st) then (st, Thrown)
    else if has_positive_length (proposedStructure st)
            && negb (isUpdateRequest st) && negb (isExecutionRequest st)
    then presentStructure (proposedStructure st) st
    else (st, Next)
  else (st, Next).

(** Lines 568 to 578: the forced regeneration of [updateFile]. *)
Definition override_update (userMsg : string) (dataObj : json) (st : state)
  : state * flow :=
  match updateFile st with
  | Some file =>
      if step_is dataObj "generate_files" && isUpdateRequest st
         && negb (is_empty file)
      then
        let args := get_prop dataObj "args" in
        let pt := opt_prop args "projectType" in
        let pt := if truthy pt then pt else Some (JStr "HTML web app") in
        let desc := opt_prop args "description" in
        let desc := if truthy desc then desc else Some (JStr userMsg) in
        let '(content, rest) :=
          generateFileContent (projectName st) (Some (JStr file)) pt desc
            (fetches st) in
        let st :=
          record_call
            (CallGenerateFileContent (Some (JStr file)) pt desc true (updateIssue st))
            (set_fetches rest st) in
        match content with
        | None => (st, Thrown)
        | Some c =>
            let newArgs := Some (JArr [JObj [("fileName", JStr file); ("content", c)]]) in
            let '(fs', o) := createDynamicFile (fs st) newArgs in
            let st := record_call (CallCreateDynamicFile newArgs) (set_fs fs' st) in
            match o with
            | Some o => tool_result (JStr (outcome_text o)) st
            | None => (st, Thrown)
            end
        end
      else (st, Next)
  | None => (st, Next)
  end.

(** Lines 592 to 598. *)
Definition reset_context (st : state) : state :=
  set_updateFile None
    (set_updateIssue None
       (set_isExecutionRequest false
          (set_isUpdateRequest false
             (set_projectName None
                (set_projectType None (set_proposedStructure (JArr []) st)))))).

(** Lines 580 to 600. *)
Definition final_result (dataObj : json) (st : state) : state * flow :=
  if step_is dataObj "final_result" then (reset_context st, Finished)
  else (st, Next).

(** The fence and whitespace stripping of a reply, lines 479 to 483. *)
Definition cleanReply (response : string) : string :=
  trim (delete_matches re_newline_indent
          (delete_matches re_fence_line (delete_matches re_json_fence response))).

(** The body of the [try] block for one reply.  The step and the content
    are printed before anything else is done. *)
Definition processReply (userMsg response : string) (st : state) : state * flow :=
  match JSON_parse (cleanReply response) with
  | None => (st, Thrown)                  (* [JSON.parse] throws *)
  | Some JNull => (st, Thrown)            (* [dataObj.step] on [null] *)
  | Some dataObj =>
    if negb (printable (get_prop dataObj "step")
             && printable (get_prop dataObj "content"))
    then (st, Thrown)
    else
      interpret userMsg dataObj (push "model" (JSON_stringify dataObj) st)
      >>> dispatch dataObj
      >>> gate dataObj
      >>> override_update userMsg dataObj
      >>> final_result dataObj
      >>> (fun st => (push "user" "Proceed to next step" st, Next))
  end.

(** How a run of [runAgent] ends.  [Pending] is a run still waiting: for
    the backend when the scripted replies are used up, or for the user at
    the approval prompt. *)
Inductive run_end : Type :=
| Done
| NoResponse
| ProcessingError
| StructureRejected
| Pending.

(** The [while (true)] loop; [replies] are the successive results of
    [generateContent()], [None] for [null]. *)
Fixpoint runLoop (userMsg : string) (replies : list (option string))
  (st : state) : state * run_end :=
  match replies with
  | [] => (st, Pending)
  | None :: _ => (st, NoResponse)
  | Some response :: rest =>
      if is_empty response then (st, NoResponse)
      else
        match processReply userMsg response st with
        | (st', Next) => runLoop userMsg rest st'
        | (st', Thrown) => (st', ProcessingError)
        | (st', Rejected) => (st', StructureRejected)
        | (st', Finished) => (st', Done)
        | (st', Stalled) => (st', Pending)
        end
  end.

(** [runAgent(userMsg)]: the request is logged, the four local variables
    start out fresh, the loop runs. *)
Definition runAgent (userMsg : string) (replies : list (option string))
  (st : state) : state * run_end :=
  runLoop userMsg replies
    (set_updateFile None
       (set_updateIssue None
          (set_isExecutionRequest false
             (set_isUpdateRequest false (push "user" userMsg st))))).

(** The state of a freshly started program over the file system [fs0]. *)
Definition initial_state (fs0 : filesystem) (fetches0 : list fetch_outcome)
  (answers0 : list string) : state :=
  State [] (JArr []) None None false false None None fs0 fetches0 answers0 [].

(** The four variables local to a run. *)
Definition locals (st : state) : bool * bool * option string * option string :=
  (isUpdateRequest st, isExecutionRequest st, updateIssue st, updateFile st).

(** ** The backend call and the command line *)


(** How [processInput] ends: the program exits, the help is shown, or the
    agent has run. *)
Inductive input_end : Type :=
| Exited
| HelpShown
| Ran (e : run_end).

(** [processInput(input)], lines 616 to 631. *)
Definition processInput (input : string) (replies : list (option string))
  (st : state) : state * input_end :=
  let inputLower := trim (toLowerCase input) in
  if String.eqb inputLower "exit" || String.eqb inputLower "quit" then (st, Exited)
  else if String.eqb inputLower "help" then (st, HelpShown)
  else let '(st', e) := runAgent input replies st in (st', Ran e).

(** The handler [main] installs for a line typed at the prompt, lines 665
    to 669; [None] when the line is not processed. *)
Definition main_on_line (input : string) (replies : list (option string))
  (st : state) : state * option input_end :=
  if is_empty (trim input) then (st, None)
  else let '(st', e) := processInput (trim input) replies st in (st', Some e).

(** ** Scripted backend replies used in the scenarios below *)

(** A backend response whose first candidate carries the text [t]. *)
Definition backend_text (t : string) : fetch_outcome :=
  FetchData
    (JObj [("candidates",
            JArr [JObj [("content",
                         JObj [("parts", JArr [JObj [("text", JStr t)]])])]])]).

Definition reply_initialization : string :=
  js_text "{ ~step~: ~initialization~, ~content~: ~I'll handle the request in 'chaicode'.~, ~function~: null, ~args~: null }".

Definition reply_analyze_new : string :=
  js_text "```json\n{ ~step~: ~analyze~,\n  ~content~: ~The project is an HTML to-do list app. I'll name it 'todo-app' in 'chaicode'.~,\n  ~function~: ~read_directory~, ~args~: ~chaicode~ }\n```".

Definition reply_generate_structure : string :=
  js_text "{ ~step~: ~generate_structure~, ~content~: ~Generating structure for the to-do list app.~, ~function~: ~generate_project_structure~, ~args~: { ~projectType~: ~HTML web app~, ~description~: ~creates a to-do list~ } }".

Definition reply_generate_files : string :=
  js_text "{ ~step~: ~generate_files~, ~content~: ~Creating files.~, ~function~: ~create_dynamic_file~, ~args~: [{ ~fileName~: ~todo-app/index.html~, ~content~: ~<html></html>~ }] }".

Definition reply_final_result : string :=
  js_text "{ ~step~: ~final_result~, ~content~: ~All done.~, ~function~: null, ~args~: null }".

Definition reply_analyze_update : string :=
  js_text "{ ~step~: ~analyze~, ~content~: ~Found project 'todo-app' in 'root' with a style.css.~, ~function~: null, ~args~: null }".

Definition reply_unknown_step : string :=
  js_text "{ ~step~: ~deploy~, ~content~: ~Deploying.~, ~function~: null, ~args~: null }".

Definition reply_inherited_function : string :=
  js_text "{ ~step~: ~analyze~, ~content~: ~Looking around.~, ~function~: ~constructor~, ~args~: null }".

Definition structure_response : fetch_outcome :=
  backend_text (js_text "```json\n{ ~structure~: [~chaicode/todo-app/index.html~, ~chaicode/todo-app/style.css~] }\n```").

Definition new_project_request : string := "Create a to-do list in HTML".

(** Scenario A up to the structure step: the state in which the reply
    [reply_generate_structure] arrives, the user about to type [answer]. *)
Definition state_at_gate (answer : string) : state :=
  fst (runAgent new_project_request
         [Some reply_initialization; Some reply_analyze_new]
         (initial_state ∅ [structure_response] [answer])).

Definition update_request : string := "please fix the css".

(** An update run: the request, then the four replies of the backend. *)
Definition update_run : state * run_end :=
  runAgent update_request
    [Some reply_initialization; Some reply_analyze_update;
     Some reply_generate_files; Some reply_final_result]
    (initial_state ∅ [backend_text "body { color: red }"] []).

(** Scenario A with the structure turned down, and the run that follows
    it. *)
Definition rejected_run : state * run_end :=
  runAgent new_project_request
    [Some reply_initialization; Some reply_analyze_new;
     Some reply_generate_structure; Some reply_generate_files;
     Some reply_final_result]
    (initial_state ∅ [structure_response] ["no"; "yes"]).

Definition reply_analyze_plain : string :=
  js_text "{ ~step~: ~analyze~, ~content~: ~The project is a Python calculator script.~, ~function~: null, ~args~: null }".

Definition reply_structure_skipped : string :=
  js_text "{ ~step~: ~generate_structure~, ~content~: ~Nothing to generate.~, ~function~: null, ~args~: null }".

Definition run_after_rejection : state * run_end :=
  runAgent "Write a Python script for a calculator"
    [Some reply_initialization; Some reply_analyze_plain;
     Some reply_structure_skipped]
    (fst rejected_run).

Definition inherited_name_run : state * run_end :=
  runAgent "hello"
    [Some reply_inherited_function; Some reply_final_result]
    (initial_state ∅ [] []).

(** A working directory in which [chaicode] is a regular file. *)
Definition fs_root_is_file : filesystem :=
  {[ ["chaicode"] := File "not a directory" ]}.

Definition reply_initialization_writing : string :=
  js_text "{ ~step~: ~initialization~, ~content~: ~Starting.~, ~function~: ~create_dynamic_file~, ~args~: { ~fileName~: ~todo-app/index.html~, ~content~: ~<html></html>~ } }".

(** Scenario A again, with an [initialization] reply that already declares
    [create_dynamic_file]; the structure is turned down. *)
Definition early_write_run : state * run_end :=
  runAgent new_project_request
    [Some reply_initialization_writing; Some reply_analyze_new;
     Some reply_generate_structure; Some reply_generate_files;
     Some reply_final_result]
    (initial_state ∅ [structure_response] ["no"]).

Definition scenario_b_content : string :=
  "Found project 'todo-app' in 'root' with a style.css.".

Definition the_five_steps : list string :=
  ["initialization"; "analyze"; "generate_structure"; "generate_files"; "final_result"].

(** ** Notions used in the statements and proofs of the further
    properties *)

(** [fs1] is [fs0] with directories added where nothing was. *)
Definition dirs_added (fs0 fs1 : filesystem) : Prop :=
  forall key,
    (forall n, fs_lookup fs0 key = Some n -> fs_lookup fs1 key = Some n) /\
    (fs_lookup fs1 key = fs_lookup fs0 key \/ fs_lookup fs1 key = Some Dir).

Definition grows_from (st : state) (r : state * flow) : Prop :=
  exists more, contents (fst r) = contents st ++ more.

Definition context_is_reset (st : state) : Prop :=
  proposedStructure st = JArr [] /\ projectType st = None /\
  projectName st = None /\ locals st = (false, false, None, None).

(** The keyword tests of the [initialization] block. *)
Definition update_keywords (userMsg : string) : bool :=
  let lowerMsg := toLowerCase userMsg in
  includes "not working" lowerMsg || includes "fix" lowerMsg
  || includes "update" lowerMsg.

Definition execution_keywords (userMsg : string) : bool :=
  let lowerMsg := toLowerCase userMsg in
  includes "run" lowerMsg || includes "execute" lowerMsg
  || includes "start" lowerMsg.

Definition classified (st : state) : bool :=
  isUpdateRequest st || isExecutionRequest st.

(** What the phases after the two interpreting blocks hand on in a run
    that is classified: the lines the user will type are all still there,
    the phase was not turned down at the gate, and the run stays
    classified as long as it goes on. *)
Definition unasked (A : list string) (x : state * flow) : Prop :=
  answers (fst x) = A /\ snd x <> Rejected /\
  (snd x = Next -> classified (fst x) = true).

Definition kind_follows_keywords (userMsg : string) (st : state) : Prop :=
  (isUpdateRequest st = true -> update_keywords userMsg = true) /\
  (isExecutionRequest st = true ->
   update_keywords userMsg = false /\ execution_keywords userMsg = true).

(** The line reads [word] in any mix of cases, between white space. *)
Definition reads (input word : string) : Prop :=
  exists pre core post,
    input = pre +:+ core +:+ post /\
    all_ws pre = true /\ all_ws post = true /\ toLowerCase core = word.

(** The segments from the first [chaicode] on, or all of them when there
    is none: what the splice of [normalizePath] keeps. *)
Definition from_root (l : list string) : list string :=
  match indexOf "chaicode" l with
  | Some i => drop i l
  | None => l
  end.

(** The segments [normalizePath] keeps of a path free of parent
    segments. *)
Definition kept_segments (p : string) : list string :=
  from_root (filter (fun seg => seg <> ".") (input_segments p)).

(** A text between the fences of a [json] code block. *)
Definition json_fenced (body : string) : string :=
  "```json" +:+ String "010" body +:+ String "010" "```".

Definition backtick : ascii := "`".

(** The closing fence, [```] at the end of a line. *)
Definition closing (st : mstate) : option mstate :=
  rmatch (RSeq (RLit "```") REol) st Some.

(** The first character that is not white space is no backtick. *)
Definition no_fence_ahead (v : string) : Prop :=
  match trim_start v with
  | String d _ => d <> backtick
  | EmptyString => True
  end.

(** The character before the cursor once [w] has been read. *)
Fixpoint last_prev (prev : option ascii) (w : string) : option ascii :=
  match w with
  | EmptyString => prev
  | String c w' => last_prev (Some c) w'
  end.

(** Every non-empty suffix holds a character that is not white space. *)
Definition solid (core : string) : Prop :=
  forall u v, core = u +:+ v -> is_empty v = false -> all_ws v = false.

Definition LF : ascii := "010".

(** What [/\n\s*/g] leaves of a text: [skipping] is set while the scan is
    inside a match. *)
Fixpoint without_indent (skipping : bool) (s : string) : string :=
  match s with
  | EmptyString => EmptyString
  | String c s' =>
      if skipping && is_ws c then without_indent true s'
      else if Ascii.eqb c LF then without_indent true s'
      else String c (without_indent false s')
  end.

(** Whether the scan is inside a match once [s] has been read. *)
Fixpoint skipping_after (skipping : bool) (s : string) : bool :=
  match s with
  | EmptyString => skipping
  | String c s' =>
      skipping_after
        (if skipping && is_ws c then true else Ascii.eqb c LF) s'
  end.

(** The regular files of [fs1] are those of [fs0], with the same
    content. *)
Definition same_files (fs0 fs1 : filesystem) : Prop :=
  forall q c, readFileSync fs1 q = Ok c <-> readFileSync fs0 q = Ok c.

(** Every character of [w] is in the class. *)
Fixpoint all_in (cls : ascii -> bool) (w : string) : bool :=
  match w with
  | EmptyString => true
  | String c w' => cls c && all_in cls w'
  end.

(** * Properties *)

(** *** Splitting and joining *)

Lemma append_cons (c : ascii) (a b : string) :
  String c a +:+ b = String c (a +:+ b).
Proof. reflexivity. Qed.

Lemma append_empty_l (a : string) : EmptyString +:+ a = a.
Proof. reflexivity. Qed.

Lemma append_assoc (a b c : string) : (a +:+ b) +:+ c = a +:+ (b +:+ c).
Proof.
  induction a as [|x a IH]; [reflexivity |].
  now rewrite !append_cons, IH.
Qed.

Lemma append_empty_r (a : string) : a +:+ EmptyString = a.
Proof.
  induction a as [|x a IH]; [reflexivity |]. now rewrite append_cons, IH.
Qed.

Lemma split_on_cons (sep : ascii) (s : string) :
  exists seg rest, split_on sep s = seg :: rest.
Proof.
  induction s as [|c s [seg [rest IH]]]; simpl; [now eauto |].
  destruct (Ascii.eqb c sep); [now eauto |]. rewrite IH. now eauto.
Qed.

Lemma split_on_app (sep : ascii) (a b : string) :
  split_on sep (a +:+ String sep b) = split_on sep a ++ split_on sep b.
Proof.
  induction a as [|c a IH].
  - rewrite append_empty_l. simpl. now rewrite Ascii.eqb_refl.
  - rewrite append_cons. simpl.
    destruct (Ascii.eqb c sep); [now rewrite IH |].
    rewrite IH. destruct (split_on_cons sep a) as [seg [rest ->]]. reflexivity.
Qed.

Lemma split_on_free (sep : ascii) (a : string) :
  has_char sep a = false -> split_on sep a = [a].
Proof.
  induction a as [|c a IH]; simpl; [reflexivity |].
  rewrite Ascii.eqb_sym.
  destruct (Ascii.eqb c sep); simpl; [discriminate |].
  intros H. now rewrite (IH H).
Qed.

Lemma split_on_segments_free (sep : ascii) (s : string) :
  Forall (fun seg => has_char sep seg = false) (split_on sep s).
Proof.
  induction s as [|c s IH]; simpl; [now repeat constructor |].
  destruct (Ascii.eqb c sep) eqn:E; [now constructor |].
  destruct (split_on_cons sep s) as [seg [rest Hs]]. rewrite Hs in *.
  inversion IH; subst. constructor; [|assumption]. simpl.
  rewrite Ascii.eqb_sym, E. assumption.
Qed.

Lemma split_on_join (sep : ascii) (segs : list string) :
  Forall (fun seg => has_char sep seg = false) segs ->
  segs <> [] ->
  split_on sep (join_with (String sep EmptyString) segs) = segs.
Proof.
  induction segs as [|x segs IH]; [congruence |].
  intros Hall _. inversion Hall as [|? ? Hx Hrest]; subst.
  destruct segs as [|y segs]; [now apply split_on_free |].
  change (join_with (String sep EmptyString) (x :: y :: segs))
    with (x +:+ String sep (join_with (String sep EmptyString) (y :: segs))).
  rewrite split_on_app, (split_on_free _ _ Hx), IH; [reflexivity | assumption | discriminate].
Qed.

(** *** [normalizeSegs] without parent segments *)

Lemma normalizeSegs_no_parent (allow : bool) (segs stack : list string) :
  ".." ∉ segs ->
  normalizeSegs allow stack segs
  = rev stack ++ filter (fun seg => seg <> "" /\ seg <> ".") segs.
Proof.
  revert stack. induction segs as [|seg segs IH]; intros stack Hno; simpl.
  - now rewrite app_nil_r.
  - assert (Hseg : seg <> "..") by (intros ->; apply Hno; left).
    assert (Hrest : ".." ∉ segs) by (intros H; apply Hno; now right).
    destruct (String.eqb_spec seg "") as [->|H1]; simpl.
    { rewrite filter_cons_False by (intros [H _]; congruence). now apply IH. }
    destruct (String.eqb_spec seg ".") as [->|H2]; simpl.
    { rewrite filter_cons_False by (intros [_ H]; congruence). now apply IH. }
    destruct (String.eqb_spec seg "..") as [->|_]; [congruence |].
    rewrite filter_cons_True by (split; assumption).
    rewrite IH by assumption. simpl. now rewrite <- app_assoc.
Qed.

(** The segments [normalizePath] works on are non-empty and free of
    slashes. *)
Lemma path_parts_wf (p : string) :
  Forall (fun seg => is_empty seg = false /\ has_char "/" seg = false) (path_parts p).
Proof.
  unfold path_parts. apply Forall_forall. intros seg Hin.
  apply list_elem_of_filter in Hin as [Hne Hin]. split; [assumption |].
  pose proof (split_on_segments_free "/"
                (replace_char "\" "/" (path_normalize p))) as Hall.
  rewrite Forall_forall in Hall. now apply Hall.
Qed.

Lemma filter_all (P : string -> Prop) `{forall x, Decision (P x)}
  (l : list string) :
  Forall P l -> filter P l = l.
Proof.
  induction 1 as [|x l Hx _ IH]; [reflexivity |].
  rewrite filter_cons_True by assumption. now rewrite IH.
Qed.

Lemma replace_char_app (c d : ascii) (a b : string) :
  replace_char c d (a +:+ b) = replace_char c d a +:+ replace_char c d b.
Proof.
  induction a as [|x a IH]; [reflexivity |].
  rewrite append_cons. simpl. now rewrite IH, append_cons.
Qed.

(** What [path.join] returns for the root followed by segments that are
    non-empty, free of slashes and none of them [..]: the kept segments
    joined, possibly followed by a slash. *)
Lemma path_join_root (parts : list string) :
  Forall (fun seg => is_empty seg = false /\ has_char "/" seg = false) parts ->
  ".." ∉ parts ->
  exists tail,
    path_join (ROOT_DIR :: parts)
    = join_with "/" (ROOT_DIR :: filter (fun seg => seg <> "" /\ seg <> ".") parts)
      +:+ tail
    /\ (tail = EmptyString \/ tail = "/").
Proof.
  intros Hwf Hno. unfold path_join.
  rewrite filter_cons_True by reflexivity.
  rewrite filter_all
    by (eapply Forall_impl; [exact Hwf | now intros ? [? _]]).
  set (J := join_with "/" (ROOT_DIR :: parts)).
  assert (HJ : exists t, J = String "c" t).
  { subst J. destruct parts; simpl; eauto. }
  destruct HJ as [t HJ].
  assert (Hsplit : split_on "/" J = ROOT_DIR :: parts).
  { subst J. apply (split_on_join "/"); [|discriminate].
    constructor; [reflexivity |].
    eapply Forall_impl; [exact Hwf | now intros ? [_ ?]]. }
  assert (He : is_empty J = false) by now rewrite HJ.
  assert (Ha : starts_with "/" J = false) by now rewrite HJ.
  unfold path_normalize. cbv zeta. rewrite He, Ha, Hsplit.
  rewrite normalizeSegs_no_parent
    by (intros Hin; apply elem_of_cons in Hin as [Hin|Hin]; [discriminate | tauto]).
  rewrite filter_cons_True by (split; discriminate).
  simpl rev. rewrite app_nil_l.
  set (body := join_with "/" (ROOT_DIR :: filter _ parts)).
  assert (Hb : is_empty body = false).
  { subst body. destruct (filter _ parts); reflexivity. }
  rewrite Hb, append_empty_l.
  destruct (ends_with "/" J); eauto.
Qed.

Lemma replace_char_free (c d : ascii) (s : string) :
  has_char c s = false -> replace_char c d s = s.
Proof.
  induction s as [|a s IH]; simpl; [reflexivity |].
  rewrite Ascii.eqb_sym.
  destruct (Ascii.eqb a c); simpl; [discriminate |].
  intros H. now rewrite (IH H).
Qed.

Lemma segments_app_sep (a b : string) :
  segments (a +:+ String "/" b) = segments a ++ segments b.
Proof. unfold segments. now rewrite split_on_app, filter_app. Qed.

Lemma segments_single (x : string) :
  is_empty x = false -> has_char "/" x = false -> segments x = [x].
Proof.
  intros Hne Hfree. unfold segments. rewrite (split_on_free _ _ Hfree).
  now rewrite filter_cons_True.
Qed.

(** The segments of a joined path, read off after the backslash
    replacement: a first segment that holds neither separator stays in
    front. *)
Lemma segments_join_cons (x : string) (more : list string) (tail : string) :
  is_empty x = false ->
  has_char "/" x = false ->
  has_char "\" x = false ->
  tail = EmptyString \/ tail = "/" ->
  segments (replace_char "\" "/" (join_with "/" (x :: more) +:+ tail))
  = x :: match more with
         | [] => []
         | _ => segments (replace_char "\" "/" (join_with "/" more +:+ tail))
         end.
Proof.
  intros Hne Hslash Hback Htail. destruct more as [|y more].
  - simpl join_with. rewrite replace_char_app, (replace_char_free _ _ _ Hback).
    destruct Htail as [-> | ->]; simpl replace_char.
    + rewrite append_empty_r. now apply segments_single.
    + rewrite segments_app_sep, segments_single by assumption. reflexivity.
  - change (join_with "/" (x :: y :: more))
      with (x +:+ String "/" (join_with "/" (y :: more))).
    rewrite append_assoc, append_cons, replace_char_app.
    rewrite (replace_char_free _ _ _ Hback). simpl replace_char at 1.
    rewrite segments_app_sep, segments_single by assumption. reflexivity.
Qed.

(** Without a parent segment among the segments [normalizePath] works on,
    the path it returns does start with the root. *)
Lemma normalizePath_first_segment (p : string) :
  ".." ∉ path_parts p ->
  first_segment (normalizePath p) = Some ROOT_DIR.
Proof.
  intros Hno. unfold normalizePath, first_segment.
  set (parts := match indexOf "chaicode" (path_parts p) with
                | Some (S i) => drop (S i) (path_parts p)
                | _ => path_parts p
                end).
  assert (Hwf : Forall (fun seg => is_empty seg = false /\ has_char "/" seg = false) parts).
  { subst parts. pose proof (path_parts_wf p) as H.
    destruct (indexOf "chaicode" (path_parts p)) as [[|i]|]; try exact H.
    now apply Forall_drop. }
  assert (Hno' : ".." ∉ parts).
  { subst parts. destruct (indexOf "chaicode" (path_parts p)) as [[|i]|]; try exact Hno.
    intros Hin. apply Hno. rewrite <- (take_drop (S i) (path_parts p)).
    apply elem_of_app. now right. }
  destruct (path_join_root parts Hwf Hno') as [tail [-> Htail]].
  rewrite segments_join_cons by (reflexivity || assumption). reflexivity.
Qed.

(** *** From the input path to the segments [normalizePath] works on *)

Lemma join_with_cons (sep x : string) (y : string) (l : list string) :
  join_with sep (x :: y :: l) = x +:+ sep +:+ join_with sep (y :: l).
Proof. reflexivity. Qed.

Lemma split_on_join_concat (sep : ascii) (l : list string) :
  l <> [] ->
  split_on sep (join_with (String sep EmptyString) l)
  = concat (map (split_on sep) l).
Proof.
  induction l as [|x l IH]; [congruence |]. intros _.
  destruct l as [|y l]; [simpl; now rewrite app_nil_r |].
  rewrite join_with_cons.
  change (String sep EmptyString +:+ join_with (String sep EmptyString) (y :: l))
    with (String sep (join_with (String sep EmptyString) (y :: l))).
  rewrite split_on_app, IH by discriminate. reflexivity.
Qed.

Lemma join_split (sep : ascii) (s : string) :
  join_with (String sep EmptyString) (split_on sep s) = s.
Proof.
  induction s as [|c s IH]; [reflexivity |]. simpl.
  destruct (Ascii.eqb_spec c sep) as [->|Hne].
  - destruct (split_on_cons sep s) as [seg [rest Hs]]. rewrite Hs in *.
    rewrite join_with_cons, IH. reflexivity.
  - destruct (split_on_cons sep s) as [seg [rest Hs]]. rewrite Hs in *.
    destruct rest as [|y rest].
    + simpl in *. now rewrite IH.
    + rewrite join_with_cons in *. rewrite append_cons, IH. reflexivity.
Qed.

Lemma replace_char_join (l : list string) :
  replace_char "\" "/" (join_with "/" l)
  = join_with "/" (map (replace_char "\" "/") l).
Proof.
  induction l as [|x l IH]; [reflexivity |].
  destruct l as [|y l]; [reflexivity |].
  rewrite join_with_cons, !replace_char_app, IH. reflexivity.
Qed.

Lemma input_segments_pieces (p : string) :
  input_segments p = concat (map piece_segments (split_on "/" p)).
Proof.
  unfold input_segments.
  rewrite <- (join_split "/" p) at 1.
  change (String "/" EmptyString) with "/".
  rewrite replace_char_join.
  rewrite (split_on_join_concat "/")
    by (destruct (split_on_cons "/" p) as [seg [rest ->]]; discriminate).
  rewrite map_map.
  generalize (split_on "/" p). intros l.
  induction l as [|x l IH]; [reflexivity |].
  simpl. rewrite filter_app, IH. reflexivity.
Qed.

(** The text [path.normalize] returns when no [..] is among the pieces and
    some piece survives: the surviving pieces joined, between an optional
    leading and an optional trailing slash. *)
Lemma path_normalize_kept (p : string) :
  ".." ∉ split_on "/" p ->
  filter (fun seg => seg <> "" /\ seg <> ".") (split_on "/" p) <> [] ->
  exists pre post,
    path_normalize p
    = pre +:+ join_with "/" (filter (fun seg => seg <> "" /\ seg <> ".") (split_on "/" p))
          +:+ post
    /\ (pre = EmptyString \/ pre = "/") /\ (post = EmptyString \/ post = "/").
Proof.
  intros Hno Hkept. unfold path_normalize.
  destruct p as [|c p]; [now destruct Hkept |].
  cbv zeta. change (is_empty (String c p)) with false. cbv iota.
  rewrite normalizeSegs_no_parent by assumption. simpl rev. rewrite app_nil_l.
  set (F := filter _ (split_on "/" (String c p))) in *.
  assert (Hbody : is_empty (join_with "/" F) = false).
  { assert (Hhead : forall x, x ∈ F -> x <> "").
    { intros x Hx. subst F. apply list_elem_of_filter in Hx. tauto. }
    destruct F as [|x F']; [congruence |].
    assert (Hx : x <> "") by (apply Hhead; left).
    destruct x; [congruence |]. now destruct F'. }
  rewrite Hbody.
  exists (if starts_with "/" (String c p) then "/" else EmptyString),
         (if ends_with "/" (String c p) then "/" else EmptyString).
  split; [reflexivity |].
  split; [destruct (starts_with "/" (String c p)) | destruct (ends_with "/" (String c p))];
    auto.
Qed.

Lemma path_parts_kept (p : string) :
  ".." ∉ split_on "/" p ->
  filter (fun seg => seg <> "" /\ seg <> ".") (split_on "/" p) <> [] ->
  path_parts p
  = concat (map piece_segments
              (filter (fun seg => seg <> "" /\ seg <> ".") (split_on "/" p))).
Proof.
  intros Hno Hkept.
  destruct (path_normalize_kept p Hno Hkept) as (pre & post & Hn & Hpre & Hpost).
  unfold path_parts. rewrite Hn.
  set (F := filter _ (split_on "/" p)) in *.
  rewrite !replace_char_app, replace_char_join.
  set (B := join_with "/" (map (replace_char "\" "/") F)).
  assert (HB : filter (fun part => is_empty part = false) (split_on "/" B)
               = concat (map piece_segments F)).
  { subst B. rewrite (split_on_join_concat "/") by (now destruct F).
    rewrite map_map. clear. induction F as [|x F IH]; [reflexivity |].
    simpl. rewrite filter_app, IH. reflexivity. }
  assert (Hpost' : filter (fun part => is_empty part = false)
                     (split_on "/" (B +:+ replace_char "\" "/" post))
                   = concat (map piece_segments F)).
  { destruct Hpost as [-> | ->]; simpl replace_char.
    - now rewrite append_empty_r.
    - rewrite split_on_app, filter_app, HB. simpl. now rewrite app_nil_r. }
  destruct Hpre as [-> | ->]; simpl replace_char.
  - now rewrite append_empty_l.
  - rewrite append_cons, append_empty_l. simpl split_on.
    rewrite filter_cons_False by discriminate. exact Hpost'.
Qed.

(** Dropping the [.] pieces (and the empty ones) keeps a first segment that
    is not [.], and adds no segment. *)
Lemma kept_pieces_head (l : list string) (x : string) :
  x <> "." ->
  head (concat (map piece_segments l)) = Some x ->
  head (concat (map piece_segments
                  (filter (fun seg => seg <> "" /\ seg <> ".") l))) = Some x.
Proof.
  intros Hx. induction l as [|y l IH]; [discriminate |].
  destruct (decide (y = "")) as [->|Hy1].
  { rewrite filter_cons_False by (intros [H _]; congruence). exact IH. }
  destruct (decide (y = ".")) as [->|Hy2].
  { simpl. intros [= <-]. congruence. }
  rewrite filter_cons_True by (split; assumption). simpl.
  destruct (piece_segments y) as [|z zs]; [exact IH | trivial].
Qed.

Lemma kept_pieces_subset (l : list string) (x : string) :
  x ∈ concat (map piece_segments
                (filter (fun seg => seg <> "" /\ seg <> ".") l)) ->
  x ∈ concat (map piece_segments l).
Proof.
  induction l as [|y l IH]; [trivial |]. simpl.
  destruct (decide (y <> "" /\ y <> ".")) as [Hy|Hy].
  - rewrite filter_cons_True by assumption. simpl.
    rewrite !elem_of_app. intros [H|H]; auto.
  - rewrite filter_cons_False by assumption.
    rewrite elem_of_app. auto.
Qed.

Lemma parent_piece (l : list string) :
  ".." ∈ l -> ".." ∈ concat (map piece_segments l).
Proof.
  induction l as [|y l IH]; [intros H; inversion H |].
  rewrite elem_of_cons. simpl. rewrite elem_of_app.
  intros [<- | H]; [left; vm_compute; left | right; auto].
Qed.

(** With no [..] among the segments of the input, the segments
    [normalizePath] works on hold none either; and a first input segment
    equal to the root name stays first. *)
Lemma path_parts_of_input (p : string) :
  ".." ∉ input_segments p ->
  (".." ∉ path_parts p) /\
  (head (input_segments p) = Some "chaicode" ->
   head (path_parts p) = Some "chaicode").
Proof.
  rewrite input_segments_pieces. intros Hno.
  assert (HnoS : ".." ∉ split_on "/" p).
  { intros H. apply Hno. now apply parent_piece. }
  destruct (decide (filter (fun seg => seg <> "" /\ seg <> ".") (split_on "/" p)
                    = [])) as [Hnil|Hkept].
  - (* every piece is empty or [.]: the normalised path is [.], [./] or [/] *)
    assert (Hparts : path_parts p = ["."] \/ path_parts p = []).
    { unfold path_parts, path_normalize.
      destruct p as [|c p]; [now left |].
      cbv zeta. change (is_empty (String c p)) with false. cbv iota.
      rewrite normalizeSegs_no_parent by assumption. rewrite Hnil.
      destruct (starts_with "/" (String c p)), (ends_with "/" (String c p));
        vm_compute; auto. }
    split.
    + destruct Hparts as [-> | ->]; intros H.
      * apply list_elem_of_In in H. simpl in H. intuition discriminate.
      * inversion H.
    + intros Hhead. exfalso. revert Hnil Hhead. clear.
      induction (split_on "/" p) as [|y l IH]; [discriminate |].
      destruct (decide (y = "")) as [->|Hy1].
      { rewrite filter_cons_False by (intros [H _]; congruence). exact IH. }
      destruct (decide (y = ".")) as [->|Hy2].
      { intros _. simpl. discriminate. }
      rewrite filter_cons_True by (split; assumption). discriminate.
  - rewrite (path_parts_kept p HnoS Hkept). split.
    + intros H. apply Hno. now apply kept_pieces_subset.
    + apply kept_pieces_head. discriminate.
Qed.

(** With no [..] segment in the input, the path returned does start with
    the root. *)
Lemma normalizePath_confines_without_parent (p : string) :
  ".." ∉ input_segments p ->
  first_segment (normalizePath p) = Some ROOT_DIR.
Proof.
  intros Hno. apply normalizePath_first_segment.
  now destruct (path_parts_of_input p Hno).
Qed.

(** ** Path confinement *)

(** C1, evaluated on the input the claim fails at: a leading [..] segment
    cancels the root that [path.join] has just prefixed, so the path
    returned for [../x] is [x], whose first segment is not the root, and
    the path returned for [../../x] leaves the working directory. *)
Theorem C1_normalizePath_parent_segment_escapes :
  normalizePath "../x" = "x" /\
  first_segment (normalizePath "../x") = Some "x" /\
  normalizePath "../../x" = "../x".
Proof. vm_compute. repeat split; reflexivity. Qed.

(** C9, the claim as stated fails: the first segment of [chaicode/../x] is
    the root name, and the path returned has the single root prefix
    [chaicode/x]. *)
Lemma C9_counterexample_parent_segment :
  first_segment "chaicode/../x" = Some "chaicode" /\
  head (input_segments "chaicode/../x") = Some "chaicode" /\
  normalizePath "chaicode/../x" = "chaicode/x" /\
  take 2 (segments (normalizePath "chaicode/../x")) <> ["chaicode"; "chaicode"].
Proof. vm_compute. repeat split; try reflexivity. discriminate. Qed.

(** When the segments [normalizePath] works on begin with the root name
    and hold no parent segment, the root is prefixed once more. *)
Lemma normalizePath_root_twice (p : string) :
  head (path_parts p) = Some "chaicode" ->
  ".." ∉ path_parts p ->
  take 2 (segments (normalizePath p)) = ["chaicode"; "chaicode"].
Proof.
  intros Hhead Hno.
  pose proof (path_parts_wf p) as Hwf.
  unfold normalizePath.
  destruct (path_parts p) as [|seg rest] eqn:Hparts; [discriminate |].
  injection Hhead as ->. simpl indexOf. cbv iota.
  destruct (path_join_root _ Hwf Hno) as [tail [-> Htail]].
  rewrite filter_cons_True by (split; discriminate).
  rewrite !segments_join_cons by (reflexivity || assumption). reflexivity.
Qed.

(** *** The result of [normalizePath], segment by segment *)

Lemma has_char_replaced (c d : ascii) (s : string) :
  c <> d -> has_char c (replace_char c d s) = false.
Proof.
  intros Hcd. induction s as [|a s IH]; [reflexivity |]. simpl.
  rewrite IH, orb_false_r.
  destruct (Ascii.eqb_spec a c) as [->|Hac]; now apply Ascii.eqb_neq.
Qed.

Lemma split_on_keeps_free (c sep : ascii) (s : string) :
  has_char c s = false ->
  Forall (fun seg => has_char c seg = false) (split_on sep s).
Proof.
  induction s as [|a s IH]; simpl; [now repeat constructor |].
  intros H. apply orb_false_iff in H as [Ha Hs]. specialize (IH Hs).
  destruct (Ascii.eqb a sep); [now constructor |].
  destruct (split_on_cons sep s) as [seg [rest Hsplit]]. rewrite Hsplit in *.
  inversion IH; subst. constructor; [|assumption]. simpl. now rewrite Ha.
Qed.

(** A segment is clean when it is non-empty and holds neither separator. *)
Lemma path_parts_clean (p : string) : Forall clean_segment (path_parts p).
Proof.
  pose proof (path_parts_wf p) as Hwf. unfold path_parts in *.
  pose proof (split_on_keeps_free "\" "/" _
                (has_char_replaced "\" "/" (path_normalize p) ltac:(discriminate)))
    as Hback.
  rewrite Forall_forall in *. intros seg Hin.
  destruct (Hwf seg Hin) as [H1 H2]. unfold clean_segment.
  rewrite H1, H2. split; [reflexivity |]. split; [reflexivity |].
  apply Hback. apply list_elem_of_filter in Hin. tauto.
Qed.

Lemma segments_join_all (l : list string) (tail : string) :
  Forall clean_segment l -> l <> [] ->
  tail = EmptyString \/ tail = "/" ->
  segments (replace_char "\" "/" (join_with "/" l +:+ tail)) = l.
Proof.
  intros Hall Hne Htail. induction Hall as [|x l (H1 & H2 & H3) Hall IH];
    [congruence |].
  rewrite segments_join_cons by assumption.
  destruct l as [|y l]; [reflexivity |]. now rewrite IH.
Qed.

Lemma join_clean_no_backslash (l : list string) (tail : string) :
  Forall clean_segment l ->
  tail = EmptyString \/ tail = "/" ->
  replace_char "\" "/" (join_with "/" l +:+ tail) = join_with "/" l +:+ tail.
Proof.
  intros Hall Htail. rewrite replace_char_app, replace_char_join.
  f_equal.
  - f_equal. induction Hall as [|x l (H1 & H2 & H3) Hall IH]; [reflexivity |].
    simpl. now rewrite IH, replace_char_free.
  - now destruct Htail as [-> | ->].
Qed.

Lemma piece_segments_clean (x : string) :
  clean_segment x -> piece_segments x = [x].
Proof.
  intros (H1 & H2 & H3). unfold piece_segments.
  rewrite replace_char_free, split_on_free by assumption.
  now rewrite filter_cons_True.
Qed.

(** [normalizePath] in one formula, when no parent segment is in the way:
    the root, then the segments kept of those it works on. *)
Lemma normalizePath_formula (p : string) :
  ".." ∉ path_parts p ->
  exists kept tail,
    normalizePath p = join_with "/" (ROOT_DIR :: kept) +:+ tail /\
    (tail = EmptyString \/ tail = "/") /\
    Forall clean_segment kept /\
    Forall (fun seg => seg <> "" /\ seg <> ".") kept /\
    ".." ∉ kept.
Proof.
  intros Hno. unfold normalizePath.
  set (parts := match indexOf "chaicode" (path_parts p) with
                | Some (S i) => drop (S i) (path_parts p)
                | _ => path_parts p
                end).
  assert (Hclean : Forall clean_segment parts).
  { subst parts. pose proof (path_parts_clean p) as H.
    destruct (indexOf "chaicode" (path_parts p)) as [[|i]|]; try exact H.
    now apply Forall_drop. }
  assert (Hno' : ".." ∉ parts).
  { subst parts. destruct (indexOf "chaicode" (path_parts p)) as [[|i]|]; try exact Hno.
    intros Hin. apply Hno. rewrite <- (take_drop (S i) (path_parts p)).
    apply elem_of_app. now right. }
  assert (Hwf : Forall (fun seg => is_empty seg = false /\ has_char "/" seg = false) parts).
  { eapply Forall_impl; [exact Hclean |]. intros x (H1 & H2 & _). now split. }
  destruct (path_join_root parts Hwf Hno') as [tail [-> Htail]].
  set (kept := filter (fun seg => seg <> "" /\ seg <> ".") parts).
  assert (Hkc : Forall clean_segment kept).
  { subst kept. apply Forall_forall. intros x Hx.
    apply list_elem_of_filter in Hx as [_ Hx].
    rewrite Forall_forall in Hclean. now apply Hclean. }
  exists kept, tail. split; [|split; [exact Htail | split; [exact Hkc | split]]].
  - apply join_clean_no_backslash; [|exact Htail].
    constructor; [now repeat split | exact Hkc].
  - subst kept. apply Forall_forall. intros x Hx.
    now apply list_elem_of_filter in Hx as [? _].
  - subst kept. intros Hx. apply list_elem_of_filter in Hx as [_ Hx]. auto.
Qed.

(** The segments [normalizePath] works on when it is given one of its own
    results. *)
Lemma path_parts_of_result (kept : list string) (tail : string) :
  Forall clean_segment kept ->
  Forall (fun seg => seg <> "" /\ seg <> ".") kept ->
  ".." ∉ kept ->
  tail = EmptyString \/ tail = "/" ->
  path_parts (join_with "/" (ROOT_DIR :: kept) +:+ tail) = ROOT_DIR :: kept.
Proof.
  intros Hclean Hkept Hno Htail.
  set (N := join_with "/" (ROOT_DIR :: kept) +:+ tail).
  assert (Hall : Forall clean_segment (ROOT_DIR :: kept))
    by (constructor; [now repeat split | assumption]).
  assert (Hsplit : split_on "/" N = ROOT_DIR :: kept \/
                   split_on "/" N = (ROOT_DIR :: kept) ++ [EmptyString]).
  { subst N. destruct Htail as [-> | ->].
    - left. rewrite append_empty_r. apply (split_on_join "/"); [|discriminate].
      eapply Forall_impl; [exact Hall | now intros x (_ & H & _)].
    - right. rewrite split_on_app. f_equal.
      apply (split_on_join "/"); [|discriminate].
      eapply Forall_impl; [exact Hall | now intros x (_ & H & _)]. }
  assert (Hfilter : filter (fun seg => seg <> "" /\ seg <> ".") (split_on "/" N)
                    = ROOT_DIR :: kept).
  { assert (Hid : filter (fun seg => seg <> "" /\ seg <> ".") (ROOT_DIR :: kept)
                  = ROOT_DIR :: kept).
    { rewrite filter_cons_True by (split; discriminate).
      now rewrite filter_all. }
    destruct Hsplit as [-> | ->]; [exact Hid |].
    rewrite filter_app, Hid.
    rewrite filter_cons_False by (intros [H _]; congruence).
    apply app_nil_r. }
  assert (HnoS : ".." ∉ split_on "/" N).
  { intros H.
    assert (Hin : ".." ∈ filter (fun seg => seg <> "" /\ seg <> ".")
                         (split_on "/" N))
      by (apply list_elem_of_filter; split; [split; discriminate | exact H]).
    rewrite Hfilter in Hin.
    apply elem_of_cons in Hin as [Hin|Hin]; [discriminate | auto]. }
  rewrite (path_parts_kept N HnoS) by (rewrite Hfilter; discriminate).
  rewrite Hfilter. clear -Hall.
  induction Hall as [|x l Hx _ IH]; [reflexivity |].
  simpl. now rewrite piece_segments_clean, IH.
Qed.

(** Applied to one of its own results, [normalizePath] prefixes the root
    once more: it is idempotent at no input free of parent segments. *)
Lemma normalizePath_not_idempotent (p : string) :
  ".." ∉ input_segments p ->
  segments (normalizePath (normalizePath p))
  = ROOT_DIR :: segments (normalizePath p) /\
  normalizePath (normalizePath p) <> normalizePath p.
Proof.
  intros Hno. destruct (path_parts_of_input p Hno) as [Hno' _].
  destruct (normalizePath_formula p Hno')
    as (kept & tail & HN & Htail & Hclean & Hkept & Hnok).
  assert (Hall : Forall clean_segment (ROOT_DIR :: kept))
    by (constructor; [now repeat split | assumption]).
  assert (Hseg : segments (normalizePath p) = ROOT_DIR :: kept).
  { rewrite HN, <- (join_clean_no_backslash _ tail Hall Htail).
    now apply segments_join_all. }
  assert (Hparts : path_parts (normalizePath p) = ROOT_DIR :: kept).
  { rewrite HN. now apply path_parts_of_result. }
  assert (Hstep : segments (normalizePath (normalizePath p))
                  = ROOT_DIR :: segments (normalizePath p)).
  { unfold normalizePath at 1. rewrite Hparts. simpl indexOf. cbv iota.
    assert (Hwf : Forall (fun seg => is_empty seg = false /\ has_char "/" seg = false)
                    (ROOT_DIR :: kept)).
    { eapply Forall_impl; [exact Hall |]. intros x (H1 & H2 & _). now split. }
    assert (Hnor : ".." ∉ ROOT_DIR :: kept).
    { rewrite elem_of_cons. intros [H|H]; [discriminate | auto]. }
    destruct (path_join_root _ Hwf Hnor) as [t [-> Ht]].
    rewrite filter_cons_True by (split; discriminate).
    rewrite filter_all, Hseg by assumption. apply segments_join_all; [| discriminate | exact Ht].
    constructor; [now repeat split | exact Hall]. }
  split; [exact Hstep |].
  intros Heq. rewrite Heq in Hstep.
  apply (f_equal (@length string)) in Hstep. simpl in Hstep. lia.
Qed.

(** C9, as amended: for an input path that holds no [..] segment and
    whose first non-empty segment is the root name, segments being what
    stands between slashes or backslashes, the root is prefixed once more
    and the path returned begins with the root name twice; so
    [normalizePath] applied to its own result does not give that result
    back. *)
Theorem C9_normalizePath_prefixes_root_again (p : string) :
  head (input_segments p) = Some "chaicode" ->
  ".." ∉ input_segments p ->
  take 2 (segments (normalizePath p)) = ["chaicode"; "chaicode"] /\
  normalizePath (normalizePath p) <> normalizePath p.
Proof.
  intros Hhead Hno. split.
  - destruct (path_parts_of_input p Hno) as [Hno' Hhead'].
    apply normalizePath_root_twice; auto.
  - now apply normalizePath_not_idempotent.
Qed.

Lemma C9_normalizePath_prefixes_root_again_witness :
  take 2 (segments (normalizePath "chaicode/x")) = ["chaicode"; "chaicode"] /\
  normalizePath (normalizePath "chaicode/x") <> normalizePath "chaicode/x".
Proof.
  apply (C9_normalizePath_prefixes_root_again "chaicode/x").
  - reflexivity.
  - vm_compute. intros H. apply list_elem_of_In in H. simpl in H.
    intuition discriminate.
Defined.

(** ** The file materializer *)

Lemma fs_lookup_insert_eq (fs0 : filesystem) (key : list string) (n : node) :
  always_dir key = false -> fs_lookup (<[key := n]> fs0) key = Some n.
Proof. intros H. unfold fs_lookup. rewrite H. apply lookup_insert_eq. Qed.

Lemma fs_lookup_insert_ne (fs0 : filesystem) (key key' : list string) (n : node) :
  key <> key' -> fs_lookup (<[key := n]> fs0) key' = fs_lookup fs0 key'.
Proof.
  intros H. unfold fs_lookup. destruct (always_dir key'); [reflexivity |].
  now apply lookup_insert_ne.
Qed.

(** Inserting a node never makes another node disappear. *)
Lemma fs_lookup_insert_some (fs0 : filesystem) (key key' : list string) (n : node) :
  is_Some (fs_lookup fs0 key') -> is_Some (fs_lookup (<[key := n]> fs0) key').
Proof.
  intros H. unfold fs_lookup in *. destruct (always_dir key'); [assumption |].
  destruct (decide (key = key')) as [->|Hne].
  - rewrite lookup_insert_eq. eauto.
  - now rewrite lookup_insert_ne.
Qed.





Lemma existsSync_is_Some (fs0 : filesystem) (p : string) :
  existsSync fs0 p = true <-> is_Some (fs_lookup fs0 (fs_key p)).
Proof.
  unfold existsSync. destruct (fs_lookup fs0 (fs_key p)) as [n|]; split; intros H.
  - eauto.
  - reflexivity.
  - discriminate.
  - destruct H as [n H]. discriminate.
Qed.



(** What a successful [writeFileSync] did, and what it found. *)
Lemma writeFileSync_ok (fs0 fs1 : filesystem) (p content : string) :
  writeFileSync fs0 p content = Ok fs1 ->
  fs1 = <[fs_key p := File content]> fs0 /\
  always_dir (fs_key p) = false /\
  fs_lookup fs0 (fs_key p) <> Some Dir /\
  fs_lookup fs0 (removelast (fs_key p)) = Some Dir.
Proof.
  unfold writeFileSync. intros H.
  assert (Hnd : fs_lookup fs0 (fs_key p) <> Some Dir).
  { intros E. rewrite E in H. discriminate. }
  assert (Hparent : fs_lookup fs0 (removelast (fs_key p)) = Some Dir /\
                    fs1 = <[fs_key p := File content]> fs0).
  { destruct (fs_lookup fs0 (fs_key p)) as [[c|]|];
      destruct (fs_lookup fs0 (removelast (fs_key p))) as [[c'|]|];
      try discriminate; try congruence; now injection H as <-. }
  destruct Hparent as [Hparent ->]. repeat split; try assumption.
  unfold fs_lookup in Hnd. destruct (always_dir (fs_key p)); congruence.
Qed.







(** ** The workflow driver *)

(** Case analysis over every branch of a phase of the loop body. *)
Tactic Notation "by_cases_on_branches" tactic3(tac) :=
  repeat (case_match; try tac).

Lemma and_then_preserves (P : state -> Prop) (r : state * flow)
  (f : state -> state * flow) :
  P (fst r) -> (forall st, P st -> P (fst (f st))) -> P (fst (r >>> f)).
Proof. destruct r as [st []]; simpl; auto. Qed.

Lemma tool_result_locals (v : json) (st : state) :
  locals (fst (tool_result v st)) = locals st.
Proof. reflexivity. Qed.

(** Dispatch, the gate and the forced regeneration leave the local variables of the
    run alone. *)
Lemma dispatch_locals (dataObj : json) (st : state) :
  locals (fst (dispatch dataObj st)) = locals st.
Proof.
  unfold dispatch.
  by_cases_on_branches reflexivity.
Qed.

Lemma gate_locals (dataObj : json) (st : state) :
  locals (fst (gate dataObj st)) = locals st.
Proof.
  unfold gate, presentStructure. by_cases_on_branches reflexivity.
Qed.

Lemma override_update_locals (userMsg : string) (dataObj : json) (st : state) :
  locals (fst (override_update userMsg dataObj st)) = locals st.
Proof.
  unfold override_update. by_cases_on_branches reflexivity.
Qed.

Lemma step_is_unique (dataObj : json) (a b : string) :
  step_is dataObj a = true -> a <> b -> step_is dataObj b = false.
Proof.
  unfold step_is. destruct (get_prop dataObj "step") as [[| | |s| |]|]; try discriminate.
  intros Ha Hab. apply String.eqb_eq in Ha. subst s. now apply String.eqb_neq.
Qed.

Lemma step_is_not_null (name : string) : step_is JNull name = false.
Proof. reflexivity. Qed.

(** A step that is one of the names is a string, and can be printed. *)
Lemma step_is_printable (dataObj : json) (name : string) :
  step_is dataObj name = true -> printable (get_prop dataObj "step") = true.
Proof.
  unfold step_is. now destruct (get_prop dataObj "step") as [[| | |s| |]|].
Qed.

(** Past the two interpreting blocks, a step other than [final_result]
    leaves the local variables of the run as those blocks set them. *)
Lemma processReply_locals (userMsg r : string) (dataObj : json) (st : state) :
  JSON_parse (cleanReply r) = Some dataObj ->
  printable (get_prop dataObj "step") = true ->
  printable (get_prop dataObj "content") = true ->
  step_is dataObj "final_result" = false ->
  locals (fst (processReply userMsg r st))
  = locals (fst (interpret userMsg dataObj (push "model" (JSON_stringify dataObj) st))).
Proof.
  intros Hparse Hstep Hcontent Hfinal. unfold processReply.
  rewrite Hparse, Hstep, Hcontent. simpl negb. cbv iota.
  set (L := locals (fst (interpret userMsg dataObj
                           (push "model" (JSON_stringify dataObj) st)))).
  assert (Hchain :
    locals (fst (interpret userMsg dataObj (push "model" (JSON_stringify dataObj) st)
                 >>> dispatch dataObj >>> gate dataObj
                 >>> override_update userMsg dataObj >>> final_result dataObj
                 >>> (fun st => (push "user" "Proceed to next step" st, Next)))) = L).
  { apply (and_then_preserves (fun s => locals s = L));
      [| intros s Hs; rewrite <- Hs; reflexivity].
    apply (and_then_preserves (fun s => locals s = L));
      [| intros s Hs; rewrite <- Hs; unfold final_result; now rewrite Hfinal].
    apply (and_then_preserves (fun s => locals s = L));
      [| intros s Hs; rewrite <- Hs; apply override_update_locals].
    apply (and_then_preserves (fun s => locals s = L));
      [| intros s Hs; rewrite <- Hs; apply gate_locals].
    apply (and_then_preserves (fun s => locals s = L));
      [| intros s Hs; rewrite <- Hs; apply dispatch_locals].
    reflexivity. }
  destruct dataObj; try exact Hchain.
  discriminate Hfinal || (now rewrite step_is_not_null in Hfinal) || reflexivity.
Qed.

(** C6: when the lower-cased request contains [fix], an [initialization]
    reply (with a content that can be printed, as every string can) makes
    the run an update request; and in a run that is an update request, an
    [analyze] reply with the content of scenario B sets [updateFile] to
    [todo-app/style.css]. *)
Theorem C6_fix_request_resolves_update_file
  (userMsg r1 r2 : string) (d1 d2 : json) (st : state) :
  includes "fix" (toLowerCase userMsg) = true ->
  JSON_parse (cleanReply r1) = Some d1 ->
  step_is d1 "initialization" = true ->
  printable (get_prop d1 "content") = true ->
  JSON_parse (cleanReply r2) = Some d2 ->
  step_is d2 "analyze" = true ->
  get_prop d2 "content" = Some (JStr scenario_b_content) ->
  isUpdateRequest (fst (processReply userMsg r1 st)) = true /\
  forall st2, isUpdateRequest st2 = true ->
    updateFile (fst (processReply userMsg r2 st2)) = Some "todo-app/style.css".
Proof.
  intros Hfix Hp1 Hs1 Hc1 Hp2 Hs2 Hcontent. split.
  - pose proof (processReply_locals userMsg r1 d1 st Hp1
                  (step_is_printable _ _ Hs1) Hc1
                  (step_is_unique _ _ "final_result" Hs1 ltac:(discriminate))) as H.
    apply (f_equal (fun l => fst (fst (fst l)))) in H. simpl in H. rewrite H.
    unfold interpret. rewrite Hs1.
    rewrite (step_is_unique _ _ "analyze" Hs1) by discriminate.
    unfold classify. rewrite Hfix, orb_true_r. reflexivity.
  - intros st2 Hupd.
    pose proof (processReply_locals userMsg r2 d2 st2 Hp2
                  (step_is_printable _ _ Hs2)
                  ltac:(now rewrite Hcontent)
                  (step_is_unique _ _ "final_result" Hs2 ltac:(discriminate))) as H.
    apply (f_equal snd) in H. simpl in H. rewrite H.
    unfold interpret.
    rewrite (step_is_unique _ _ "initialization" Hs2) by discriminate.
    rewrite Hs2, Hcontent. unfold analyze.
    replace (js_match re_project_type scenario_b_content) with (@None (list (nat * string)))
      by (vm_compute; reflexivity).
    replace (first_match (js_match re_name_it scenario_b_content)
               (js_match re_found_project scenario_b_content))
      with (Some [(1, "todo-app")]) by (vm_compute; reflexivity).
    replace (js_match re_update_file scenario_b_content)
      with (Some [(3, "css"); (2, "style"); (1, "todo-app")])
      by (vm_compute; reflexivity).
    simpl. rewrite Hupd. reflexivity.
Qed.

Lemma C6_fix_request_resolves_update_file_witness :
  let st1 := fst (processReply "please fix the css" reply_initialization
                    (initial_state ∅ [] [])) in
  isUpdateRequest st1 = true /\
  updateFile (fst (processReply "please fix the css" reply_analyze_update st1))
  = Some "todo-app/style.css".
Proof.
  destruct (C6_fix_request_resolves_update_file
              "please fix the css" reply_initialization reply_analyze_update
              (JObj [("step", JStr "initialization");
                     ("content", JStr "I'll handle the request in 'chaicode'.");
                     ("function", JNull); ("args", JNull)])
              (JObj [("step", JStr "analyze");
                     ("content", JStr scenario_b_content);
                     ("function", JNull); ("args", JNull)])
              (initial_state ∅ [] []))
    as [H1 H2]; try (vm_compute; reflexivity).
  split; [exact H1 | exact (H2 _ H1)].
Defined.

Lemma and_then_skip (r : state * flow) (f : state -> state * flow) :
  (forall st, f st = (st, Next)) -> r >>> f = r.
Proof. intros Hf. destruct r as [st []]; simpl; now rewrite ?Hf. Qed.

Lemma gate_other_step (dataObj : json) (st : state) :
  step_is dataObj "generate_structure" = false -> gate dataObj st = (st, Next).
Proof. unfold gate. now intros ->. Qed.

Lemma override_update_other_step (userMsg : string) (dataObj : json) (st : state) :
  step_is dataObj "generate_files" = false ->
  override_update userMsg dataObj st = (st, Next).
Proof. unfold override_update. intros ->. now destruct (updateFile st). Qed.

Lemma final_result_other_step (dataObj : json) (st : state) :
  step_is dataObj "final_result" = false -> final_result dataObj st = (st, Next).
Proof. unfold final_result. now intros ->. Qed.

Lemma dispatch_no_function (dataObj : json) (st : state) :
  truthy (get_prop dataObj "function") = false -> dispatch dataObj st = (st, Next).
Proof.
  unfold dispatch. intros H. destruct (get_prop dataObj "function"); [|reflexivity].
  now rewrite H.
Qed.

(** A reply that parses is not the empty string. *)
Lemma parsed_reply_not_empty (r : string) (dataObj : json) :
  JSON_parse (cleanReply r) = Some dataObj -> is_empty r = false.
Proof. destruct r; [vm_compute; discriminate | reflexivity]. Qed.

(** C2, the claim as stated fails: a reply whose step is [deploy] parses,
    the loop goes on to the next reply, and the run ends normally. *)
Lemma C2_counterexample_unknown_step_accepted :
  JSON_parse (cleanReply reply_unknown_step)
  = Some (JObj [("step", JStr "deploy"); ("content", JStr "Deploying.");
                ("function", JNull); ("args", JNull)]) /\
  existsb (String.eqb "deploy") the_five_steps = false /\
  snd (processReply "Create a to-do list in HTML" reply_unknown_step
         (initial_state ∅ [] [])) = Next /\
  snd (runAgent "Create a to-do list in HTML"
         [Some reply_unknown_step; Some reply_final_result]
         (initial_state ∅ [] [])) = Done.
Proof. vm_compute. repeat split; reflexivity. Qed.

(** C2, as amended: the step field is not validated.  A reply that is
    valid JSON, not [null], with a step outside the five names, a step and
    a content that can be printed (as every string can) and no function
    declared is logged, runs none of the step-specific blocks, and the loop
    goes on to the next reply; what aborts the run is a reply that is not
    valid JSON. *)
Theorem C2_reply_with_unknown_step_is_accepted
  (userMsg r : string) (dataObj : json) (st : state) :
  JSON_parse (cleanReply r) = Some dataObj ->
  dataObj <> JNull ->
  Forall (fun name => step_is dataObj name = false) the_five_steps ->
  printable (get_prop dataObj "step") = true ->
  printable (get_prop dataObj "content") = true ->
  truthy (get_prop dataObj "function") = false ->
  let st' := push "user" "Proceed to next step"
               (push "model" (JSON_stringify dataObj) st) in
  processReply userMsg r st = (st', Next) /\
  (forall rest, runLoop userMsg (Some r :: rest) st = runLoop userMsg rest st') /\
  (forall bad rest,
      is_empty bad = false -> JSON_parse (cleanReply bad) = None ->
      runLoop userMsg (Some bad :: rest) st = (st, ProcessingError)).
Proof.
  intros Hparse Hnull Hsteps Hpstep Hpcontent Hfn st'.
  assert (Hreply : processReply userMsg r st = (st', Next)).
  { unfold the_five_steps in Hsteps.
    repeat match goal with
           | H : Forall _ (_ :: _) |- _ => apply Forall_cons in H as [? H]
           end.
    assert (Hi : forall s, interpret userMsg dataObj s = (s, Next)).
    { intros s. unfold interpret.
      now repeat match goal with H : step_is _ _ = false |- _ => rewrite H end. }
    unfold processReply. rewrite Hparse, Hpstep, Hpcontent.
    simpl negb. cbv iota.
    destruct dataObj; try congruence;
      (rewrite Hi; cbn [and_then];
       rewrite dispatch_no_function by assumption; cbn [and_then];
       rewrite gate_other_step by assumption; cbn [and_then];
       rewrite override_update_other_step by assumption; cbn [and_then];
       rewrite final_result_other_step by assumption; reflexivity). }
  split; [exact Hreply |]. split.
  - intros rest. simpl. rewrite (parsed_reply_not_empty _ _ Hparse).
    now rewrite Hreply.
  - intros bad rest Hne Hbad. simpl. rewrite Hne.
    unfold processReply. now rewrite Hbad.
Qed.

Lemma C2_reply_with_unknown_step_is_accepted_witness :
  let st := initial_state ∅ [] [] in
  let st' := push "user" "Proceed to next step"
               (push "model"
                  (JSON_stringify
                     (JObj [("step", JStr "deploy"); ("content", JStr "Deploying.");
                            ("function", JNull); ("args", JNull)])) st) in
  processReply "hello" reply_unknown_step st = (st', Next) /\
  (forall rest, runLoop "hello" (Some reply_unknown_step :: rest) st
                = runLoop "hello" rest st') /\
  (forall bad rest,
      is_empty bad = false -> JSON_parse (cleanReply bad) = None ->
      runLoop "hello" (Some bad :: rest) st = (st, ProcessingError)).
Proof.
  apply (C2_reply_with_unknown_step_is_accepted "hello" reply_unknown_step).
  - vm_compute. reflexivity.
  - discriminate.
  - repeat constructor.
  - reflexivity.
  - reflexivity.
  - reflexivity.
Defined.

(** ** The approval gate *)

Lemma rev_app_spec (s1 s2 : string) : String.rev_app s1 s2 = String.rev s1 +:+ s2.
Proof.
  unfold String.rev. revert s2.
  induction s1 as [|c s1 IH]; intros s2; simpl; [reflexivity |].
  rewrite (IH (String c s2)), (IH (String c EmptyString)).
  now rewrite append_assoc.
Qed.

Lemma rev_cons (c : ascii) (s : string) :
  String.rev (String c s) = String.rev s +:+ String c EmptyString.
Proof. unfold String.rev at 1. simpl. apply rev_app_spec. Qed.

Lemma rev_append (a b : string) :
  String.rev (a +:+ b) = String.rev b +:+ String.rev a.
Proof.
  induction a as [|c a IH].
  - now rewrite append_empty_l, append_empty_r.
  - now rewrite append_cons, !rev_cons, IH, append_assoc.
Qed.

Lemma rev_involutive (s : string) : String.rev (String.rev s) = s.
Proof.
  induction s as [|c s IH]; [reflexivity |].
  now rewrite rev_cons, rev_append, IH.
Qed.

Lemma all_ws_rev (s : string) : all_ws s = true -> all_ws (String.rev s) = true.
Proof.
  assert (Happ : forall a b, all_ws a = true -> all_ws b = true ->
                             all_ws (a +:+ b) = true).
  { induction a as [|c a IH]; intros b Ha Hb; [assumption |].
    rewrite append_cons. simpl in *. apply andb_true_iff in Ha as [-> Ha].
    now apply IH. }
  induction s as [|c s IH]; [reflexivity |]. simpl.
  intros H. apply andb_true_iff in H as [Hc Hs].
  rewrite rev_cons. apply Happ; [now apply IH | simpl; now rewrite Hc].
Qed.

(** [trim_start] removes a prefix of white space, and all of it. *)
Lemma trim_start_prefix (s : string) :
  exists pre, s = pre +:+ trim_start s /\ all_ws pre = true.
Proof.
  induction s as [|c s [pre [IH Hpre]]]; [now exists EmptyString |].
  simpl. destruct (is_ws c) eqn:Hc.
  - exists (String c pre). rewrite append_cons, <- IH. simpl. now rewrite Hc.
  - now exists EmptyString.
Qed.

Lemma trim_start_skips (pre s : string) :
  all_ws pre = true -> trim_start (pre +:+ s) = trim_start s.
Proof.
  induction pre as [|c pre IH]; [reflexivity |].
  intros H. simpl in H. apply andb_true_iff in H as [Hc Hpre].
  rewrite append_cons. simpl trim_start. rewrite Hc. now apply IH.
Qed.

(** What [trim] keeps, between the white space it removes. *)
Lemma trim_decomposes (s : string) :
  exists pre post,
    s = pre +:+ trim s +:+ post /\ all_ws pre = true /\ all_ws post = true.
Proof.
  unfold trim.
  destruct (trim_start_prefix s) as [pre [Hs Hpre]].
  destruct (trim_start_prefix (String.rev (trim_start s))) as [pre2 [Hr Hpre2]].
  exists pre, (String.rev pre2). repeat split; [| assumption | now apply all_ws_rev].
  rewrite <- rev_append, <- Hr, rev_involutive. exact Hs.
Qed.

Lemma lower_char_not_ws (c l : ascii) :
  lower_char c = l -> is_ws l = false -> is_ws c = false.
Proof.
  intros <-. destruct c as [[] [] [] [] [] [] [] []]; vm_compute; congruence.
Qed.

Lemma trim_of_padded (pre core post : string) (c1 c2 c3 : ascii) :
  core = String c1 (String c2 (String c3 EmptyString)) ->
  is_ws c1 = false -> is_ws c3 = false ->
  all_ws pre = true -> all_ws post = true ->
  trim (pre +:+ core +:+ post) = core.
Proof.
  intros -> H1 H3 Hpre Hpost. unfold trim.
  rewrite trim_start_skips by assumption.
  rewrite !append_cons, append_empty_l. simpl trim_start. rewrite H1.
  rewrite !rev_cons, !append_assoc.
  rewrite trim_start_skips by now apply all_ws_rev.
  rewrite !append_cons, !append_empty_l. simpl trim_start.
  rewrite H3. reflexivity.
Qed.

(** The gate approves exactly the answers that read [yes], in any mix of
    cases, between white space. *)
Lemma approves_iff (answer : string) :
  approves answer = true <->
  exists pre core post,
    answer = pre +:+ core +:+ post /\
    all_ws pre = true /\ all_ws post = true /\ toLowerCase core = "yes".
Proof.
  unfold approves. rewrite String.eqb_eq. split.
  - intros H. destruct (trim_decomposes answer) as (pre & post & Hs & Hpre & Hpost).
    exists pre, (trim answer), post. auto.
  - intros (pre & core & post & -> & Hpre & Hpost & Hcore).
    destruct core as [|c1 [|c2 [|c3 [|c4 core]]]]; try discriminate.
    injection Hcore as H1 H2 H3.
    rewrite (trim_of_padded pre _ post c1 c2 c3 eq_refl); try assumption.
    + simpl. now rewrite H1, H2, H3.
    + now apply (lower_char_not_ws _ _ H1).
    + now apply (lower_char_not_ws _ _ H3).
Qed.

(** *** Where a rejection can come from *)

Lemma and_then_rejected (r : state * flow) (f : state -> state * flow)
  (st' : state) :
  r >>> f = (st', Rejected) ->
  r = (st', Rejected) \/ exists s, r = (s, Next) /\ f s = (st', Rejected).
Proof. destruct r as [s []]; simpl; intros H; eauto. Qed.

Lemma dispatch_never_rejects (dataObj : json) (st : state) :
  snd (dispatch dataObj st) <> Rejected.
Proof.
  unfold dispatch, tool_result. by_cases_on_branches discriminate.
Qed.

Lemma interpret_never_rejects (userMsg : string) (dataObj : json) (st : state) :
  snd (interpret userMsg dataObj st) <> Rejected.
Proof. unfold interpret. by_cases_on_branches discriminate. Qed.

Lemma override_update_never_rejects (userMsg : string) (dataObj : json) (st : state) :
  snd (override_update userMsg dataObj st) <> Rejected.
Proof.
  unfold override_update, tool_result. by_cases_on_branches discriminate.
Qed.

Lemma final_result_never_rejects (dataObj : json) (st : state) :
  snd (final_result dataObj st) <> Rejected.
Proof. unfold final_result. case_match; discriminate. Qed.

(** The gate, when it is reached with a non-empty list to show and a line
    typed by the user. *)
Lemma gate_reached (dataObj : json) (st : state) (x : json) (more : list json)
  (answer : string) (later : list string) :
  step_is dataObj "generate_structure" = true ->
  proposedStructure st = JArr (x :: more) ->
  existsb to_string_throws (x :: more) = false ->
  isUpdateRequest st = false ->
  isExecutionRequest st = false ->
  answers st = answer :: later ->
  gate dataObj st
  = (record_call (AskApproval (JArr (x :: more)) answer) (set_answers later st),
     if approves answer then Next else Rejected).
Proof.
  intros Hstep Hps Hprint Hupd Hexec Hans. unfold gate, presentStructure.
  rewrite Hstep, Hps, Hprint, Hupd, Hexec, Hans. simpl.
  now destruct (approves answer).
Qed.

(** A rejected step is one in which the gate asked and the answer was not
    an approval; the prompt is the last thing the step did, and the
    structure that was shown is still in [proposedStructure]. *)
Lemma processReply_rejected (userMsg r : string) (st st' : state) :
  processReply userMsg r st = (st', Rejected) ->
  is_empty r = false /\
  (exists answer,
      approves answer = false /\
      last (calls st') = Some (AskApproval (proposedStructure st') answer)) /\
  has_positive_length (proposedStructure st') = true.
Proof.
  unfold processReply.
  destruct (JSON_parse (cleanReply r)) as [dataObj|] eqn:Hparse; [|discriminate].
  intros H. split; [eapply parsed_reply_not_empty; eassumption |].
  assert (Hchain :
    interpret userMsg dataObj (push "model" (JSON_stringify dataObj) st)
    >>> dispatch dataObj >>> gate dataObj
    >>> override_update userMsg dataObj >>> final_result dataObj
    >>> (fun st => (push "user" "Proceed to next step" st, Next)) = (st', Rejected)).
  { destruct (negb (printable (get_prop dataObj "step")
                    && printable (get_prop dataObj "content")));
      destruct dataObj; try exact H; discriminate. }
  clear H.
  apply and_then_rejected in Hchain as [Hchain | (s & _ & Hs)]; [|discriminate].
  apply and_then_rejected in Hchain as [Hchain | (s & _ & Hs)];
    [| exfalso; eapply final_result_never_rejects; now rewrite Hs].
  apply and_then_rejected in Hchain as [Hchain | (s & _ & Hs)];
    [| exfalso; eapply override_update_never_rejects; now rewrite Hs].
  apply and_then_rejected in Hchain as [Hchain | (s & _ & Hs)].
  - apply and_then_rejected in Hchain as [Hchain | (s & _ & Hs)].
    + exfalso. eapply interpret_never_rejects. now rewrite Hchain.
    + exfalso. eapply dispatch_never_rejects. now rewrite Hs.
  - unfold gate in Hs.
    destruct (step_is dataObj "generate_structure"); [|discriminate].
    destruct (length_test_throws (proposedStructure s)); [discriminate |].
    destruct (has_positive_length (proposedStructure s)
              && negb (isUpdateRequest s) && negb (isExecutionRequest s)) eqn:Hcond;
      [|discriminate].
    apply andb_true_iff in Hcond as [Hcond _].
    apply andb_true_iff in Hcond as [Hlen _].
    unfold presentStructure in Hs.
    destruct (proposedStructure s) as [| | | |items|] eqn:Hps; try discriminate.
    destruct (existsb to_string_throws items); [discriminate |].
    destruct (answers s) as [|answer later]; [discriminate |].
    destruct (approves answer) eqn:Happ; [discriminate |].
    injection Hs as <-. split.
    + exists answer. split; [assumption |].
      unfold record_call. simpl. rewrite last_snoc. congruence.
    + simpl. now rewrite Hps.
Qed.

(** So the module-level context is not empty when the next request's run
    begins. *)
Lemma context_after_rejection (userMsg r nextMsg : string)
  (rest : list (option string)) (st st' : state) :
  processReply userMsg r st = (st', Rejected) ->
  fst (runLoop userMsg (Some r :: rest) st) = st' /\
  proposedStructure st' <> JArr [] /\
  proposedStructure (fst (runAgent nextMsg [] st')) = proposedStructure st'.
Proof.
  intros Hrej. destruct (processReply_rejected _ _ _ _ Hrej) as (Hne & _ & Hlen).
  split; [simpl; now rewrite Hne, Hrej |].
  split; [|reflexivity].
  intros E. rewrite E in Hlen. discriminate.
Qed.

(** C7, the claim as stated fails twice.  The answer is trimmed before it
    is compared, so an answer that is not the affirmative token itself,
    even case-insensitively, is approved.  And a run that ends in a
    rejection may have dispatched [create_dynamic_file] before the gate
    was reached: here the [initialization] reply declares it. *)
Lemma C7_counterexample_padded_answer_approved :
  approves " Yes " = true /\ toLowerCase " Yes " <> "yes" /\
  snd early_write_run = StructureRejected /\
  calls (fst early_write_run)
  = [CallCreateDynamicFile (file_args "todo-app/index.html" "<html></html>");
     CallReadDirectory (Some (JStr "chaicode"));
     CallGenerateProjectStructure (Some (JStr "HTML web app"))
       (Some (JStr "creates a to-do list"));
     AskApproval
       (JArr [JStr "chaicode/todo-app/index.html"; JStr "chaicode/todo-app/style.css"])
       "no"].
Proof. vm_compute. repeat split; try reflexivity. discriminate. Qed.

(** C7, as amended: the gate approves exactly when the answer, between
    white space that is trimmed away, reads [yes] in any mix of cases.
    When the gate is
    reached the answer decides between going on and rejecting; and a step
    that ends in a rejection ends the run there, whatever replies would
    follow: the rejected prompt is the last call the run records, so no
    [create_dynamic_file] call comes after it. *)
Theorem C7_rejection_ends_the_run
  (userMsg r : string) (rest : list (option string)) (st st' : state) :
  processReply userMsg r st = (st', Rejected) ->
  (forall answer,
      approves answer = true <->
      exists pre core post,
        answer = pre +:+ core +:+ post /\
        all_ws pre = true /\ all_ws post = true /\ toLowerCase core = "yes") /\
  runLoop userMsg (Some r :: rest) st = (st', StructureRejected) /\
  (exists answer,
      approves answer = false /\
      last (calls st') = Some (AskApproval (proposedStructure st') answer)) /\
  (forall dataObj s x more answer later,
      step_is dataObj "generate_structure" = true ->
      proposedStructure s = JArr (x :: more) ->
      existsb to_string_throws (x :: more) = false ->
      isUpdateRequest s = false ->
      isExecutionRequest s = false ->
      answers s = answer :: later ->
      snd (gate dataObj s) = if approves answer then Next else Rejected).
Proof.
  intros Hrej. destruct (processReply_rejected _ _ _ _ Hrej) as (Hne & Hlast & _).
  split; [exact approves_iff |].
  split; [simpl; now rewrite Hne, Hrej |].
  split; [exact Hlast |].
  intros dataObj s x more answer later H1 H2 H3 H4 H5 H6.
  now rewrite (gate_reached _ _ _ _ _ _ H1 H2 H3 H4 H5 H6).
Qed.

Lemma C7_rejection_ends_the_run_witness :
  let st := state_at_gate "no" in
  let st' := fst (processReply new_project_request reply_generate_structure st) in
  (forall answer,
      approves answer = true <->
      exists pre core post,
        answer = pre +:+ core +:+ post /\
        all_ws pre = true /\ all_ws post = true /\ toLowerCase core = "yes") /\
  runLoop new_project_request
    [Some reply_generate_structure; Some reply_generate_files; Some reply_final_result] st
  = (st', StructureRejected) /\
  (exists answer,
      approves answer = false /\
      last (calls st') = Some (AskApproval (proposedStructure st') answer)) /\
  (forall dataObj s x more answer later,
      step_is dataObj "generate_structure" = true ->
      proposedStructure s = JArr (x :: more) ->
      existsb to_string_throws (x :: more) = false ->
      isUpdateRequest s = false ->
      isExecutionRequest s = false ->
      answers s = answer :: later ->
      snd (gate dataObj s) = if approves answer then Next else Rejected).
Proof.
  apply (C7_rejection_ends_the_run new_project_request reply_generate_structure).
  vm_compute. reflexivity.
Defined.

(** ** The structure generator *)





(** ** Scenarios on the whole loop *)

(** A [generate_files] step of an update run goes through the ordinary
    dispatch of the function it declares and then through the forced
    regeneration: the second does not replace the first. *)
Lemma generate_files_step_dispatches_then_overrides
  (userMsg r : string) (dataObj : json) (st : state) :
  JSON_parse (cleanReply r) = Some dataObj ->
  step_is dataObj "generate_files" = true ->
  printable (get_prop dataObj "content") = true ->
  processReply userMsg r st
  = dispatch dataObj (push "model" (JSON_stringify dataObj) st)
    >>> override_update userMsg dataObj
    >>> (fun st => (push "user" "Proceed to next step" st, Next)).
Proof.
  intros Hparse Hstep Hcontent. unfold processReply.
  rewrite Hparse, (step_is_printable _ _ Hstep), Hcontent. simpl negb. cbv iota.
  assert (Hi : forall s, interpret userMsg dataObj s = (s, Next)).
  { intros s. unfold interpret.
    now rewrite !(step_is_unique _ _ _ Hstep) by discriminate. }
  destruct dataObj; try (now rewrite step_is_not_null in Hstep);
    (rewrite Hi; cbn [and_then];
     rewrite (and_then_skip _ (gate _))
       by (intros ?; apply gate_other_step;
           now apply (step_is_unique _ _ _ Hstep));
     rewrite (and_then_skip _ (final_result _))
       by (intros ?; apply final_result_other_step;
           now apply (step_is_unique _ _ _ Hstep));
     reflexivity).
Qed.

(** C3, evaluated on a run the claim fails at.  In the update run
    [update_run] the [generate_files] reply declares [create_dynamic_file]
    for [todo-app/index.html]: that call is made and the file written, and
    only then comes the forced regeneration of [todo-app/style.css], whose
    write receives a one-element array instead of a record and reports an
    error, so that [style.css] is not there at the end. *)
Theorem C3_declared_function_dispatched_before_override :
  snd update_run = Done /\
  calls (fst update_run)
  = [CallCreateDynamicFile (file_args "todo-app/index.html" "<html></html>");
     CallGenerateFileContent (Some (JStr "todo-app/style.css"))
       (Some (JStr "HTML web app")) (Some (JStr update_request))
       true (Some update_request);
     CallCreateDynamicFile
       (Some (JArr [JObj [("fileName", JStr "todo-app/style.css");
                          ("content", JStr "body { color: red }")]]))] /\
  readFileSync (fs (fst update_run)) "chaicode/todo-app/index.html"
  = Ok "<html></html>" /\
  existsSync (fs (fst update_run)) "chaicode/todo-app/style.css" = false /\
  In (Turn "user"
        (JSON_stringify
           (JStr (outcome_text (Failed ERR_INVALID_ARG_TYPE)))))
     (contents (fst update_run)).
Proof. vm_compute. repeat split; try reflexivity. tauto. Qed.

(** C4, evaluated on two runs the claim fails at.  The first run is turned
    down at the gate; [proposedStructure] and [projectName] keep the values
    it gave them.  The next run asks for something else, its
    [generate_structure] reply declares no function, and the gate still
    opens, on the structure of the run before. *)
Theorem C4_context_survives_rejected_run :
  snd rejected_run = StructureRejected /\
  proposedStructure (fst rejected_run)
  = JArr [JStr "chaicode/todo-app/index.html"; JStr "chaicode/todo-app/style.css"] /\
  projectName (fst rejected_run) = Some "todo-app" /\
  last (calls (fst run_after_rejection))
  = Some (AskApproval
            (JArr [JStr "chaicode/todo-app/index.html";
                   JStr "chaicode/todo-app/style.css"]) "yes") /\
  projectName (fst run_after_rejection) = Some "todo-app".
Proof. vm_compute. repeat split; reflexivity. Qed.

(** A function name that [available_tools] does not know at all is
    skipped. *)
Lemma dispatch_unknown_name (dataObj : json) (name : string) (st : state) :
  get_prop dataObj "function" = Some (JStr name) ->
  available_tools name = None ->
  dispatch dataObj st = (st, Next).
Proof.
  intros Hfn Hnone. unfold dispatch. rewrite Hfn.
  simpl js_to_string. simpl to_string_throws. cbv iota.
  rewrite Hnone. now destruct (truthy (Some (JStr name))).
Qed.

(** A function name that [available_tools] finds as an inherited property
    makes the step throw. *)
Lemma dispatch_inherited_name (dataObj : json) (name : string) (st : state) :
  get_prop dataObj "function" = Some (JStr name) ->
  available_tools name = Some Inherited ->
  dispatch dataObj st = (st, Thrown).
Proof.
  intros Hfn Hinh. unfold dispatch. rewrite Hfn.
  simpl js_to_string. simpl to_string_throws. cbv iota.
  rewrite Hinh.
  assert (Hne : is_empty name = false).
  { destruct name; [discriminate Hinh | reflexivity]. }
  simpl truthy. rewrite Hne. simpl negb. cbv iota.
  assert (Hnot : forall t, available_tools t = Some Inherited ->
                           forall n, available_tools n <> Some Inherited ->
                                     String.eqb t n = false).
  { intros t Ht n Hn. apply String.eqb_neq. intros ->. auto. }
  rewrite !(Hnot name Hinh) by (vm_compute; discriminate).
  reflexivity.
Qed.

(** C10, evaluated on a run the claim fails at.  [constructor] is none of
    the four registry keys, yet the lookup finds the property every object
    inherits; it has no [fn], the call throws, and the run aborts with the
    replies that follow left unread.  No tool was called and no tool result
    logged. *)
Theorem C10_inherited_name_aborts_the_run :
  available_tools "constructor" = Some Inherited /\
  snd inherited_name_run = ProcessingError /\
  calls (fst inherited_name_run) = [] /\
  contents (fst inherited_name_run)
  = [Turn "user" "hello";
     Turn "model"
       (JSON_stringify
          (JObj [("step", JStr "analyze"); ("content", JStr "Looking around.");
                 ("function", JStr "constructor"); ("args", JNull)]))].
Proof. vm_compute. repeat split; reflexivity. Qed.

(** * Further properties of the code *)

(** ** The root directory *)

Lemma fs_key_root : fs_key ROOT_DIR = ["chaicode"].
Proof. reflexivity. Qed.

Lemma ensureRootDir_result (fs0 : filesystem) :
  ensureRootDir fs0
  = Ok (if existsSync fs0 ROOT_DIR then fs0 else <[["chaicode"] := Dir]> fs0).
Proof.
  unfold ensureRootDir. destruct (existsSync fs0 ROOT_DIR) eqn:E; [reflexivity |].
  unfold mkdirSync. rewrite fs_key_root. simpl.
  unfold existsSync in E. rewrite fs_key_root in E.
  now destruct (fs_lookup fs0 ["chaicode"]).
Qed.

Lemma ensureRootDir_exists (fs0 fs1 : filesystem) :
  ensureRootDir fs0 = Ok fs1 -> existsSync fs1 ROOT_DIR = true.
Proof.
  rewrite ensureRootDir_result. intros [= <-].
  destruct (existsSync fs0 ROOT_DIR) eqn:E; [exact E |].
  unfold existsSync. rewrite fs_key_root.
  now rewrite fs_lookup_insert_eq.
Qed.

Lemma ensureRootDir_lookup (fs0 fs1 : filesystem) (key : list string) (n : node) :
  ensureRootDir fs0 = Ok fs1 ->
  fs_lookup fs0 key = Some n -> fs_lookup fs1 key = Some n.
Proof.
  rewrite ensureRootDir_result. intros [= <-] Hn.
  destruct (existsSync fs0 ROOT_DIR) eqn:E; [exact Hn |].
  rewrite fs_lookup_insert_ne; [exact Hn |].
  intros <-. unfold existsSync in E. rewrite fs_key_root, Hn in E. discriminate.
Qed.


(** ** What [createDynamicFile] does to the file system *)

Lemma dirs_added_refl (fs0 : filesystem) : dirs_added fs0 fs0.
Proof. intros key. split; auto. Qed.

Lemma dirs_added_trans (fs0 fs1 fs2 : filesystem) :
  dirs_added fs0 fs1 -> dirs_added fs1 fs2 -> dirs_added fs0 fs2.
Proof.
  intros H01 H12 key. destruct (H01 key) as [K1 A1], (H12 key) as [K2 A2].
  split; [auto |].
  destruct A2 as [-> | ->]; auto.
Qed.

Lemma dirs_added_file (fs0 fs1 : filesystem) (key : list string) (c : string) :
  dirs_added fs0 fs1 ->
  fs_lookup fs1 key = Some (File c) <-> fs_lookup fs0 key = Some (File c).
Proof.
  intros H. destruct (H key) as [K A]. split; [|apply K].
  destruct A as [-> | ->]; [trivial | discriminate].
Qed.


Lemma mkdir_go_dirs_added (todo : list string) :
  forall (fs0 fs1 : filesystem) (done : list string),
    mkdir_go fs0 done todo = Ok fs1 -> dirs_added fs0 fs1.
Proof.
  induction todo as [|seg todo IH]; intros fs0 fs1 done; simpl.
  - intros [= ->]. apply dirs_added_refl.
  - destruct (fs_lookup fs0 (done ++ [seg])) as [[c|]|] eqn:Hhere.
    + discriminate.
    + apply IH.
    + intros Hgo. apply IH in Hgo.
      eapply dirs_added_trans; [|exact Hgo].
      assert (Hnd : always_dir (done ++ [seg]) = false).
      { unfold fs_lookup in Hhere. now destruct (always_dir (done ++ [seg])). }
      intros key. destruct (decide (done ++ [seg] = key)) as [<-|Hne].
      * rewrite Hhere, fs_lookup_insert_eq by assumption.
        split; [discriminate | now right].
      * rewrite fs_lookup_insert_ne by assumption. split; auto.
Qed.

Lemma ensureRootDir_dirs_added (fs0 fs1 : filesystem) :
  ensureRootDir fs0 = Ok fs1 -> dirs_added fs0 fs1.
Proof.
  unfold ensureRootDir. destruct (existsSync fs0 ROOT_DIR).
  - intros [= ->]. apply dirs_added_refl.
  - apply mkdir_go_dirs_added.
Qed.

(** The file system and the result of the [try] block, case by case.
    [fs2] is the file system once the directories are in place. *)
Lemma createDynamicFile_try_cases (fs0 fs1 : filesystem)
  (argFileName content : option json) (r : result outcome) :
  createDynamicFile_try fs0 argFileName content = (fs1, r) ->
  exists fs2,
    dirs_added fs0 fs2 /\ existsSync fs2 ROOT_DIR = true /\
    match r with
    | Err _ => fs1 = fs2
    | Ok o =>
        exists name c,
          argFileName = Some (JStr name) /\
          let key := fs_key (normalizePath name) in
          match o with
          | Created f =>
              f = normalizePath name /\ content = Some (JStr c) /\
              fs_lookup fs2 key = None /\ always_dir key = false /\
              fs_lookup fs2 (removelast key) = Some Dir /\
              fs1 = <[key := File c]> fs2
          | Updated f =>
              f = normalizePath name /\ content = Some (JStr c) /\
              (exists old, fs_lookup fs2 key = Some (File old) /\ old <> c) /\
              always_dir key = false /\
              fs_lookup fs2 (removelast key) = Some Dir /\
              fs1 = <[key := File c]> fs2
          | Unchanged f =>
              f = normalizePath name /\ content = Some (JStr c) /\
              fs_lookup fs2 key = Some (File c) /\ fs1 = fs2
          | Failed _ => False
          end
    end.
Proof.
  unfold createDynamicFile_try.
  destruct (ensureRootDir fs0) as [fsA|e] eqn:Hroot;
    [|now rewrite ensureRootDir_result in Hroot].
  pose proof (ensureRootDir_exists _ _ Hroot) as HexA.
  apply ensureRootDir_dirs_added in Hroot.
  destruct argFileName as [[| | |name| |]|];
    try (intros [= <- <-]; exists fsA; split; [exact Hroot | split; [exact HexA | reflexivity]]).
  set (p := normalizePath name). set (d := path_dirname p).
  destruct (if negb (String.eqb d ROOT_DIR) && negb (existsSync fsA d)
            then mkdirSync fsA d else Ok fsA) as [fsB|e] eqn:Hmade.
  2:{ intros [= <- <-]. exists fsA. split; [exact Hroot | split; [exact HexA | reflexivity]]. }
  assert (HAB : dirs_added fsA fsB).
  { destruct (negb (String.eqb d ROOT_DIR) && negb (existsSync fsA d)).
    - eapply mkdir_go_dirs_added. exact Hmade.
    - injection Hmade as <-. apply dirs_added_refl. }
  assert (HB : dirs_added fs0 fsB) by (eapply dirs_added_trans; eassumption).
  assert (HexB : existsSync fsB ROOT_DIR = true).
  { apply existsSync_is_Some in HexA as [n Hn]. apply existsSync_is_Some.
    destruct (HAB (fs_key ROOT_DIR)) as [K _]. rewrite (K n Hn). eauto. }
  clear Hmade Hroot HAB HexA.
  unfold existsSync, readFileSync.
  destruct (fs_lookup fsB (fs_key p)) as [[old|]|] eqn:Hp.
  - (* a regular file is there *)
    destruct content as [[| | |c| |]|]; simpl same_content; simpl writeFileSync_js;
      try (intros [= <- <-]; exists fsB; split; [exact HB | split; [exact HexB | reflexivity]]).
    destruct (String.eqb_spec old c) as [->|Hne].
    + intros [= <- <-]. exists fsB. split; [exact HB | split; [exact HexB |]].
      exists name, c. repeat split; assumption.
    + destruct (writeFileSync fsB p c) as [fsC|e] eqn:Hw.
      2:{ intros [= <- <-]. exists fsB. split; [exact HB | split; [exact HexB | reflexivity]]. }
      intros [= <- <-]. exists fsB. split; [exact HB | split; [exact HexB |]].
      apply writeFileSync_ok in Hw as (-> & Hnd & _ & Hparent).
      exists name, c. repeat split; eauto.
  - intros [= <- <-]. exists fsB. split; [exact HB | split; [exact HexB | reflexivity]].
  - destruct content as [[| | |c| |]|]; simpl writeFileSync_js;
      try (intros [= <- <-]; exists fsB; split; [exact HB | split; [exact HexB | reflexivity]]).
    destruct (writeFileSync fsB p c) as [fsC|e] eqn:Hw.
    2:{ intros [= <- <-]. exists fsB. split; [exact HB | split; [exact HexB | reflexivity]]. }
    intros [= <- <-]. exists fsB. split; [exact HB | split; [exact HexB |]].
    apply writeFileSync_ok in Hw as (-> & Hnd & _ & Hparent).
    exists name, c. repeat split; eauto.
Qed.

Lemma readFileSync_Ok (fs0 : filesystem) (p c : string) :
  readFileSync fs0 p = Ok c <-> fs_lookup fs0 (fs_key p) = Some (File c).
Proof.
  unfold readFileSync. destruct (fs_lookup fs0 (fs_key p)) as [[x|]|]; split;
    congruence.
Qed.


Lemma createDynamicFile_record (fs0 : filesystem) (name content : string) :
  createDynamicFile fs0 (file_args name content)
  = match createDynamicFile_try fs0 (Some (JStr name)) (Some (JStr content)) with
    | (fs', Ok o) => (fs', Some o)
    | (fs', Err e) => (fs', Some (Failed e))
    end.
Proof. reflexivity. Qed.



(** The regular files that a call leaves alone: all of them when it
    reports an error or throws, and otherwise all but the one its argument
    names. *)
Lemma createDynamicFile_files_kept
  (fs0 fs1 : filesystem) (args : option json) (r : option outcome)
  (q c : string) :
  createDynamicFile fs0 args = (fs1, r) ->
  (forall name, prop_of args "fileName" = Some (JStr name) ->
                fs_key q = fs_key (normalizePath name) ->
                r = None \/ exists e, r = Some (Failed e)) ->
  readFileSync fs1 q = Ok c <-> readFileSync fs0 q = Ok c.
Proof.
  unfold createDynamicFile. intros Hcall Hother.
  rewrite !readFileSync_Ok.
  destruct (is_nullish args).
  { injection Hcall as <- <-.
    destruct (ensureRootDir fs0) as [fsA|e] eqn:Hroot; [|reflexivity].
    apply dirs_added_file. now apply ensureRootDir_dirs_added. }
  destruct (createDynamicFile_try fs0 (prop_of args "fileName") (prop_of args "content"))
    as [fsX [o|e]] eqn:Htry.
  2:{ injection Hcall as <- _.
      apply createDynamicFile_try_cases in Htry as (fs2 & Hdirs & _ & ->).
      now apply dirs_added_file. }
  injection Hcall as <- <-.
  apply createDynamicFile_try_cases in Htry as (fs2 & Hdirs & _ & name & c' & Hname & H).
  cbv zeta in H.
  assert (Hkey : fs_key (normalizePath name) <> fs_key q).
  { intros E. symmetry in E.
    destruct (Hother name Hname E) as [?|[e ?]]; [discriminate |].
    destruct o; try discriminate. destruct H. }
  destruct o as [f|f|f|e].
  - destruct H as (-> & _ & _ & _ & _ & ->).
    rewrite fs_lookup_insert_ne by assumption. now apply dirs_added_file.
  - destruct H as (-> & _ & _ & _ & _ & ->).
    rewrite fs_lookup_insert_ne by assumption. now apply dirs_added_file.
  - destruct H as (_ & _ & _ & ->). now apply dirs_added_file.
  - destruct H.
Qed.

(** X3: [createDynamicFile] writes at most one file, the one its argument
    names: whatever the argument and whatever the outcome, a path that does
    not denote that file holds a regular file after the call exactly when
    it did before, with the same content.  Nothing is deleted, nothing else
    is overwritten. *)
Theorem createDynamicFile_writes_nowhere_else
  (fs0 : filesystem) (args : option json) (q c : string) :
  (forall name, prop_of args "fileName" = Some (JStr name) ->
                fs_key q <> fs_key (normalizePath name)) ->
  readFileSync (fst (createDynamicFile fs0 args)) q = Ok c
  <-> readFileSync fs0 q = Ok c.
Proof.
  intros Hother.
  apply (createDynamicFile_files_kept fs0 _ args
           (snd (createDynamicFile fs0 args)));
    [apply surjective_pairing |].
  intros name Hname E. now destruct (Hother name Hname).
Qed.

Lemma createDynamicFile_writes_nowhere_else_witness :
  readFileSync
    (fst (createDynamicFile
            (<[["chaicode"; "a.txt"] := File "A"]> (<[["chaicode"] := Dir]> ∅))
            (file_args "b.txt" "B")))
    "chaicode/a.txt" = Ok "A".
Proof.
  apply (createDynamicFile_writes_nowhere_else
           (<[["chaicode"; "a.txt"] := File "A"]> (<[["chaicode"] := Dir]> ∅))
           (file_args "b.txt" "B") "chaicode/a.txt" "A").
  - intros name [= <-]. vm_compute. discriminate.
  - vm_compute. reflexivity.
Defined.

(** X4: A call of [createDynamicFile] that reports an error, or throws, has
    written no file: every path holds a regular file after the call exactly
    when it did before, with the same content.  (Directories made on the
    way stay.) *)
Theorem createDynamicFile_failure_writes_no_file
  (fs0 fs1 : filesystem) (args : option json) (r : option outcome)
  (q c : string) :
  createDynamicFile fs0 args = (fs1, r) ->
  r = None \/ (exists e, r = Some (Failed e)) ->
  readFileSync fs1 q = Ok c <-> readFileSync fs0 q = Ok c.
Proof.
  intros Hcall Hfail.
  apply (createDynamicFile_files_kept fs0 fs1 args r); auto.
Qed.

Lemma createDynamicFile_failure_writes_no_file_witness :
  readFileSync
    (fst (createDynamicFile fs_root_is_file (file_args "a.txt" "hi"))) "chaicode"
  = Ok "not a directory".
Proof.
  apply (createDynamicFile_failure_writes_no_file fs_root_is_file _
           (file_args "a.txt" "hi") (Some (Failed ENOTDIR)) "chaicode"
           "not a directory").
  - apply injective_projections; [reflexivity | vm_compute; reflexivity].
  - right. eexists. reflexivity.
  - vm_compute. reflexivity.
Defined.

(** ** Batches of [create_dynamic_file] arguments *)

Lemma create_each_cons (fs0 : filesystem) (arg : json) (rest : list json)
  (done : list event) :
  create_each fs0 (arg :: rest) done
  = if is_nullish (Some arg) || negb (printable (get_prop arg "fileName"))
    then (fs0, done, None)
    else
      match createDynamicFile fs0 (Some arg) with
      | (fs1, Some o) =>
          match create_each fs1 rest (done ++ [CallCreateDynamicFile (Some arg)]) with
          | (fs2, done', Some texts) => (fs2, done', Some (outcome_text o :: texts))
          | other => other
          end
      | (fs1, None) => (fs1, done ++ [CallCreateDynamicFile (Some arg)], None)
      end.
Proof. reflexivity. Qed.

Lemma create_each_all (items : list json) :
  forall (fs0 : filesystem) (done : list event),
    Forall (fun arg => arg <> JNull /\ printable (get_prop arg "fileName") = true)
      items ->
    exists fs1 texts,
      create_each fs0 items done
      = (fs1, done ++ map (fun arg => CallCreateDynamicFile (Some arg)) items,
         Some texts) /\
      length texts = length items.
Proof.
  induction items as [|arg items IH]; intros fs0 done Hall.
  - exists fs0, []. simpl. now rewrite app_nil_r.
  - inversion Hall as [|? ? [Hnull Hprint] Hrest]; subst.
    assert (Hn : is_nullish (Some arg) = false) by now destruct arg.
    rewrite create_each_cons, Hn, Hprint. simpl orb. cbv iota.
    assert (Hcall : exists fsA o, createDynamicFile fs0 (Some arg) = (fsA, Some o)).
    { unfold createDynamicFile. rewrite Hn. simpl prop_of. rewrite Hprint.
      destruct (createDynamicFile_try fs0 (get_prop arg "fileName")
                  (get_prop arg "content")) as [fsA [o|e]]; eauto. }
    destruct Hcall as (fsA & o & ->).
    destruct (IH fsA (done ++ [CallCreateDynamicFile (Some arg)]) Hrest)
      as (fs1 & texts & -> & Hlen).
    exists fs1, (outcome_text o :: texts). split.
    + simpl map. now rewrite <- app_assoc.
    + simpl. now rewrite Hlen.
Qed.

(** X5: A [create_dynamic_file] step whose argument is an array goes through
    every entry, in order, whatever the outcome of each write: when no
    entry is [null] and every [fileName] can be printed, the step does not
    throw, [createDynamicFile] is called once per entry, and one tool
    result is logged that holds one line per entry. *)
Theorem create_dynamic_file_batch_is_carried_through
  (dataObj : json) (items : list json) (st : state) :
  get_prop dataObj "function" = Some (JStr "create_dynamic_file") ->
  get_prop dataObj "args" = Some (JArr items) ->
  Forall (fun arg => arg <> JNull /\ printable (get_prop arg "fileName") = true)
    items ->
  exists fs1 texts,
    dispatch dataObj st
    = (push "user"
         (JSON_stringify (JStr (join_with (String "010" EmptyString) texts)))
         (set_calls
            (calls st ++ map (fun arg => CallCreateDynamicFile (Some arg)) items)
            (set_fs fs1 st)),
       Next) /\
    length texts = length items.
Proof.
  intros Hfn Hargs Hall.
  destruct (create_each_all items (fs st) [] Hall) as (fs1 & texts & Heach & Hlen).
  exists fs1, texts. split; [|exact Hlen].
  unfold dispatch. rewrite Hfn, Hargs. simpl. rewrite Heach. reflexivity.
Qed.

Lemma create_dynamic_file_batch_is_carried_through_witness :
  exists fs1 texts,
    dispatch
      (JObj [("step", JStr "generate_files"); ("content", JStr "Creating files.");
             ("function", JStr "create_dynamic_file");
             ("args", JArr [JObj [("fileName", JStr "/"); ("content", JStr "x")];
                            JObj [("fileName", JStr "a.txt"); ("content", JStr "A")]])])
      (initial_state ∅ [] [])
    = (push "user"
         (JSON_stringify (JStr (join_with (String "010" EmptyString) texts)))
         (set_calls
            (calls (initial_state ∅ [] [])
             ++ map (fun arg => CallCreateDynamicFile (Some arg))
                  [JObj [("fileName", JStr "/"); ("content", JStr "x")];
                   JObj [("fileName", JStr "a.txt"); ("content", JStr "A")]])
            (set_fs fs1 (initial_state ∅ [] []))),
       Next) /\
    length texts = 2.
Proof.
  apply (create_dynamic_file_batch_is_carried_through
           (JObj [("step", JStr "generate_files"); ("content", JStr "Creating files.");
                  ("function", JStr "create_dynamic_file");
                  ("args", JArr [JObj [("fileName", JStr "/"); ("content", JStr "x")];
                                 JObj [("fileName", JStr "a.txt"); ("content", JStr "A")]])])
           [JObj [("fileName", JStr "/"); ("content", JStr "x")];
            JObj [("fileName", JStr "a.txt"); ("content", JStr "A")]]
           (initial_state ∅ [] [])).
  - reflexivity.
  - reflexivity.
  - repeat constructor; discriminate.
Defined.

(** ** [readDirectory] *)

Lemma children_spec (fs0 : filesystem) (parent : list string) (name : string) :
  name ∈ children fs0 parent <-> is_Some (fs0 !! (parent ++ [name])).
Proof.
  unfold children. rewrite list_elem_of_omap. split.
  - intros [[key n] [Hin Hf]]. apply elem_of_map_to_list in Hin. simpl in Hf.
    destruct (rev key) as [|last parent_rev] eqn:Hrev; [discriminate |].
    case_bool_decide as Hp; [|discriminate]. injection Hf as ->. subst parent.
    assert (key = rev parent_rev ++ [name]) as <-.
    { rewrite <- (List.rev_involutive key), Hrev. reflexivity. }
    eauto.
  - intros [n Hn]. exists (parent ++ [name], n). split.
    + now apply elem_of_map_to_list.
    + simpl. rewrite rev_app_distr. simpl.
      rewrite List.rev_involutive. now rewrite bool_decide_eq_true_2.
Qed.

(** X6: [readDirectory] on a path never throws and writes no file; without an
    argument it reads the root.  It returns a record that repeats the path;
    the items carry the names found, in the order of the file system, and
    the message says so; when the directory cannot be read the items are
    empty and the message carries the error.  The only change to the file
    system is the root, made if missing. *)
Theorem readDirectory_reports_or_explains (fs0 : filesystem) (dir : string) :
  readDirectory fs0 None = readDirectory fs0 (Some (JStr ROOT_DIR)) /\
  exists fs1 items message,
    readDirectory fs0 (Some (JStr dir))
    = (fs1, Some (JObj [("path", JStr dir); ("items", JArr items);
                        ("message", JStr message)])) /\
    ensureRootDir fs0 = Ok fs1 /\
    (forall q c, readFileSync fs1 q = Ok c <-> readFileSync fs0 q = Ok c) /\
    match readdirSync fs1 dir with
    | Ok names =>
        map (fun item => get_prop item "name") items
        = map (fun name => Some (JStr name)) names /\
        message = "Successfully read directory: " +:+ dir
    | Err e =>
        items = [] /\
        message = "Error reading directory " +:+ dir +:+ ": " +:+ error_message e
    end.
Proof.
  split; [reflexivity |].
  pose proof (ensureRootDir_result fs0) as Hroot.
  set (fs1 := if existsSync fs0 ROOT_DIR then fs0 else <[["chaicode"] := Dir]> fs0)
    in Hroot.
  exists fs1.
  unfold readDirectory. rewrite Hroot. simpl to_string_throws. cbv iota.
  assert (Hfiles : forall q c, readFileSync fs1 q = Ok c <-> readFileSync fs0 q = Ok c).
  { intros q c. rewrite !readFileSync_Ok. apply dirs_added_file.
    now apply ensureRootDir_dirs_added. }
  destruct (readdirSync fs1 dir) as [names|e] eqn:Hread.
  - eexists _, _. split; [reflexivity |].
    split; [reflexivity |]. split; [exact Hfiles |].
    split; [|reflexivity].
    rewrite map_map. apply map_ext. reflexivity.
  - eexists _, _. split; [reflexivity |].
    split; [reflexivity |]. split; [exact Hfiles |].
    split; reflexivity.
Qed.

(** X7: A file that [createDynamicFile] has just written is listed by
    [readDirectory] on a path that denotes its directory. *)
Theorem written_file_is_listed
  (fs0 fs1 : filesystem) (fileName content dir base : string) (o : outcome) :
  createDynamicFile fs0 (file_args fileName content) = (fs1, Some o) ->
  o = Created (normalizePath fileName) \/ o = Updated (normalizePath fileName) ->
  fs_key dir ++ [base] = fs_key (normalizePath fileName) ->
  exists items,
    readDirectory fs1 (Some (JStr dir))
    = (fs1, Some (JObj [("path", JStr dir); ("items", JArr items);
                        ("message", JStr ("Successfully read directory: " +:+ dir))]))
    /\ Some (JStr base) ∈ map (fun item => get_prop item "name") items.
Proof.
  rewrite createDynamicFile_record. intros Hcall Ho Hkey.
  destruct (createDynamicFile_try fs0 (Some (JStr fileName)) (Some (JStr content)))
    as [fsX [o'|e]] eqn:Htry.
  2:{ injection Hcall as _ <-. destruct Ho; discriminate. }
  injection Hcall as -> ->.
  apply createDynamicFile_try_cases in Htry as (fs2 & Hdirs & Hex2 & name & c & [= <-] & H).
  cbv zeta in H. rewrite <- Hkey in H.
  assert (Hfacts : always_dir (fs_key dir ++ [base]) = false /\
                   fs_lookup fs2 (fs_key dir) = Some Dir /\
                   fs1 = <[fs_key dir ++ [base] := File c]> fs2).
  { destruct Ho as [-> | ->].
    - destruct H as (_ & _ & _ & Hnd & Hparent & ->).
      rewrite removelast_last in Hparent. auto.
    - destruct H as (_ & _ & _ & Hnd & Hparent & ->).
      rewrite removelast_last in Hparent. auto. }
  destruct Hfacts as (Hnd & Hparent & ->).
  set (fsW := <[fs_key dir ++ [base] := File c]> fs2).
  assert (Hne : fs_key dir ++ [base] <> fs_key dir).
  { intros E. apply (f_equal (@length string)) in E. rewrite length_app in E.
    simpl in E. lia. }
  assert (HparentW : fs_lookup fsW (fs_key dir) = Some Dir).
  { subst fsW. now rewrite fs_lookup_insert_ne. }
  assert (HrootW : existsSync fsW ROOT_DIR = true).
  { apply existsSync_is_Some. subst fsW. apply fs_lookup_insert_some.
    now apply existsSync_is_Some. }
  unfold readDirectory, ensureRootDir. rewrite HrootW.
  unfold readdirSync. rewrite HparentW.
  eexists. split; [reflexivity |].
  rewrite map_map. simpl.
  apply list_elem_of_fmap. exists base. split; [reflexivity |].
  apply children_spec. subst fsW. rewrite lookup_insert_eq. eauto.
Qed.

Lemma written_file_is_listed_witness :
  exists items,
    readDirectory (fst (createDynamicFile ∅ (file_args "app/x.txt" "hi")))
      (Some (JStr "chaicode/app"))
    = (fst (createDynamicFile ∅ (file_args "app/x.txt" "hi")),
       Some (JObj [("path", JStr "chaicode/app"); ("items", JArr items);
                   ("message", JStr ("Successfully read directory: " +:+ "chaicode/app"))]))
    /\ Some (JStr "x.txt") ∈ map (fun item => get_prop item "name") items.
Proof.
  apply (written_file_is_listed ∅ _ "app/x.txt" "hi" "chaicode/app" "x.txt"
           (Created "chaicode/app/x.txt")).
  - apply injective_projections; [reflexivity | vm_compute; reflexivity].
  - left. vm_compute. reflexivity.
  - vm_compute. reflexivity.
Defined.

(** ** Invariants of the loop *)

(** A property of the state and the flow that every phase of the loop body
    hands on. *)
Lemma and_then_keeps (G : state * flow -> Prop) (r : state * flow)
  (f : state -> state * flow) :
  G r -> (forall s, G (s, Next) -> G (f s)) -> G (r >>> f).
Proof. destruct r as [s []]; simpl; auto. Qed.

Lemma runLoop_keeps (P : state -> Prop) (userMsg : string) :
  (forall r st, P st -> P (fst (processReply userMsg r st))) ->
  forall replies st, P st -> P (fst (runLoop userMsg replies st)).
Proof.
  intros Hstep replies. induction replies as [|[r|] replies IH]; intros st HP;
    simpl; try assumption.
  destruct (is_empty r); [assumption |].
  specialize (Hstep r st HP).
  destruct (processReply userMsg r st) as [st' []]; simpl in *; auto.
Qed.

(** *** The conversation only grows *)

Lemma grows_refl (st : state) (fl : flow) : grows_from st (st, fl).
Proof. exists []. simpl. now rewrite app_nil_r. Qed.

Ltac grows :=
  simpl;
  solve [ eexists; rewrite app_nil_r; reflexivity
        | eexists; reflexivity ].

Lemma interpret_contents (userMsg : string) (dataObj : json) (st : state) :
  contents (fst (interpret userMsg dataObj st)) = contents st.
Proof.
  unfold interpret, classify, analyze. by_cases_on_branches reflexivity.
Qed.

Lemma dispatch_grows (dataObj : json) (st : state) :
  grows_from st (dispatch dataObj st).
Proof. unfold dispatch, grows_from. by_cases_on_branches grows. Qed.

Lemma gate_contents (dataObj : json) (st : state) :
  contents (fst (gate dataObj st)) = contents st.
Proof. unfold gate, presentStructure. by_cases_on_branches reflexivity. Qed.

Lemma override_update_grows (userMsg : string) (dataObj : json) (st : state) :
  grows_from st (override_update userMsg dataObj st).
Proof. unfold override_update, grows_from. by_cases_on_branches grows. Qed.

Lemma final_result_contents (dataObj : json) (st : state) :
  contents (fst (final_result dataObj st)) = contents st.
Proof. unfold final_result. by_cases_on_branches reflexivity. Qed.

Lemma processReply_grows (userMsg r : string) (st : state) :
  grows_from st (processReply userMsg r st).
Proof.
  unfold processReply.
  destruct (JSON_parse (cleanReply r)) as [dataObj|]; [|apply grows_refl].
  set (body := interpret userMsg dataObj (push "model" (JSON_stringify dataObj) st)
               >>> dispatch dataObj >>> gate dataObj
               >>> override_update userMsg dataObj >>> final_result dataObj
               >>> (fun st => (push "user" "Proceed to next step" st, Next))).
  assert (Hbody : grows_from st body).
  { subst body.
    assert (Htrans : forall s r', grows_from st (s, Next) -> grows_from s r' ->
                                  grows_from st r').
    { intros s r' [m1 H1] [m2 H2]. exists (m1 ++ m2). simpl in H1.
      now rewrite H2, H1, <- app_assoc. }
    repeat (apply (and_then_keeps (grows_from st));
            [| intros s Hs; eapply Htrans; [exact Hs |]]).
    - exists [Turn "model" (JSON_stringify dataObj)].
      now rewrite interpret_contents.
    - apply dispatch_grows.
    - exists []. now rewrite gate_contents, app_nil_r.
    - apply override_update_grows.
    - exists []. now rewrite final_result_contents, app_nil_r.
    - grows. }
  destruct dataObj; try exact Hbody; try apply grows_refl.
  destruct (negb _); [apply grows_refl | exact Hbody].
Qed.

(** X8: [contents] is never cut back: a run appends the request to the
    conversation it finds, and whatever follows, however the run ends, is
    appended after it.  Not even [final_result] starts the conversation
    anew. *)
Theorem conversation_only_grows
  (userMsg : string) (replies : list (option string)) (st : state) :
  exists more,
    contents (fst (runAgent userMsg replies st))
    = contents st ++ Turn "user" userMsg :: more.
Proof.
  unfold runAgent.
  set (st0 := set_updateFile None _).
  assert (H0 : contents st0 = contents st ++ [Turn "user" userMsg]) by reflexivity.
  assert (H : exists more, contents (fst (runLoop userMsg replies st0))
                           = contents st0 ++ more).
  { apply (runLoop_keeps (fun s => exists more, contents s = contents st0 ++ more)).
    - intros r s [m Hm]. destruct (processReply_grows userMsg r s) as [m' Hm'].
      exists (m ++ m'). now rewrite Hm', Hm, <- app_assoc.
    - exists []. now rewrite app_nil_r. }
  destruct H as [more H]. exists more. rewrite H, H0, <- app_assoc. reflexivity.
Qed.

(** *** A finished run leaves an empty context *)

Lemma dispatch_never_finishes (dataObj : json) (st : state) :
  snd (dispatch dataObj st) <> Finished.
Proof. unfold dispatch, tool_result. by_cases_on_branches discriminate. Qed.

Lemma interpret_never_finishes (userMsg : string) (dataObj : json) (st : state) :
  snd (interpret userMsg dataObj st) <> Finished.
Proof. unfold interpret. by_cases_on_branches discriminate. Qed.

Lemma gate_never_finishes (dataObj : json) (st : state) :
  snd (gate dataObj st) <> Finished.
Proof. unfold gate, presentStructure. by_cases_on_branches discriminate. Qed.

Lemma override_update_never_finishes (userMsg : string) (dataObj : json) (st : state) :
  snd (override_update userMsg dataObj st) <> Finished.
Proof. unfold override_update, tool_result. by_cases_on_branches discriminate. Qed.

Lemma processReply_finished (userMsg r : string) (st : state) :
  snd (processReply userMsg r st) = Finished ->
  context_is_reset (fst (processReply userMsg r st)).
Proof.
  set (G := fun x : state * flow => snd x = Finished -> context_is_reset (fst x)).
  change (G (processReply userMsg r st)).
  assert (Hskip : forall x : state * flow, snd x <> Finished -> G x).
  { intros x Hx Hfin. now destruct Hx. }
  unfold processReply.
  destruct (JSON_parse (cleanReply r)) as [dataObj|]; [|now apply Hskip].
  assert (Hbody :
    G (interpret userMsg dataObj (push "model" (JSON_stringify dataObj) st)
       >>> dispatch dataObj >>> gate dataObj
       >>> override_update userMsg dataObj >>> final_result dataObj
       >>> (fun st => (push "user" "Proceed to next step" st, Next)))).
  { repeat (apply (and_then_keeps G); [| intros s _]).
    - apply Hskip, interpret_never_finishes.
    - apply Hskip, dispatch_never_finishes.
    - apply Hskip, gate_never_finishes.
    - apply Hskip, override_update_never_finishes.
    - unfold final_result. destruct (step_is dataObj "final_result").
      + intros _. now repeat split.
      + now apply Hskip.
    - now apply Hskip. }
  destruct dataObj; try exact Hbody; try (now apply Hskip).
  destruct (negb _); [now apply Hskip | exact Hbody].
Qed.

Lemma runLoop_done (userMsg : string) (replies : list (option string)) :
  forall st, snd (runLoop userMsg replies st) = Done ->
             context_is_reset (fst (runLoop userMsg replies st)).
Proof.
  induction replies as [|[r|] replies IH]; intros st; simpl; try discriminate.
  destruct (is_empty r); [discriminate |].
  pose proof (processReply_finished userMsg r st) as Hfin.
  destruct (processReply userMsg r st) as [st' []]; simpl in *;
    try discriminate; auto.
Qed.

(** X9: A run that reaches [final_result] leaves nothing behind for the next
    one: the proposed structure is empty again, the project type and name
    are unset, and so are the four variables local to the run.  (A run
    that ends any other way resets nothing.) *)
Theorem finished_run_resets_the_context
  (userMsg : string) (replies : list (option string)) (st : state) :
  snd (runAgent userMsg replies st) = Done ->
  proposedStructure (fst (runAgent userMsg replies st)) = JArr [] /\
  projectType (fst (runAgent userMsg replies st)) = None /\
  projectName (fst (runAgent userMsg replies st)) = None /\
  locals (fst (runAgent userMsg replies st)) = (false, false, None, None).
Proof. unfold runAgent. apply runLoop_done. Qed.

Lemma finished_run_resets_the_context_witness :
  let st' := fst (runAgent new_project_request
                    [Some reply_initialization; Some reply_analyze_new;
                     Some reply_final_result]
                    (initial_state ∅ [] [])) in
  proposedStructure st' = JArr [] /\ projectType st' = None /\
  projectName st' = None /\ locals st' = (false, false, None, None).
Proof.
  apply (finished_run_resets_the_context new_project_request
           [Some reply_initialization; Some reply_analyze_new;
            Some reply_final_result] (initial_state ∅ [] [])).
  vm_compute. reflexivity.
Defined.

(** *** Update and execution requests *)

Lemma classify_cases (userMsg : string) (st : state) :
  classify userMsg st
  = if update_keywords userMsg
    then set_updateIssue (Some userMsg) (set_isUpdateRequest true st)
    else if execution_keywords userMsg then set_isExecutionRequest true st
    else st.
Proof. reflexivity. Qed.

Lemma analyze_flags (content : string) (st : state) :
  isUpdateRequest (analyze content st) = isUpdateRequest st /\
  isExecutionRequest (analyze content st) = isExecutionRequest st /\
  answers (analyze content st) = answers st.
Proof. unfold analyze. by_cases_on_branches (repeat split; reflexivity). Qed.

Lemma dispatch_answers (dataObj : json) (st : state) :
  answers (fst (dispatch dataObj st)) = answers st.
Proof. unfold dispatch. by_cases_on_branches reflexivity. Qed.

Lemma override_update_answers (userMsg : string) (dataObj : json) (st : state) :
  answers (fst (override_update userMsg dataObj st)) = answers st.
Proof. unfold override_update. by_cases_on_branches reflexivity. Qed.

Lemma locals_classified (s s' : state) :
  locals s' = locals s -> classified s' = classified s.
Proof. unfold locals, classified. now intros [= -> -> _ _]. Qed.

Lemma gate_classified (dataObj : json) (st : state) :
  classified st = true ->
  gate dataObj st = (st, Next) \/ gate dataObj st = (st, Thrown).
Proof.
  unfold classified, gate. intros H.
  destruct (step_is dataObj "generate_structure"); [|now left].
  destruct (length_test_throws (proposedStructure st)); [now right |].
  destruct (isUpdateRequest st), (isExecutionRequest st); try discriminate;
    rewrite ?andb_false_r; now left.
Qed.

Lemma rest_of_step_unasked (A : list string) (userMsg : string) (dataObj : json)
  (r0 : state * flow) :
  unasked A r0 ->
  unasked A (r0 >>> dispatch dataObj >>> gate dataObj
             >>> override_update userMsg dataObj >>> final_result dataObj
             >>> (fun st => (push "user" "Proceed to next step" st, Next))).
Proof.
  intros H0.
  repeat (apply (and_then_keeps (unasked A));
          [| intros s (Hs & _ & Hc); simpl in Hs; specialize (Hc eq_refl)]).
  - exact H0.
  - split; [now rewrite dispatch_answers |].
    split; [apply dispatch_never_rejects |].
    intros _. rewrite (locals_classified s); [assumption | apply dispatch_locals].
  - destruct (gate_classified dataObj s Hc) as [-> | ->];
      (split; [assumption | split; [discriminate | auto]]).
  - split; [now rewrite override_update_answers |].
    split; [apply override_update_never_rejects |].
    intros _. rewrite (locals_classified s); [assumption | apply override_update_locals].
  - unfold final_result. destruct (step_is dataObj "final_result");
      (split; [assumption | split; [discriminate | auto; discriminate]]).
  - split; [assumption | split; [discriminate | auto]].
Qed.

Lemma interpret_unasked (userMsg : string) (dataObj : json) (st : state) :
  classified st = true \/
  (step_is dataObj "initialization" = true /\
   update_keywords userMsg || execution_keywords userMsg = true) ->
  unasked (answers st) (interpret userMsg dataObj st).
Proof.
  intros H. unfold interpret.
  set (st1 := if step_is dataObj "initialization" then classify userMsg st else st).
  assert (H1 : answers st1 = answers st /\ classified st1 = true).
  { subst st1. rewrite classify_cases. unfold classified in *.
    destruct H as [H | [-> H]].
    - destruct (step_is dataObj "initialization"); [|now split].
      destruct (update_keywords userMsg); [now split |].
      destruct (execution_keywords userMsg); [|now split].
      split; [reflexivity |]. simpl. apply orb_true_r.
    - destruct (update_keywords userMsg); [now split |].
      simpl in H. rewrite H. split; [reflexivity |]. simpl. apply orb_true_r. }
  destruct H1 as [HA Hc].
  destruct (step_is dataObj "analyze").
  - destruct (get_prop dataObj "content") as [[| | |content| |]|];
      try (split; [exact HA | split; [discriminate | discriminate]]).
    destruct (analyze_flags content st1) as (Hu & He & Ha).
    split; [simpl; congruence |]. split; [discriminate |].
    intros _. simpl. unfold classified in *. now rewrite Hu, He.
  - split; [exact HA | split; [discriminate | auto]].
Qed.

Lemma processReply_unasked (userMsg r : string) (st : state) :
  classified st = true \/
  (exists dataObj,
      JSON_parse (cleanReply r) = Some dataObj /\
      step_is dataObj "initialization" = true /\
      update_keywords userMsg || execution_keywords userMsg = true) ->
  unasked (answers st) (processReply userMsg r st).
Proof.
  intros H. unfold processReply.
  assert (Hsame : forall fl, fl <> Rejected -> fl <> Next -> unasked (answers st) (st, fl)).
  { intros fl H1 H2. split; [reflexivity | split; [exact H1 |]]. intros E. now destruct H2. }
  destruct (JSON_parse (cleanReply r)) as [dataObj|] eqn:Hparse;
    [|now apply Hsame].
  assert (Hbody :
    unasked (answers st)
      (interpret userMsg dataObj (push "model" (JSON_stringify dataObj) st)
       >>> dispatch dataObj >>> gate dataObj
       >>> override_update userMsg dataObj >>> final_result dataObj
       >>> (fun st => (push "user" "Proceed to next step" st, Next)))).
  { apply rest_of_step_unasked.
    change (answers st) with (answers (push "model" (JSON_stringify dataObj) st)).
    apply interpret_unasked.
    destruct H as [H | (d & [= <-] & Hs & Hk)]; [now left | now right]. }
  destruct dataObj; try exact Hbody; try (now apply Hsame).
  destruct (negb _); [now apply Hsame | exact Hbody].
Qed.

Lemma runLoop_unasked (userMsg : string) (replies : list (option string)) :
  forall st, classified st = true ->
    answers (fst (runLoop userMsg replies st)) = answers st /\
    snd (runLoop userMsg replies st) <> StructureRejected.
Proof.
  induction replies as [|[r|] replies IH]; intros st Hc; simpl;
    try (split; [reflexivity | discriminate]).
  destruct (is_empty r); [split; [reflexivity | discriminate] |].
  destruct (processReply_unasked userMsg r st (or_introl Hc)) as (HA & Hrej & Hnext).
  destruct (processReply userMsg r st) as [st' []]; simpl in *;
    try (split; [assumption | discriminate]).
  - destruct (IH st' (Hnext eq_refl)) as [H1 H2]. split; [congruence | assumption].
  - now destruct Hrej.
Qed.

(** X10: When the request holds one of the six keywords and the first reply is
    an [initialization] step, the user is never asked to approve anything,
    whatever the replies that follow: the lines waiting at the prompt are
    all still there when the run ends, and the run does not end in a
    rejection. *)
Theorem keyword_request_is_never_put_to_approval
  (userMsg r : string) (dataObj : json) (replies : list (option string))
  (st : state) :
  update_keywords userMsg || execution_keywords userMsg = true ->
  JSON_parse (cleanReply r) = Some dataObj ->
  step_is dataObj "initialization" = true ->
  answers (fst (runAgent userMsg (Some r :: replies) st)) = answers st /\
  snd (runAgent userMsg (Some r :: replies) st) <> StructureRejected.
Proof.
  intros Hk Hparse Hstep. unfold runAgent.
  set (st0 := set_updateFile None _).
  change (answers st) with (answers st0).
  simpl runLoop. rewrite (parsed_reply_not_empty r dataObj Hparse).
  destruct (processReply_unasked userMsg r st0) as (HA & Hrej & Hnext).
  { right. exists dataObj. auto. }
  destruct (processReply userMsg r st0) as [st' []]; simpl in *;
    try (split; [assumption | discriminate]).
  - destruct (runLoop_unasked userMsg replies st' (Hnext eq_refl)) as [H1 H2].
    split; [congruence | assumption].
  - now destruct Hrej.
Qed.

Lemma keyword_request_is_never_put_to_approval_witness :
  answers (fst (runAgent "please fix the css"
                  [Some reply_initialization; Some reply_generate_structure]
                  (initial_state ∅ [structure_response] ["no"]))) = ["no"] /\
  snd (runAgent "please fix the css"
         [Some reply_initialization; Some reply_generate_structure]
         (initial_state ∅ [structure_response] ["no"])) <> StructureRejected.
Proof.
  apply (keyword_request_is_never_put_to_approval "please fix the css"
           reply_initialization
           (JObj [("step", JStr "initialization");
                  ("content", JStr "I'll handle the request in 'chaicode'.");
                  ("function", JNull); ("args", JNull)])
           [Some reply_generate_structure]
           (initial_state ∅ [structure_response] ["no"]));
    vm_compute; reflexivity.
Defined.

(** *** The kind of a request *)

Lemma processReply_kind (userMsg r : string) (st : state) :
  kind_follows_keywords userMsg st ->
  kind_follows_keywords userMsg (fst (processReply userMsg r st)).
Proof.
  intros HK. unfold processReply.
  destruct (JSON_parse (cleanReply r)) as [dataObj|]; [|exact HK].
  assert (Hlocals : forall s s', locals s' = locals s ->
            kind_follows_keywords userMsg s -> kind_follows_keywords userMsg s').
  { unfold locals, kind_follows_keywords. intros s s' [= -> -> _ _]. trivial. }
  assert (Hbody :
    kind_follows_keywords userMsg
      (fst (interpret userMsg dataObj (push "model" (JSON_stringify dataObj) st)
            >>> dispatch dataObj >>> gate dataObj
            >>> override_update userMsg dataObj >>> final_result dataObj
            >>> (fun st => (push "user" "Proceed to next step" st, Next))))).
  { repeat (apply (and_then_preserves (kind_follows_keywords userMsg));
            [| intros s Hs]).
    - unfold interpret.
      set (st1 := if step_is dataObj "initialization" then _ else _).
      assert (H1 : kind_follows_keywords userMsg st1).
      { subst st1. destruct (step_is dataObj "initialization"); [|exact HK].
        rewrite classify_cases. unfold kind_follows_keywords in *.
        destruct (update_keywords userMsg) eqn:EU;
          [| destruct (execution_keywords userMsg) eqn:EE];
          simpl in *; intuition congruence. }
      destruct (step_is dataObj "analyze"); [|exact H1].
      destruct (get_prop dataObj "content") as [[| | |content| |]|]; try exact H1.
      destruct (analyze_flags content st1) as (Hu & He & _).
      destruct H1 as [HU HE]. simpl. split; rewrite ?Hu, ?He; assumption.
    - eapply Hlocals; [apply dispatch_locals | exact Hs].
    - eapply Hlocals; [apply gate_locals | exact Hs].
    - eapply Hlocals; [apply override_update_locals | exact Hs].
    - unfold final_result. destruct (step_is dataObj "final_result"); [|exact Hs].
      split; discriminate.
    - exact Hs. }
  destruct dataObj; try exact Hbody; try exact HK.
  destruct (negb _); [exact HK | exact Hbody].
Qed.

(** X11: At every point of a run the two flags say what the request holds: the
    run is an update request only when the lower-cased request contains
    [not working], [fix] or [update], and an execution request only when
    it contains none of these and contains [run], [execute] or [start].
    So the update keywords win, and a run is never both. *)
Theorem request_kind_follows_the_keywords
  (userMsg : string) (replies : list (option string)) (st : state) :
  let st' := fst (runAgent userMsg replies st) in
  let lowerMsg := toLowerCase userMsg in
  (isUpdateRequest st' = true ->
   includes "not working" lowerMsg || includes "fix" lowerMsg
   || includes "update" lowerMsg = true) /\
  (isExecutionRequest st' = true ->
   includes "not working" lowerMsg || includes "fix" lowerMsg
   || includes "update" lowerMsg = false /\
   includes "run" lowerMsg || includes "execute" lowerMsg
   || includes "start" lowerMsg = true) /\
  isUpdateRequest st' && isExecutionRequest st' = false.
Proof.
  cbv zeta.
  assert (HK : kind_follows_keywords userMsg (fst (runAgent userMsg replies st))).
  { unfold runAgent. apply runLoop_keeps.
    - intros r s. apply processReply_kind.
    - split; discriminate. }
  destruct HK as [HU HE]. split; [exact HU | split; [exact HE |]].
  destruct (isUpdateRequest _) eqn:EU; [|reflexivity].
  destruct (isExecutionRequest _) eqn:EE; [|reflexivity].
  destruct (HE eq_refl) as [H _]. rewrite (HU eq_refl) in H. discriminate.
Qed.

(** ** The command line *)

Lemma all_ws_append (a b : string) :
  all_ws (a +:+ b) = all_ws a && all_ws b.
Proof.
  induction a as [|c a IH]; [reflexivity |].
  rewrite append_cons. simpl. now rewrite IH, andb_assoc.
Qed.

Lemma trim_start_all_ws (s : string) : all_ws s = true -> trim_start s = EmptyString.
Proof.
  induction s as [|c s IH]; [reflexivity |]. simpl.
  intros H. apply andb_true_iff in H as [-> H]. auto.
Qed.

Lemma trim_start_append (a b : string) :
  trim_start (a +:+ b)
  = if all_ws a then trim_start b else trim_start a +:+ b.
Proof.
  induction a as [|c a IH]; [reflexivity |].
  rewrite append_cons. simpl. destruct (is_ws c); [exact IH |].
  simpl. now rewrite append_cons.
Qed.

Lemma trim_start_all_ws_iff (s : string) :
  trim_start s = EmptyString <-> all_ws s = true.
Proof.
  split; [|apply trim_start_all_ws].
  induction s as [|c s IH]; [reflexivity |]. simpl.
  destruct (is_ws c); [exact IH | discriminate].
Qed.

(** White space around a string does not change what [trim] returns. *)
Lemma trim_padded (pre core post : string) :
  all_ws pre = true -> all_ws post = true ->
  trim (pre +:+ core +:+ post) = trim core.
Proof.
  intros Hpre Hpost. unfold trim.
  rewrite trim_start_skips by assumption.
  rewrite trim_start_append.
  destruct (all_ws core) eqn:Hcore.
  - now rewrite (trim_start_all_ws post), (trim_start_all_ws core).
  - rewrite rev_append, trim_start_skips by now apply all_ws_rev.
    reflexivity.
Qed.

Lemma trim_idempotent (s : string) : trim (trim s) = trim s.
Proof.
  destruct (trim_decomposes s) as (pre & post & Hs & Hpre & Hpost).
  rewrite Hs at 2. now rewrite trim_padded.
Qed.

Lemma trim_empty_iff (s : string) : is_empty (trim s) = true <-> all_ws s = true.
Proof.
  split.
  - intros H. destruct (trim_decomposes s) as (pre & post & Hs & Hpre & Hpost).
    destruct (trim s); [|discriminate].
    rewrite Hs, !all_ws_append, Hpre, Hpost. reflexivity.
  - intros H. replace s with (s +:+ EmptyString +:+ EmptyString)
      by now rewrite !append_empty_r.
    now rewrite trim_padded.
Qed.

Lemma is_ws_lower (c : ascii) : is_ws (lower_char c) = is_ws c.
Proof. destruct c as [[] [] [] [] [] [] [] []]; reflexivity. Qed.

Lemma toLowerCase_append (a b : string) :
  toLowerCase (a +:+ b) = toLowerCase a +:+ toLowerCase b.
Proof.
  induction a as [|c a IH]; [reflexivity |].
  rewrite append_cons. simpl. now rewrite IH, append_cons.
Qed.

Lemma all_ws_lower (s : string) : all_ws (toLowerCase s) = all_ws s.
Proof.
  induction s as [|c s IH]; [reflexivity |]. simpl. now rewrite is_ws_lower, IH.
Qed.

Lemma trim_start_lower (s : string) :
  trim_start (toLowerCase s) = toLowerCase (trim_start s).
Proof.
  induction s as [|c s IH]; [reflexivity |]. simpl.
  rewrite is_ws_lower. now destruct (is_ws c).
Qed.

Lemma rev_lower (s : string) :
  String.rev (toLowerCase s) = toLowerCase (String.rev s).
Proof.
  induction s as [|c s IH]; [reflexivity |].
  simpl toLowerCase. now rewrite !rev_cons, IH, toLowerCase_append.
Qed.

(** Lower-casing and trimming commute. *)
Lemma trim_lower (s : string) : trim (toLowerCase s) = toLowerCase (trim s).
Proof.
  unfold trim. now rewrite trim_start_lower, rev_lower, trim_start_lower, rev_lower.
Qed.

(** A line is recognised as a word that [trim] leaves alone exactly when
    it reads that word. *)
Lemma trimmed_lower_reads (input word : string) :
  trim word = word ->
  trim (toLowerCase input) = word <-> reads input word.
Proof.
  intros Hword. split.
  - intros H. destruct (trim_decomposes input) as (pre & post & Hs & Hpre & Hpost).
    exists pre, (trim input), post. rewrite <- trim_lower. auto.
  - intros (pre & core & post & -> & Hpre & Hpost & <-).
    rewrite !toLowerCase_append, trim_padded by now rewrite all_ws_lower.
    exact Hword.
Qed.

Lemma main_on_line_cases (input : string) (replies : list (option string))
  (st : state) :
  main_on_line input replies st
  = if is_empty (trim input) then (st, None)
    else if String.eqb (trim (toLowerCase input)) "exit"
            || String.eqb (trim (toLowerCase input)) "quit"
    then (st, Some Exited)
    else if String.eqb (trim (toLowerCase input)) "help" then (st, Some HelpShown)
    else (fst (runAgent (trim input) replies st),
          Some (Ran (snd (runAgent (trim input) replies st)))).
Proof.
  unfold main_on_line, processInput.
  rewrite (trim_lower (trim input)), trim_idempotent, <- trim_lower.
  destruct (is_empty (trim input)); [reflexivity |].
  destruct (String.eqb _ "exit" || String.eqb _ "quit"); [reflexivity |].
  destruct (String.eqb _ "help"); [reflexivity |].
  now destruct (runAgent (trim input) replies st).
Qed.

(** X12: What the prompt does with a line.  A line of white space is ignored.
    A line that reads [exit] or [quit], in any mix of cases and between
    white space, ends the program, and one that reads [help] shows the
    help; neither touches the state.  Every other line is handed to
    [runAgent], trimmed. *)
Theorem main_on_line_commands
  (input : string) (replies : list (option string)) (st : state) :
  (all_ws input = true <-> main_on_line input replies st = (st, None)) /\
  (reads input "exit" \/ reads input "quit"
   <-> main_on_line input replies st = (st, Some Exited)) /\
  (reads input "help" <-> main_on_line input replies st = (st, Some HelpShown)) /\
  (all_ws input = false -> ~ reads input "exit" -> ~ reads input "quit" ->
   ~ reads input "help" ->
   is_empty (trim input) = false /\
   main_on_line input replies st
   = (fst (runAgent (trim input) replies st),
      Some (Ran (snd (runAgent (trim input) replies st))))).
Proof.
  rewrite main_on_line_cases.
  rewrite <- !(trimmed_lower_reads input) by reflexivity.
  rewrite <- trim_empty_iff.
  assert (Hblank : is_empty (trim input) = true -> trim (toLowerCase input) = EmptyString).
  { rewrite trim_lower. now destruct (trim input). }
  assert (Hws : all_ws input = false -> is_empty (trim input) = false).
  { intros H. destruct (is_empty (trim input)) eqn:E; [|reflexivity].
    apply trim_empty_iff in E. congruence. }
  destruct (is_empty (trim input)) eqn:Hempty.
  - rewrite (Hblank eq_refl).
    split; [tauto |]. split; [split; [intros [?|?]; discriminate | discriminate] |].
    split; [split; discriminate |].
    intros Hno. apply Hws in Hno. discriminate.
  - destruct (String.eqb_spec (trim (toLowerCase input)) "exit") as [E1|E1].
    { rewrite E1. simpl.
      split; [split; discriminate |]. split; [tauto |].
      split; [split; discriminate |]. intros _ H. now destruct H. }
    destruct (String.eqb_spec (trim (toLowerCase input)) "quit") as [E2|E2].
    { rewrite E2. simpl.
      split; [split; discriminate |]. split; [tauto |].
      split; [split; discriminate |]. intros _ _ H. now destruct H. }
    destruct (String.eqb_spec (trim (toLowerCase input)) "help") as [E3|E3].
    { rewrite E3. simpl.
      split; [split; discriminate |].
      split; [split; [intros [?|?]; discriminate | discriminate] |].
      split; [tauto |]. intros _ _ _ H. now destruct H. }
    simpl.
    split; [split; discriminate |].
    split; [split; [intros [?|?]; congruence | discriminate] |].
    split; [split; [congruence | discriminate] |].
    intros _ _ _ _. split; reflexivity.
Qed.

(** ** The backend call *)


(** ** [generateFileContent] *)

Lemma is_empty_append (a b : string) :
  is_empty (a +:+ b) = is_empty a && is_empty b.
Proof. destruct a; [reflexivity |]. now rewrite append_cons. Qed.

Lemma generateExecuteMdContent_not_empty (projectType projectName : string) :
  is_empty (generateExecuteMdContent projectType projectName) = false.
Proof.
  unfold generateExecuteMdContent. cbv zeta. rewrite !is_empty_append. reflexivity.
Qed.

(** X14: Given a file path and a project type that are strings, and a
    description that can be printed, [generateFileContent] always answers,
    and never with an empty content.  It asks the backend at most once;
    when the backend cannot be reached the answer is either the execution
    instructions, which need no backend, or a one-line comment that names
    the normalised path.  A file path that is not a string makes it
    throw. *)
Theorem generateFileContent_always_answers
  (projectName : option string) (filePath projectType : string)
  (description : option json) (fetches : list fetch_outcome) :
  printable description = true ->
  (exists v rest,
      generateFileContent projectName (Some (JStr filePath))
        (Some (JStr projectType)) description fetches = (Some v, rest) /\
      truthy (Some v) = true /\
      (rest = fetches \/ rest = tail fetches) /\
      (fetches = [] \/ head fetches = Some FetchFails ->
       v = JStr (generateExecuteMdContent projectType
                   match projectName with
                   | Some n => if is_empty n then "unknown" else n
                   | None => "unknown"
                   end) \/
       v = JStr ("// Error generating content for " +:+ normalizePath filePath))) /\
  (forall other : option json,
      (forall s, other <> Some (JStr s)) ->
      generateFileContent projectName other (Some (JStr projectType)) description
        fetches = (None, fetches)).
Proof.
  intros Hd. split.
  2:{ intros other Hother. unfold generateFileContent.
      destruct other as [[| | |s| |]|]; try reflexivity. now destruct (Hother s). }
  unfold generateFileContent. simpl printable at 1. rewrite Hd. simpl negb. cbv iota.
  set (fileType := if is_empty (drop_str 1 (path_extname filePath))
                   then path_basename filePath
                   else drop_str 1 (path_extname filePath)).
  assert (Hask : exists v rest,
             (let '(response, rest) := next_fetch fetches in
              let failed := JStr ("// Error generating content for "
                                  +:+ normalizePath filePath) in
              match response with
              | FetchFails => (Some failed, rest)
              | FetchData data =>
                  match candidate_text data with
                  | None => (Some failed, rest)
                  | Some text =>
                      if truthy text then (text, rest)
                      else (Some (JStr ("// Default " +:+ fileType +:+ " content")), rest)
                  end
              end) = (Some v, rest) /\
             truthy (Some v) = true /\
             (rest = fetches \/ rest = tail fetches) /\
             (fetches = [] \/ head fetches = Some FetchFails ->
              v = JStr ("// Error generating content for " +:+ normalizePath filePath))).
  { destruct fetches as [|[|data] more]; simpl.
    - eexists _, _. repeat split; auto.
    - eexists _, _. repeat split; auto.
    - destruct (candidate_text data) as [text|].
      + destruct (truthy text) eqn:Ht.
        * destruct text as [v|]; [|discriminate].
          exists v, more. repeat split; auto. intros [?|?]; discriminate.
        * eexists _, _. repeat split; auto. intros [?|?]; discriminate.
      + eexists _, _. repeat split; auto. }
  destruct (String.eqb fileType "md" && ends_with "execute.md" (normalizePath filePath)).
  - eexists _, _. split; [reflexivity |].
    split; [unfold truthy; now rewrite generateExecuteMdContent_not_empty |].
    split; [now left | now left].
  - destruct Hask as (v & rest & Heq & Ht & Hrest & Hfail).
    exists v, rest.
    destruct (String.eqb fileType "html");
      (split; [exact Heq | split; [exact Ht | split; [exact Hrest |]]]);
      intros H; right; auto.
Qed.

Lemma generateFileContent_always_answers_witness :
  exists v rest,
    generateFileContent (Some "todo-app") (Some (JStr "todo-app/style.css"))
      (Some (JStr "HTML web app")) (Some (JStr "lists")) [] = (Some v, rest) /\
    truthy (Some v) = true /\
    (rest = [] \/ rest = tail []) /\
    (@nil fetch_outcome = [] \/ head (@nil fetch_outcome) = Some FetchFails ->
     v = JStr (generateExecuteMdContent "HTML web app" "todo-app") \/
     v = JStr ("// Error generating content for "
               +:+ normalizePath "todo-app/style.css")).
Proof.
  exact (proj1 (generateFileContent_always_answers (Some "todo-app")
                  "todo-app/style.css" "HTML web app" (Some (JStr "lists")) []
                  eq_refl)).
Defined.

(** ** [normalizePath], in full *)

Lemma rev_not_empty (s : string) : is_empty s = false -> is_empty (String.rev s) = false.
Proof.
  destruct s as [|c s]; [discriminate |]. intros _. rewrite rev_cons.
  now destruct (String.rev s).
Qed.

Lemma has_char_append (c : ascii) (a b : string) :
  has_char c (a +:+ b) = has_char c a || has_char c b.
Proof.
  induction a as [|x a IH]; [reflexivity |].
  rewrite append_cons. simpl. now rewrite IH, orb_assoc.
Qed.

Lemma has_char_rev (c : ascii) (s : string) : has_char c (String.rev s) = has_char c s.
Proof.
  induction s as [|x s IH]; [reflexivity |].
  rewrite rev_cons, has_char_append, IH. simpl.
  rewrite orb_false_r. apply orb_comm.
Qed.

Lemma ends_with_slash_append (a b : string) :
  is_empty b = false -> ends_with "/" (a +:+ b) = ends_with "/" b.
Proof.
  intros Hb. unfold ends_with. rewrite rev_append.
  apply rev_not_empty in Hb. destruct (String.rev b) as [|c t]; [discriminate |].
  rewrite append_cons. simpl. now rewrite !andb_true_r.
Qed.

Lemma ends_with_slash_free (x : string) :
  has_char "/" x = false -> ends_with "/" x = false.
Proof.
  intros H. unfold ends_with. rewrite <- has_char_rev in H.
  destruct (String.rev x) as [|c t]; [reflexivity |].
  simpl in *. apply orb_false_iff in H as [-> _]. reflexivity.
Qed.

Lemma join_not_empty (x : string) (l : list string) :
  is_empty x = false -> is_empty (join_with "/" (x :: l)) = false.
Proof.
  intros H. destruct l; [exact H |].
  now rewrite join_with_cons, is_empty_append, H.
Qed.

(** A joined path ends with its last segment. *)
Lemma join_no_trailing_slash (l : list string) :
  Forall (fun seg => is_empty seg = false /\ has_char "/" seg = false) l ->
  ends_with "/" (join_with "/" l) = false.
Proof.
  induction 1 as [|x l [Hne Hfree] Hall IH]; [reflexivity |].
  destruct l as [|y l]; [now apply ends_with_slash_free |].
  rewrite join_with_cons.
  inversion Hall as [|? ? [Hy _] _]; subst.
  rewrite ends_with_slash_append
    by (rewrite is_empty_append; simpl; reflexivity).
  rewrite ends_with_slash_append by now apply join_not_empty.
  exact IH.
Qed.

(** [path.join] of the root and segments that are non-empty, free of
    slashes and none of them [..], exactly. *)
Lemma path_join_root_exact (parts : list string) :
  Forall (fun seg => is_empty seg = false /\ has_char "/" seg = false) parts ->
  ".." ∉ parts ->
  path_join (ROOT_DIR :: parts)
  = join_with "/" (ROOT_DIR :: filter (fun seg => seg <> "" /\ seg <> ".") parts).
Proof.
  intros Hwf Hno. unfold path_join.
  rewrite filter_cons_True by reflexivity.
  rewrite filter_all
    by (eapply Forall_impl; [exact Hwf | now intros ? [? _]]).
  set (J := join_with "/" (ROOT_DIR :: parts)).
  assert (HJ : exists t, J = String "c" t).
  { subst J. destruct parts; simpl; eauto. }
  destruct HJ as [t HJ].
  assert (Hsplit : split_on "/" J = ROOT_DIR :: parts).
  { subst J. apply (split_on_join "/"); [|discriminate].
    constructor; [reflexivity |].
    eapply Forall_impl; [exact Hwf | now intros ? [_ ?]]. }
  assert (He : is_empty J = false) by now rewrite HJ.
  assert (Ha : starts_with "/" J = false) by now rewrite HJ.
  assert (Hend : ends_with "/" J = false).
  { subst J. apply join_no_trailing_slash. constructor; [now split | exact Hwf]. }
  unfold path_normalize. cbv zeta. rewrite He, Ha, Hsplit, Hend.
  rewrite normalizeSegs_no_parent
    by (intros Hin; apply elem_of_cons in Hin as [Hin|Hin]; [discriminate | tauto]).
  rewrite filter_cons_True by (split; discriminate).
  simpl rev. rewrite app_nil_l.
  set (body := join_with "/" (ROOT_DIR :: filter _ parts)).
  assert (Hb : is_empty body = false).
  { subst body. destruct (filter _ parts); reflexivity. }
  now rewrite Hb, append_empty_l, append_empty_r.
Qed.

Lemma splice_from_root (l : list string) :
  match indexOf "chaicode" l with
  | Some (S i) => drop (S i) l
  | _ => l
  end = from_root l.
Proof. unfold from_root. now destruct (indexOf "chaicode" l) as [[|i]|]. Qed.

Lemma from_root_cons (y : string) (l : list string) :
  from_root (y :: l)
  = if String.eqb y "chaicode" then y :: l
    else match indexOf "chaicode" l with
         | Some _ => from_root l
         | None => y :: l
         end.
Proof.
  unfold from_root. simpl. destruct (String.eqb y "chaicode"); [reflexivity |].
  now destruct (indexOf "chaicode" l).
Qed.

Lemma indexOf_None (x : string) (l : list string) :
  indexOf x l = None <-> x ∉ l.
Proof.
  induction l as [|y l IH]; simpl.
  - split; [intros _ H; inversion H | reflexivity].
  - rewrite not_elem_of_cons. destruct (String.eqb_spec y x) as [->|Hne].
    + split; [discriminate | intros [H _]; congruence].
    + destruct (indexOf x l); simpl.
      * split; [discriminate |]. intros [_ H]. now apply IH in H.
      * split; [|reflexivity]. intros _. split; [congruence | now apply IH].
Qed.

Lemma from_root_filter (l : list string) :
  filter (fun seg => seg <> ".") (from_root l)
  = from_root (filter (fun seg => seg <> ".") l).
Proof.
  induction l as [|y l IH]; [reflexivity |].
  assert (Hsame : indexOf "chaicode" (filter (fun seg => seg <> ".") l) = None
                  <-> indexOf "chaicode" l = None).
  { rewrite !indexOf_None. split; intros H Hin; apply H.
    - apply list_elem_of_filter. split; [discriminate | exact Hin].
    - now apply list_elem_of_filter in Hin as [_ ?]. }
  rewrite from_root_cons.
  destruct (String.eqb_spec y "chaicode") as [->|Hy].
  { rewrite filter_cons_True by discriminate. now rewrite from_root_cons. }
  destruct (decide (y = ".")) as [->|Hdot].
  - rewrite (filter_cons_False _ ".") by tauto.
    destruct (indexOf "chaicode" l) eqn:Hl; [exact IH |].
    rewrite filter_cons_False by tauto.
    unfold from_root. now rewrite (proj2 Hsame eq_refl).
  - rewrite (filter_cons_True _ y) by assumption. rewrite from_root_cons.
    apply String.eqb_neq in Hy. rewrite Hy.
    destruct (indexOf "chaicode" l) eqn:Hl.
    + destruct (indexOf "chaicode" (filter _ l)) eqn:Hf; [exact IH |].
      destruct Hsame as [H _]. discriminate (H eq_refl).
    + rewrite (proj2 Hsame eq_refl). now rewrite filter_cons_True.
Qed.

Lemma pieces_without_dots (l : list string) :
  filter (fun seg => seg <> ".")
    (concat (map piece_segments (filter (fun seg => seg <> "" /\ seg <> ".") l)))
  = filter (fun seg => seg <> ".") (concat (map piece_segments l)).
Proof.
  induction l as [|y l IH]; [reflexivity |].
  destruct (decide (y = "")) as [->|Hy1].
  { rewrite filter_cons_False by (intros [H _]; congruence). exact IH. }
  destruct (decide (y = ".")) as [->|Hy2].
  { rewrite filter_cons_False by (intros [_ H]; congruence).
    simpl. rewrite filter_cons_False by tauto. exact IH. }
  rewrite filter_cons_True by (split; assumption). simpl.
  now rewrite !filter_app, IH.
Qed.

Lemma path_parts_without_dots (p : string) :
  ".." ∉ input_segments p ->
  filter (fun seg => seg <> ".") (path_parts p)
  = filter (fun seg => seg <> ".") (input_segments p).
Proof.
  rewrite input_segments_pieces. intros Hno.
  assert (HnoS : ".." ∉ split_on "/" p).
  { intros H. apply Hno. now apply parent_piece. }
  rewrite <- pieces_without_dots.
  destruct (decide (filter (fun seg => seg <> "" /\ seg <> ".") (split_on "/" p)
                    = [])) as [Hnil|Hkept].
  - rewrite Hnil. simpl.
    assert (Hparts : path_parts p = ["."] \/ path_parts p = []).
    { unfold path_parts, path_normalize.
      destruct p as [|c p]; [now left |].
      cbv zeta. change (is_empty (String c p)) with false. cbv iota.
      rewrite normalizeSegs_no_parent by assumption. rewrite Hnil.
      destruct (starts_with "/" (String c p)), (ends_with "/" (String c p));
        vm_compute; auto. }
    destruct Hparts as [-> | ->]; [|reflexivity].
    now rewrite filter_cons_False by tauto.
  - now rewrite (path_parts_kept p HnoS Hkept).
Qed.

Lemma filter_clean (l : list string) :
  Forall clean_segment l ->
  filter (fun seg => seg <> "" /\ seg <> ".") l = filter (fun seg => seg <> ".") l.
Proof.
  induction 1 as [|x l (Hne & _) Hall IH]; [reflexivity |].
  destruct (decide (x = ".")) as [->|Hx].
  - rewrite !filter_cons_False by tauto. exact IH.
  - rewrite !filter_cons_True; [now rewrite IH | assumption |].
    split; [|assumption]. intros ->. discriminate.
Qed.

Lemma from_root_sublist (l : list string) (P : string -> Prop) :
  Forall P l -> Forall P (from_root l).
Proof.
  intros H. unfold from_root. destruct (indexOf "chaicode" l); [|exact H].
  now apply Forall_drop.
Qed.

Lemma from_root_no_parent (l : list string) : ".." ∉ l -> ".." ∉ from_root l.
Proof.
  intros H Hin. apply H. unfold from_root in Hin.
  destruct (indexOf "chaicode" l) as [i|]; [|exact Hin].
  rewrite <- (take_drop i l). apply elem_of_app. now right.
Qed.

Lemma normalizePath_exact (p : string) :
  ".." ∉ input_segments p ->
  normalizePath p = join_with "/" (ROOT_DIR :: kept_segments p) /\
  Forall clean_segment (kept_segments p) /\
  Forall (fun seg => seg <> "" /\ seg <> ".") (kept_segments p) /\
  ".." ∉ kept_segments p.
Proof.
  intros Hno. destruct (path_parts_of_input p Hno) as [Hno' _].
  unfold kept_segments. rewrite <- (path_parts_without_dots p Hno).
  rewrite <- from_root_filter.
  pose proof (from_root_sublist _ _ (path_parts_clean p)) as Hclean.
  pose proof (from_root_no_parent _ Hno') as Hnop.
  set (parts := from_root (path_parts p)) in *.
  assert (Hkc : Forall clean_segment (filter (fun seg => seg <> ".") parts)).
  { apply Forall_forall. intros x Hx. apply list_elem_of_filter in Hx as [_ Hx].
    rewrite Forall_forall in Hclean. now apply Hclean. }
  split; [|split; [exact Hkc | split]].
  - unfold normalizePath. rewrite splice_from_root. fold parts.
    rewrite path_join_root_exact; [| |exact Hnop].
    2:{ eapply Forall_impl; [exact Hclean |]. intros x (H1 & H2 & _). now split. }
    rewrite (filter_clean parts Hclean).
    rewrite <- (append_empty_r (join_with "/" _)).
    rewrite join_clean_no_backslash; [now rewrite append_empty_r | | now left].
    constructor; [now repeat split | exact Hkc].
  - apply Forall_forall. intros x Hx. apply list_elem_of_filter in Hx as [Hd Hx].
    split; [|exact Hd]. rewrite Forall_forall in Hclean.
    destruct (Hclean x Hx) as (Hne & _). intros ->. discriminate.
  - intros Hx. apply list_elem_of_filter in Hx as [_ Hx]. auto.
Qed.

(** X15: [normalizePath] on a path that holds no [..] segment, exactly.  The
    segments of the input are what stands between slashes or backslashes;
    the [.] segments are dropped, and so is everything before the first
    segment [chaicode] when there is one; the root is put in front and the
    segments are joined with slashes.  So a path that mentions the root
    anywhere comes back with the root twice. *)
Theorem normalizePath_without_parent_segments (p : string) :
  ".." ∉ input_segments p ->
  let segs := filter (fun seg => seg <> ".") (input_segments p) in
  normalizePath p
  = join_with "/"
      (ROOT_DIR :: match indexOf "chaicode" segs with
                   | Some i => drop i segs
                   | None => segs
                   end).
Proof. intros Hno. now destruct (normalizePath_exact p Hno) as [H _]. Qed.

Lemma normalizePath_without_parent_segments_witness :
  normalizePath "a\.\chaicode//x.txt" = "chaicode/chaicode/x.txt".
Proof.
  rewrite (normalizePath_without_parent_segments "a\.\chaicode//x.txt").
  - vm_compute. reflexivity.
  - vm_compute. intros H. apply list_elem_of_In in H. simpl in H.
    intuition discriminate.
Defined.

(** X16: Without a [..] segment in the input the result is confined: its first
    segment is the root and none of its segments is [..]. *)
Theorem normalizePath_confines_paths_without_parent_segments (p : string) :
  ".." ∉ input_segments p ->
  first_segment (normalizePath p) = Some ROOT_DIR /\
  (".." ∉ segments (normalizePath p)) /\
  has_char "\" (normalizePath p) = false.
Proof.
  intros Hno. destruct (normalizePath_exact p Hno) as (HN & Hclean & Hkept & Hnop).
  assert (Hall : Forall clean_segment (ROOT_DIR :: kept_segments p))
    by (constructor; [now repeat split | assumption]).
  assert (Hseg : segments (normalizePath p) = ROOT_DIR :: kept_segments p).
  { rewrite HN. rewrite <- (append_empty_r (join_with "/" _)).
    rewrite <- (join_clean_no_backslash _ EmptyString Hall) by now left.
    apply segments_join_all; [exact Hall | discriminate | now left]. }
  split; [unfold first_segment; now rewrite Hseg |].
  split.
  - rewrite Hseg. rewrite not_elem_of_cons. split; [discriminate | exact Hnop].
  - unfold normalizePath. apply has_char_replaced. discriminate.
Qed.

Lemma normalizePath_confines_paths_without_parent_segments_witness :
  first_segment (normalizePath "/etc/passwd") = Some ROOT_DIR /\
  (".." ∉ segments (normalizePath "/etc/passwd")) /\
  has_char "\" (normalizePath "/etc/passwd") = false.
Proof.
  apply (normalizePath_confines_paths_without_parent_segments "/etc/passwd").
  vm_compute. intros H. apply list_elem_of_In in H. simpl in H.
  intuition discriminate.
Defined.

(** X17: Applied to one of its own results, [normalizePath] nests it in the
    root once more: on a path without [..] segments the second result is
    the first one behind [chaicode/]. *)
Theorem normalizePath_twice_nests_once_more (p : string) :
  ".." ∉ input_segments p ->
  normalizePath (normalizePath p) = "chaicode/" +:+ normalizePath p.
Proof.
  intros Hno. destruct (normalizePath_exact p Hno) as (HN & Hclean & Hkept & Hnop).
  assert (Hparts : path_parts (normalizePath p) = ROOT_DIR :: kept_segments p).
  { rewrite HN, <- (append_empty_r (join_with "/" _)).
    apply path_parts_of_result; auto. }
  unfold normalizePath at 1. rewrite Hparts. simpl indexOf. cbv iota.
  assert (Hall : Forall clean_segment (ROOT_DIR :: kept_segments p))
    by (constructor; [now repeat split | assumption]).
  rewrite path_join_root_exact.
  - rewrite filter_cons_True by (split; discriminate).
    rewrite filter_all by assumption.
    rewrite <- (append_empty_r (join_with "/" _)).
    rewrite join_clean_no_backslash;
      [| constructor; [now repeat split | exact Hall] | now left].
    rewrite append_empty_r, HN. reflexivity.
  - eapply Forall_impl; [exact Hall |]. intros x (H1 & H2 & _). now split.
  - rewrite not_elem_of_cons. split; [discriminate | exact Hnop].
Qed.

Lemma normalizePath_twice_nests_once_more_witness :
  normalizePath (normalizePath "app/x.txt") = "chaicode/" +:+ normalizePath "app/x.txt".
Proof.
  apply (normalizePath_twice_nests_once_more "app/x.txt").
  vm_compute. intros H. apply list_elem_of_In in H. simpl in H.
  intuition discriminate.
Defined.

(** Whatever [normalizeSegs] returns is made of segments it was given, and
    of [..]. *)
Lemma normalizeSegs_members (P : string -> Prop) (allow : bool)
  (segs : list string) :
  P ".." ->
  forall stack, Forall P stack -> Forall P segs ->
                Forall P (normalizeSegs allow stack segs).
Proof.
  intros Hpar. induction segs as [|seg segs IH]; intros stack Hstack Hsegs; simpl.
  - now apply Forall_rev.
  - inversion Hsegs as [|? ? Hseg Hrest]; subst.
    destruct (String.eqb seg "" || String.eqb seg "."); [now apply IH |].
    destruct (String.eqb seg "..").
    + destruct stack as [|top below].
      * apply IH; [|assumption]. destruct allow; repeat constructor; assumption.
      * inversion Hstack; subst.
        destruct (String.eqb top ".."); apply IH; try assumption.
        destruct allow; [constructor |]; assumption.
    + apply IH; [constructor |]; assumption.
Qed.

(** X18: For every input, [..] segments included, the path returned is not
    empty, does not begin with a slash and holds no backslash: an absolute
    path is taken from the root like any other. *)
Theorem normalizePath_returns_a_relative_path (p : string) :
  is_empty (normalizePath p) = false /\
  starts_with "/" (normalizePath p) = false /\
  has_char "\" (normalizePath p) = false.
Proof.
  assert (Hback : has_char "\" (normalizePath p) = false)
    by (unfold normalizePath; apply has_char_replaced; discriminate).
  assert (Hhead : exists c t, normalizePath p = String c t /\ c <> "/"%char).
  { unfold normalizePath. rewrite splice_from_root.
    pose proof (from_root_sublist _ _ (path_parts_clean p)) as Hclean.
    set (parts := from_root (path_parts p)) in *.
    unfold path_join. rewrite filter_cons_True by reflexivity.
    rewrite filter_all
      by (eapply Forall_impl; [exact Hclean | now intros ? (? & _)]).
    set (J := join_with "/" (ROOT_DIR :: parts)).
    assert (HJ : exists t, J = String "c" t).
    { subst J. destruct parts; simpl; eauto. }
    destruct HJ as [t HJ].
    assert (Hsplit : split_on "/" J = ROOT_DIR :: parts).
    { subst J. apply (split_on_join "/"); [|discriminate].
      constructor; [reflexivity |].
      eapply Forall_impl; [exact Hclean | now intros ? (_ & ? & _)]. }
    unfold path_normalize. cbv zeta. rewrite Hsplit, HJ.
    change (is_empty (String "c" t)) with false.
    change (starts_with "/" (String "c" t)) with false. cbv iota.
    change (negb false) with true.
    assert (Hsegs : Forall clean_segment (normalizeSegs true [] (ROOT_DIR :: parts))).
    { apply normalizeSegs_members; [now repeat split | constructor |].
      constructor; [now repeat split | exact Hclean]. }
    destruct (normalizeSegs true [] (ROOT_DIR :: parts)) as [|x more].
    - simpl. destruct (ends_with "/" (String "c" t)); simpl;
        (eexists _, _; split; [reflexivity | discriminate]).
    - inversion Hsegs as [|? ? (Hne & Hslash & Hbs) _]; subst.
      rewrite (join_not_empty x more Hne), append_empty_l.
      destruct x as [|c x]; [discriminate |].
      change (has_char "/" (String c x))
        with (Ascii.eqb "/" c || has_char "/" x) in Hslash.
      change (has_char "\" (String c x))
        with (Ascii.eqb "\" c || has_char "\" x) in Hbs.
      apply orb_false_iff in Hslash as [Hc1 _].
      apply orb_false_iff in Hbs as [Hc2 _].
      assert (Hstart : exists rest, join_with "/" (String c x :: more)
                                     +:+ (if ends_with "/" (String "c" t) then "/" else "")
                                    = String c rest).
      { destruct more; [simpl join_with | rewrite join_with_cons];
          rewrite ?append_cons; eauto. }
      destruct Hstart as [rest ->].
      change (replace_char "\" "/" (String c rest))
        with (String (if Ascii.eqb c "\" then "/"%char else c)
                (replace_char "\" "/" rest)).
      rewrite Ascii.eqb_sym, Hc2. exists c, (replace_char "\" "/" rest).
      split; [reflexivity |]. intros ->. discriminate. }
  destruct Hhead as (c & t & HN & Hc). rewrite HN in *.
  split; [reflexivity |]. split; [|exact Hback].
  change (starts_with "/" (String c t)) with (Ascii.eqb "/" c && true).
  apply Ascii.eqb_neq in Hc. rewrite Ascii.eqb_sym in Hc. now rewrite Hc.
Qed.

(** ** Stripping the fences of a reply *)

Lemma rmatch_seq (r1 r2 : regex) (st : mstate) (k : mstate -> option mstate) :
  rmatch (RSeq r1 r2) st k = rmatch r1 st (fun st1 => rmatch r2 st1 k).
Proof. reflexivity. Qed.

Lemma rmatch_char (cls : ascii -> bool) (prev : option ascii) (c : ascii)
  (rest : string) (caps : list (nat * string)) (k : mstate -> option mstate) :
  rmatch (RChar cls) (MState prev (String c rest) caps) k
  = if cls c then k (MState (Some c) rest caps) else None.
Proof. reflexivity. Qed.

(** One round of a starred character class: greedy, then the
    continuation. *)
Lemma rmatch_star_char (cls : ascii -> bool) (prev : option ascii) (c : ascii)
  (rest : string) (caps : list (nat * string)) (k : mstate -> option mstate) :
  rmatch (RStar (RChar cls)) (MState prev (String c rest) caps) k
  = if cls c then
      match rmatch (RStar (RChar cls)) (MState (Some c) rest caps) k with
      | Some res => Some res
      | None => k (MState prev (String c rest) caps)
      end
    else k (MState prev (String c rest) caps).
Proof.
  cbn [rmatch ms_rest String.length].
  destruct (cls c); [|reflexivity].
  cbn [ms_rest String.length ms_caps].
  assert (H : (String.length rest <? S (String.length rest)) = true)
    by (apply Nat.ltb_lt; lia).
  rewrite H. reflexivity.
Qed.

Lemma rmatch_star_empty (cls : ascii -> bool) (prev : option ascii)
  (caps : list (nat * string)) (k : mstate -> option mstate) :
  rmatch (RStar (RChar cls)) (MState prev EmptyString caps) k
  = k (MState prev EmptyString caps).
Proof. reflexivity. Qed.

(** A literal fails where the input does not begin with its first
    character. *)
Lemma rmatch_lit_fails (a : ascii) (lit : string) (st : mstate)
  (k : mstate -> option mstate) :
  match ms_rest st with
  | String c _ => c <> a
  | EmptyString => True
  end ->
  rmatch (RLit (String a lit)) st k = None.
Proof.
  destruct st as [prev [|c rest] caps]; simpl; [reflexivity |].
  intros H. apply Ascii.eqb_neq in H. rewrite Ascii.eqb_sym in H. now rewrite H.
Qed.

Lemma closing_fails (st : mstate) :
  match ms_rest st with
  | String c _ => c <> backtick
  | EmptyString => True
  end ->
  closing st = None.
Proof. intros H. unfold closing. rewrite rmatch_seq. now apply rmatch_lit_fails. Qed.

Lemma ws_not_backtick (c : ascii) : is_ws c = true -> c <> backtick.
Proof. intros H ->. discriminate. Qed.

Lemma star_closing_fails (v : string) :
  forall prev caps,
    no_fence_ahead v ->
    rmatch (RStar (RChar cls_space)) (MState prev v caps) closing = None.
Proof.
  induction v as [|a v IH]; intros prev caps Hv.
  - rewrite rmatch_star_empty. now apply closing_fails.
  - rewrite rmatch_star_char. unfold cls_space, no_fence_ahead in *.
    simpl in Hv. destruct (is_ws a) eqn:Ha.
    + rewrite IH by exact Hv. apply closing_fails. simpl. now apply ws_not_backtick.
    + apply closing_fails. exact Hv.
Qed.

Lemma rmatch_alt (r1 r2 : regex) (st : mstate) (k : mstate -> option mstate) :
  rmatch (RAlt r1 r2) st k
  = match rmatch r1 st k with
    | Some res => Some res
    | None => rmatch r2 st k
    end.
Proof. reflexivity. Qed.

Lemma rmatch_bol (prev : option ascii) (v : string) (caps : list (nat * string))
  (k : mstate -> option mstate) :
  rmatch RBol (MState prev v caps) k
  = match prev with
    | None => k (MState prev v caps)
    | Some c => if is_line_terminator c then k (MState prev v caps) else None
    end.
Proof. reflexivity. Qed.

Lemma bol_then_fails (prev : option ascii) (v : string) (caps : list (nat * string))
  (k : mstate -> option mstate) :
  k (MState prev v caps) = None -> rmatch RBol (MState prev v caps) k = None.
Proof.
  intros H. rewrite rmatch_bol, H.
  destruct prev as [c|]; [destruct (is_line_terminator c) |]; reflexivity.
Qed.

Lemma json_fence_alternatives (st : mstate) :
  rmatch re_json_fence st Some
  = match rmatch RBol st
            (fun st1 => rmatch (RLit "```json") st1
                          (fun st2 => rmatch (RStar (RChar cls_space)) st2 Some)) with
    | Some res => Some res
    | None => rmatch (RStar (RChar cls_space)) st closing
    end.
Proof. reflexivity. Qed.

Lemma json_fence_fails (prev : option ascii) (v : string) :
  match v with String c _ => c <> backtick | EmptyString => True end ->
  no_fence_ahead v ->
  rmatch re_json_fence (MState prev v []) Some = None.
Proof.
  intros Hhead Hv. rewrite json_fence_alternatives.
  rewrite bol_then_fails by now apply rmatch_lit_fails.
  now apply star_closing_fails.
Qed.

(** A scan that finds no match anywhere deletes nothing. *)
Lemma delete_matches_go_none (re : regex) (s : string) :
  forall fuel prev,
    (forall prev' u v, s = u +:+ v -> rmatch re (MState prev' v []) Some = None) ->
    delete_matches_go fuel re prev s = s.
Proof.
  induction s as [|c s IH]; intros fuel prev Hnone.
  - destruct fuel; [reflexivity |]. simpl.
    now rewrite (Hnone prev EmptyString EmptyString eq_refl).
  - destruct fuel; [reflexivity |].
    cbn [delete_matches_go].
    rewrite (Hnone prev EmptyString (String c s) eq_refl).
    f_equal. apply IH. intros prev' u v ->.
    apply (Hnone prev' (String c u)). reflexivity.
Qed.

Lemma has_char_suffix (c : ascii) (u v : string) :
  has_char c (u +:+ v) = false -> has_char c v = false.
Proof. rewrite has_char_append. now intros [_ H]%orb_false_iff. Qed.

Lemma no_backtick_head (v : string) :
  has_char backtick v = false ->
  match v with String c _ => c <> backtick | EmptyString => True end.
Proof.
  destruct v as [|c v]; [trivial |].
  change (has_char backtick (String c v))
    with (Ascii.eqb backtick c || has_char backtick v).
  intros [H _]%orb_false_iff. apply Ascii.eqb_neq in H. congruence.
Qed.

Lemma no_backtick_no_fence (v : string) :
  has_char backtick v = false -> no_fence_ahead v.
Proof.
  intros H. unfold no_fence_ahead.
  destruct (trim_start_prefix v) as [pre [Hv _]].
  rewrite Hv in H. apply has_char_suffix in H.
  now apply no_backtick_head.
Qed.

(** Without a backtick in the text, the two fence expressions delete
    nothing. *)
Lemma delete_json_fence_none (s : string) :
  has_char backtick s = false -> delete_matches re_json_fence s = s.
Proof.
  intros H. apply delete_matches_go_none. intros prev' u v ->.
  apply has_char_suffix in H.
  apply json_fence_fails; [now apply no_backtick_head | now apply no_backtick_no_fence].
Qed.

Lemma fence_line_alternatives (st : mstate) :
  rmatch re_fence_line st Some
  = rmatch RBol st
      (fun st1 => rmatch (RLit "```") st1
                    (fun st2 => rmatch (RSeq (RStar (RChar cls_dot)) REol) st2 Some)).
Proof. reflexivity. Qed.

Lemma delete_fence_line_none (s : string) :
  has_char backtick s = false -> delete_matches re_fence_line s = s.
Proof.
  intros H. apply delete_matches_go_none. intros prev' u v ->.
  apply has_char_suffix in H. rewrite fence_line_alternatives.
  apply bol_then_fails. apply rmatch_lit_fails. now apply no_backtick_head.
Qed.

Lemma delete_newline_indent_none (s : string) :
  has_char "010" s = false -> delete_matches re_newline_indent s = s.
Proof.
  intros H. apply delete_matches_go_none. intros prev' u v ->.
  apply has_char_suffix in H. unfold re_newline_indent. rewrite rmatch_seq.
  destruct v as [|c v]; [reflexivity |]. rewrite rmatch_char.
  change (has_char "010" (String c v))
    with (Ascii.eqb "010" c || has_char "010" v) in H.
  apply orb_false_iff in H as [H _]. now rewrite H.
Qed.

Lemma rmatch_lit_matches (lit : string) :
  forall prev rest caps k,
    rmatch (RLit lit) (MState prev (lit +:+ rest) caps) k
    = k (MState (last_prev prev lit) rest caps).
Proof.
  induction lit as [|a lit IH]; intros prev rest caps k; [reflexivity |].
  rewrite append_cons. cbn [RLit]. rewrite rmatch_seq, rmatch_char.
  rewrite Ascii.eqb_refl. apply IH.
Qed.

(** A greedy run over white space, when the continuation accepts what
    comes after all of it. *)
Lemma star_greedy (w : string) :
  forall prev rest caps k res,
    all_ws w = true ->
    match rest with String d _ => is_ws d = false | EmptyString => True end ->
    k (MState (last_prev prev w) rest caps) = Some res ->
    rmatch (RStar (RChar cls_space)) (MState prev (w +:+ rest) caps) k = Some res.
Proof.
  induction w as [|a w IH]; intros prev rest caps k res Hw Hrest Hk.
  - rewrite append_empty_l. destruct rest as [|d rest].
    + now rewrite rmatch_star_empty.
    + rewrite rmatch_star_char. change (cls_space d) with (is_ws d).
      now rewrite Hrest.
  - rewrite append_cons, rmatch_star_char. change (cls_space a) with (is_ws a).
    simpl in Hw. apply andb_true_iff in Hw as [Ha Hw]. rewrite Ha.
    now rewrite (IH (Some a) rest caps k res Hw Hrest Hk).
Qed.

Lemma solid_tail (c : ascii) (core : string) : solid (String c core) -> solid core.
Proof. intros H u v ->. apply (H (String c u)). reflexivity. Qed.

Lemma trim_start_head (s : string) :
  match trim_start s with String c _ => is_ws c = false | EmptyString => True end.
Proof.
  induction s as [|c s IH]; [exact I |]. simpl.
  destruct (is_ws c) eqn:Hc; [exact IH | exact Hc].
Qed.

Lemma all_ws_rev_iff (s : string) : all_ws (String.rev s) = all_ws s.
Proof.
  destruct (all_ws s) eqn:H; [now apply all_ws_rev |].
  destruct (all_ws (String.rev s)) eqn:H'; [|reflexivity].
  apply all_ws_rev in H'. rewrite rev_involutive in H'. congruence.
Qed.

Lemma trim_solid (s : string) : solid (trim s).
Proof.
  intros u v Huv Hv. unfold trim in Huv.
  apply (f_equal String.rev) in Huv. rewrite rev_involutive, rev_append in Huv.
  pose proof (trim_start_head (String.rev (trim_start s))) as Hhead.
  rewrite Huv in Hhead. rewrite <- all_ws_rev_iff.
  apply rev_not_empty in Hv.
  destruct (String.rev v) as [|c t]; [discriminate |].
  rewrite append_cons in Hhead. simpl. now rewrite Hhead.
Qed.

Lemma trim_head (s : string) :
  match trim s with String c _ => is_ws c = false | EmptyString => True end.
Proof.
  unfold trim. pose proof (trim_start_head s) as Hhead.
  destruct (trim_start s) as [|c0 t0]; [exact I |].
  rewrite rev_cons, trim_start_append.
  assert (Hend : exists y, (if all_ws (String.rev t0)
                            then trim_start (String c0 "")
                            else trim_start (String.rev t0) +:+ String c0 "")
                           = y +:+ String c0 "").
  { destruct (all_ws (String.rev t0)).
    - exists EmptyString. simpl. now rewrite Hhead.
    - eauto. }
  destruct Hend as [y ->]. rewrite rev_append.
  change (String.rev (String c0 "")) with (String c0 "").
  rewrite append_cons. exact Hhead.
Qed.

Lemma has_char_trim (c : ascii) (s : string) :
  has_char c s = false -> has_char c (trim s) = false.
Proof.
  intros H. destruct (trim_decomposes s) as (pre & post & Hs & _).
  rewrite Hs, !has_char_append in H.
  apply orb_false_iff in H as [_ H]. now apply orb_false_iff in H as [H _].
Qed.

Lemma length_append (a b : string) :
  String.length (a +:+ b) = String.length a + String.length b.
Proof.
  induction a as [|c a IH]; [reflexivity |]. rewrite append_cons. simpl. now rewrite IH.
Qed.

(** The scan from the start of the body to the closing fence: the body is
    kept, the white space before the fence and the fence are deleted. *)
Lemma scan_to_closing_fence (core : string) :
  has_char backtick core = false ->
  solid core ->
  forall wsrun fuel prev,
    all_ws wsrun = true ->
    String.length (core +:+ wsrun +:+ "```") < fuel ->
    delete_matches_go fuel re_json_fence prev (core +:+ wsrun +:+ "```") = core.
Proof.
  induction core as [|c core IH]; intros Hfree Hsolid wsrun fuel prev Hws Hfuel.
  - rewrite append_empty_l in *.
    destruct fuel as [|fuel]; [lia |]. cbn [delete_matches_go].
    assert (Hmatch : rmatch re_json_fence (MState prev (wsrun +:+ "```") []) Some
                     = Some (MState (Some backtick) EmptyString [])).
    { rewrite json_fence_alternatives.
      rewrite bol_then_fails.
      - apply star_greedy; [exact Hws | reflexivity | reflexivity].
      - destruct wsrun as [|a w]; [reflexivity |].
        rewrite append_cons. apply rmatch_lit_fails. simpl.
        simpl in Hws. apply andb_true_iff in Hws as [Ha _].
        now apply ws_not_backtick. }
    rewrite Hmatch. cbn [ms_rest ms_prev String.length].
    assert (Hlen : (0 <? String.length (wsrun +:+ "```")) = true).
    { apply Nat.ltb_lt. rewrite length_append. simpl. lia. }
    rewrite Hlen. now destruct fuel.
  - rewrite append_cons in *.
    destruct fuel as [|fuel]; [lia |]. cbn [delete_matches_go].
    change (has_char backtick (String c core))
      with (Ascii.eqb backtick c || has_char backtick core) in Hfree.
    apply orb_false_iff in Hfree as [Hc Hfree].
    rewrite json_fence_fails.
    + f_equal. apply IH; try assumption.
      * eapply solid_tail. exact Hsolid.
      * simpl in Hfuel. lia.
    + apply Ascii.eqb_neq in Hc. congruence.
    + unfold no_fence_ahead. rewrite <- append_cons, trim_start_append.
      assert (Hnot : all_ws (String c core) = false)
        by (apply (Hsolid EmptyString); reflexivity).
      rewrite Hnot.
      assert (Hsuffix : has_char backtick (trim_start (String c core)) = false).
      { destruct (trim_start_prefix (String c core)) as [pre [Hs _]].
        apply (has_char_suffix _ pre). rewrite <- Hs.
        change (has_char backtick (String c core))
          with (Ascii.eqb backtick c || has_char backtick core).
        now rewrite Hc, Hfree. }
      assert (Hne : trim_start (String c core) <> EmptyString).
      { intros E. apply trim_start_all_ws_iff in E. congruence. }
      destruct (trim_start (String c core)) as [|d t]; [congruence |].
      rewrite append_cons. now apply no_backtick_head in Hsuffix.
Qed.

(** The first expression of the cleaning takes a fenced text down to the
    trimmed body. *)
Lemma delete_json_fence_fenced (body : string) :
  has_char backtick body = false ->
  delete_matches re_json_fence (json_fenced body) = trim body.
Proof.
  intros Hfree.
  destruct (trim_decomposes body) as (pre & post & Hbody & Hpre & Hpost).
  set (core := trim body) in *.
  pose proof (trim_head body) as Hhead. fold core in Hhead.
  (* the white space the opening fence takes with it, and what is left *)
  assert (Hsplit : exists w wsrun,
    String "010" body +:+ String "010" "```" = w +:+ (core +:+ wsrun +:+ "```") /\
    all_ws w = true /\ all_ws wsrun = true /\
    match core +:+ wsrun +:+ "```" with
    | String d _ => is_ws d = false
    | EmptyString => True
    end).
  { destruct core as [|d core'] eqn:Hcore.
    - exists (String "010" body +:+ String "010" ""), EmptyString.
      rewrite !append_empty_l. split; [now rewrite append_assoc |].
      split; [|split; reflexivity].
      rewrite all_ws_append. simpl.
      rewrite Hbody, append_empty_l, all_ws_append, Hpre, Hpost. reflexivity.
    - exists (String "010" pre), (post +:+ String "010" "").
      split; [|split; [|split]].
      + rewrite Hbody at 1.
        repeat (progress rewrite ?append_cons, ?append_assoc, ?append_empty_l).
        reflexivity.
      + simpl. exact Hpre.
      + rewrite all_ws_append, Hpost. reflexivity.
      + rewrite append_cons. exact Hhead. }
  destruct Hsplit as (w & wsrun & Hsplit & Hw & Hwsrun & Hnext).
  unfold delete_matches, json_fenced. rewrite Hsplit.
  set (rest := core +:+ wsrun +:+ "```") in *.
  cbn [delete_matches_go].
  assert (Hmatch : rmatch re_json_fence (MState None ("```json" +:+ w +:+ rest) []) Some
                   = Some (MState (last_prev (Some "n"%char) w) rest [])).
  { rewrite json_fence_alternatives, rmatch_bol.
    rewrite (rmatch_lit_matches "```json").
    now rewrite (star_greedy w _ rest [] Some _ Hw Hnext eq_refl). }
  rewrite Hmatch. cbn [ms_rest ms_prev].
  assert (Hlen : (String.length rest <? String.length ("```json" +:+ w +:+ rest)) = true).
  { apply Nat.ltb_lt. rewrite !length_append. simpl. lia. }
  rewrite Hlen. subst rest.
  apply scan_to_closing_fence.
  - now apply has_char_trim.
  - apply trim_solid.
  - exact Hwsrun.
  - rewrite !length_append. simpl. lia.
Qed.

(** *** Line feeds and the indentation after them *)

Lemma without_indent_skips (s : string) :
  without_indent true s = without_indent false (trim_start s).
Proof.
  induction s as [|c s IH]; [reflexivity |].
  cbn [without_indent trim_start andb]. destruct (is_ws c) eqn:Hc; [exact IH |].
  cbn [without_indent andb]. reflexivity.
Qed.

Lemma trim_start_length (s : string) :
  String.length (trim_start s) <= String.length s.
Proof.
  induction s as [|c s IH]; [reflexivity |]. simpl.
  destruct (is_ws c); simpl; lia.
Qed.

Lemma newline_indent_match (prev : option ascii) (s : string) :
  exists p, rmatch re_newline_indent (MState prev (String LF s) []) Some
            = Some (MState p (trim_start s) []).
Proof.
  unfold re_newline_indent. rewrite rmatch_seq, rmatch_char.
  change (Ascii.eqb "010" LF) with true. cbv iota.
  pose proof (trim_start_head s) as Hhead.
  destruct (trim_start_prefix s) as [w [Hs Hw]].
  remember (trim_start s) as t eqn:Ht. clear Ht. subst s. eexists.
  apply star_greedy; [exact Hw | exact Hhead | reflexivity].
Qed.

Lemma newline_indent_no_match (prev : option ascii) (c : ascii) (s : string) :
  Ascii.eqb c LF = false ->
  rmatch re_newline_indent (MState prev (String c s) []) Some = None.
Proof.
  intros H. unfold re_newline_indent. rewrite rmatch_seq, rmatch_char.
  fold LF. rewrite Ascii.eqb_sym. now rewrite H.
Qed.

Lemma delete_newline_indent_go (fuel : nat) :
  forall prev s,
    String.length s < fuel ->
    delete_matches_go fuel re_newline_indent prev s = without_indent false s.
Proof.
  induction fuel as [|fuel IH]; intros prev s Hfuel; [lia |].
  destruct s as [|c s]; [reflexivity |].
  cbn [delete_matches_go without_indent andb].
  destruct (Ascii.eqb_spec c LF) as [->|Hc].
  - destruct (newline_indent_match prev s) as [p ->].
    cbn [ms_rest ms_prev].
    pose proof (trim_start_length s) as Hlen.
    assert (Hlt : (String.length (trim_start s) <? String.length (String LF s)) = true)
      by (apply Nat.ltb_lt; simpl; lia).
    rewrite Hlt, IH by (simpl in Hfuel; lia).
    symmetry. apply without_indent_skips.
  - apply Ascii.eqb_neq in Hc. rewrite (newline_indent_no_match prev c s Hc).
    f_equal. apply IH. simpl in Hfuel. lia.
Qed.

Lemma delete_newline_indent_spec (s : string) :
  delete_matches re_newline_indent s = without_indent false s.
Proof. apply delete_newline_indent_go. lia. Qed.

Lemma without_indent_append (a : string) :
  forall skipping b,
    without_indent skipping (a +:+ b)
    = without_indent skipping a +:+ without_indent (skipping_after skipping a) b.
Proof.
  induction a as [|c a IH]; intros skipping b; [reflexivity |].
  rewrite append_cons. cbn [without_indent skipping_after].
  destruct (skipping && is_ws c); [apply IH |].
  destruct (Ascii.eqb c LF); [apply IH |].
  now rewrite append_cons, IH.
Qed.

Lemma without_indent_all_ws (s : string) :
  forall skipping, all_ws s = true -> all_ws (without_indent skipping s) = true.
Proof.
  induction s as [|c s IH]; intros skipping H; [reflexivity |].
  simpl in H. apply andb_true_iff in H as [Hc Hs].
  cbn [without_indent]. rewrite Hc.
  destruct skipping; cbn [andb]; [now apply IH |].
  destruct (Ascii.eqb c LF); [now apply IH |].
  simpl. rewrite Hc. now apply IH.
Qed.

Lemma LF_is_ws (c : ascii) : Ascii.eqb c LF = true -> is_ws c = true.
Proof. intros H. apply Ascii.eqb_eq in H. now subst c. Qed.

Lemma skipping_after_solid (core : string) :
  forall skipping,
    solid core -> is_empty core = false -> skipping_after skipping core = false.
Proof.
  induction core as [|c core IH]; intros skipping Hsolid Hne; [discriminate |].
  cbn [skipping_after]. destruct core as [|d core].
  - assert (Hc : is_ws c = false).
    { pose proof (Hsolid EmptyString (String c "") eq_refl eq_refl) as H.
      simpl in H. now rewrite andb_true_r in H. }
    simpl. rewrite Hc, andb_false_r.
    destruct (Ascii.eqb c LF) eqn:E; [|reflexivity].
    apply LF_is_ws in E. congruence.
  - apply IH; [eapply solid_tail; exact Hsolid | reflexivity].
Qed.

(** White space around a text does not change what is left of it once the
    indentation is deleted and the result trimmed. *)
Lemma trim_without_indent (body : string) :
  trim (without_indent false body) = trim (without_indent false (trim body)).
Proof.
  destruct (trim_decomposes body) as (pre & post & Hbody & Hpre & Hpost).
  pose proof (trim_solid body) as Hsolid.
  pose proof (trim_head body) as Hhead.
  destruct (trim body) as [|c core] eqn:Hcore.
  - rewrite append_empty_l in Hbody.
    assert (Hall : all_ws body = true)
      by (rewrite Hbody, all_ws_append, Hpre, Hpost; reflexivity).
    apply (without_indent_all_ws _ false) in Hall.
    apply trim_empty_iff in Hall. simpl.
    now destruct (trim (without_indent false body)).
  - rewrite Hbody at 1. rewrite !without_indent_append.
    assert (Hstart : without_indent (skipping_after false pre) (String c core)
                     = without_indent false (String c core)).
    { cbn [without_indent]. rewrite Hhead, andb_false_r. reflexivity. }
    rewrite Hstart.
    apply trim_padded; now apply without_indent_all_ws.
Qed.

(** X19: A reply between the fences of a [json] block is cleaned as its body
    is.  With no backtick in the body, the fence stripping of
    [generateProjectStructure] returns the trimmed body, fenced or not, and
    the cleaning of [runAgent] returns for the fenced text what it returns
    for the body alone, which is the trimmed body when there is no line
    feed in it.  So a fenced reply parses as the bare one does. *)
Theorem fenced_reply_is_unwrapped (body : string) :
  has_char "`" body = false ->
  clean_structure_text (json_fenced body) = trim body /\
  clean_structure_text body = trim body /\
  cleanReply (json_fenced body) = cleanReply body /\
  (has_char "010" body = false -> cleanReply body = trim body).
Proof.
  intros Hfree.
  pose proof (has_char_trim _ _ Hfree) as Hfree'.
  unfold clean_structure_text, cleanReply.
  rewrite (delete_json_fence_fenced body Hfree).
  rewrite (delete_json_fence_none body Hfree).
  rewrite (delete_fence_line_none body Hfree), (delete_fence_line_none _ Hfree').
  rewrite trim_idempotent.
  split; [reflexivity |]. split; [reflexivity |]. split.
  - rewrite !delete_newline_indent_spec. symmetry. apply trim_without_indent.
  - intros Hlf. now rewrite (delete_newline_indent_none body Hlf).
Qed.

Lemma fenced_reply_is_unwrapped_witness :
  cleanReply (json_fenced (js_text " {~step~: ~analyze~,\n  ~content~: ~x~} "))
  = cleanReply (js_text " {~step~: ~analyze~,\n  ~content~: ~x~} ").
Proof.
  apply (fenced_reply_is_unwrapped
           (js_text " {~step~: ~analyze~,\n  ~content~: ~x~} ")).
  vm_compute. reflexivity.
Defined.

(** ** Which steps write files *)

Lemma same_files_refl (fs0 : filesystem) : same_files fs0 fs0.
Proof. intros q c. reflexivity. Qed.

Lemma same_files_trans (fs0 fs1 fs2 : filesystem) :
  same_files fs0 fs1 -> same_files fs1 fs2 -> same_files fs0 fs2.
Proof. intros H1 H2 q c. etransitivity; [apply H2 | apply H1]. Qed.

Lemma same_files_root (fs0 : filesystem) :
  same_files fs0 (if existsSync fs0 ROOT_DIR then fs0 else <[["chaicode"] := Dir]> fs0).
Proof.
  intros q c. rewrite !readFileSync_Ok. apply dirs_added_file.
  apply ensureRootDir_dirs_added, ensureRootDir_result.
Qed.

Lemma readDirectory_fs (fs0 : filesystem) (arg : option json) :
  fst (readDirectory fs0 arg)
  = if existsSync fs0 ROOT_DIR then fs0 else <[["chaicode"] := Dir]> fs0.
Proof.
  unfold readDirectory. rewrite ensureRootDir_result.
  by_cases_on_branches reflexivity.
Qed.

(** Given an array, [createDynamicFile] finds no [fileName] in it and
    reports the error of [normalizePath]; the root is all it makes. *)
Lemma createDynamicFile_array (fs0 : filesystem) (items : list json) :
  createDynamicFile fs0 (Some (JArr items))
  = (if existsSync fs0 ROOT_DIR then fs0 else <[["chaicode"] := Dir]> fs0,
     Some (Failed ERR_INVALID_ARG_TYPE)).
Proof.
  unfold createDynamicFile, createDynamicFile_try. simpl is_nullish. cbv iota.
  simpl prop_of. now rewrite ensureRootDir_result.
Qed.

Lemma interpret_fs (userMsg : string) (dataObj : json) (st : state) :
  fs (fst (interpret userMsg dataObj st)) = fs st.
Proof. unfold interpret, classify, analyze. by_cases_on_branches reflexivity. Qed.

Lemma gate_fs (dataObj : json) (st : state) :
  fs (fst (gate dataObj st)) = fs st.
Proof. unfold gate, presentStructure. by_cases_on_branches reflexivity. Qed.

Lemma final_result_fs (dataObj : json) (st : state) :
  fs (fst (final_result dataObj st)) = fs st.
Proof. unfold final_result. by_cases_on_branches reflexivity. Qed.

Lemma override_update_same_files (userMsg : string) (dataObj : json) (st : state) :
  same_files (fs st) (fs (fst (override_update userMsg dataObj st))).
Proof.
  unfold override_update.
  destruct (updateFile st) as [file|]; [|apply same_files_refl].
  destruct (step_is dataObj "generate_files" && isUpdateRequest st
            && negb (is_empty file)); [|apply same_files_refl].
  destruct (generateFileContent _ _ _ _ _) as [[c|] rest]; [|apply same_files_refl].
  rewrite createDynamicFile_array. simpl. apply same_files_root.
Qed.

Lemma available_tools_create_dynamic_file (key : string) :
  available_tools key = Some (Registered create_dynamic_file) ->
  key = "create_dynamic_file".
Proof.
  unfold available_tools.
  destruct (String.eqb key "read_directory"); [discriminate |].
  destruct (String.eqb_spec key "create_dynamic_file"); [trivial |].
  by_cases_on_branches discriminate.
Qed.

Lemma dispatch_same_files (dataObj : json) (st : state) :
  (forall fnv, get_prop dataObj "function" = Some fnv ->
               js_to_string fnv <> "create_dynamic_file") ->
  same_files (fs st) (fs (fst (dispatch dataObj st))).
Proof.
  intros Hfn. unfold dispatch.
  destruct (get_prop dataObj "function") as [fnv|] eqn:Hf; [|apply same_files_refl].
  specialize (Hfn fnv eq_refl).
  destruct (truthy (Some fnv)); [|apply same_files_refl].
  destruct (to_string_throws fnv); [apply same_files_refl |].
  destruct (available_tools (js_to_string fnv)) as [entry|] eqn:Hav;
    [|apply same_files_refl].
  destruct (match fnv with
            | JStr f => String.eqb f "generate_project_structure"
            | _ => false
            end).
  { by_cases_on_branches (apply same_files_refl). }
  destruct (match fnv with
            | JStr f => String.eqb f "generate_file_content"
            | _ => false
            end).
  { by_cases_on_branches (apply same_files_refl). }
  destruct (match fnv with
            | JStr f => String.eqb f "create_dynamic_file"
            | _ => false
            end) eqn:Hnamed.
  { exfalso. destruct fnv; try discriminate. apply String.eqb_eq in Hnamed.
    now subst. }
  destruct entry as [[| | |]|]; try apply same_files_refl.
  - pose proof (readDirectory_fs (fs st) (get_prop dataObj "args")) as Hrd.
    destruct (readDirectory (fs st) (get_prop dataObj "args")) as [fs' [r|]];
      simpl in *; subst fs'; apply same_files_root.
  - exfalso. now apply available_tools_create_dynamic_file in Hav.
Qed.

(** X20: The forced regeneration of an update request never writes the file it
    regenerates: [createDynamicFile] is handed a one-element array, finds
    no file name in it and reports an error, which is what the
    conversation then holds.  The files are what they were. *)
Theorem forced_regeneration_writes_no_file
  (userMsg file : string) (dataObj : json) (st : state) :
  updateFile st = Some file ->
  is_empty file = false ->
  isUpdateRequest st = true ->
  step_is dataObj "generate_files" = true ->
  (forall q c,
      readFileSync (fs (fst (override_update userMsg dataObj st))) q = Ok c
      <-> readFileSync (fs st) q = Ok c) /\
  (snd (override_update userMsg dataObj st) = Next ->
   exists content,
     last (calls (fst (override_update userMsg dataObj st)))
     = Some (CallCreateDynamicFile
               (Some (JArr [JObj [("fileName", JStr file); ("content", content)]]))) /\
     last (contents (fst (override_update userMsg dataObj st)))
     = Some (Turn "user"
               (JSON_stringify (JStr (outcome_text (Failed ERR_INVALID_ARG_TYPE)))))).
Proof.
  intros Hfile Hne Hupd Hstep.
  split; [apply override_update_same_files |].
  unfold override_update. rewrite Hfile, Hstep, Hupd, Hne. simpl andb. cbv iota.
  destruct (generateFileContent _ _ _ _ _) as [[c|] rest]; [|discriminate].
  rewrite createDynamicFile_array. intros _. exists c.
  unfold tool_result, push, record_call. simpl.
  now rewrite !last_snoc.
Qed.

Lemma forced_regeneration_writes_no_file_witness :
  let st := set_updateFile (Some "todo-app/style.css")
              (set_isUpdateRequest true (initial_state ∅ [] [])) in
  let d := JObj [("step", JStr "generate_files"); ("content", JStr "Fixing.");
                 ("function", JNull); ("args", JNull)] in
  (forall q c,
      readFileSync (fs (fst (override_update "fix the css" d st))) q = Ok c
      <-> readFileSync (fs st) q = Ok c) /\
  (snd (override_update "fix the css" d st) = Next ->
   exists content,
     last (calls (fst (override_update "fix the css" d st)))
     = Some (CallCreateDynamicFile
               (Some (JArr [JObj [("fileName", JStr "todo-app/style.css");
                                  ("content", content)]]))) /\
     last (contents (fst (override_update "fix the css" d st)))
     = Some (Turn "user"
               (JSON_stringify (JStr (outcome_text (Failed ERR_INVALID_ARG_TYPE)))))).
Proof.
  apply (forced_regeneration_writes_no_file "fix the css" "todo-app/style.css");
    reflexivity.
Defined.

(** X21: Files are written by [create_dynamic_file] steps only.  Whatever a
    reply that names another function, or none, makes the loop do --
    reading a directory, asking the backend for a structure or for a
    content, the approval prompt, the forced regeneration of an update --
    the regular files are afterwards what they were before, with the same
    content. *)
Theorem only_create_dynamic_file_steps_write_files
  (userMsg r : string) (st : state) :
  (forall dataObj fnv,
      JSON_parse (cleanReply r) = Some dataObj ->
      get_prop dataObj "function" = Some fnv ->
      js_to_string fnv <> "create_dynamic_file") ->
  forall q c,
    readFileSync (fs (fst (processReply userMsg r st))) q = Ok c
    <-> readFileSync (fs st) q = Ok c.
Proof.
  intros Hfn. change (same_files (fs st) (fs (fst (processReply userMsg r st)))).
  unfold processReply.
  destruct (JSON_parse (cleanReply r)) as [dataObj|]; [|apply same_files_refl].
  specialize (Hfn dataObj).
  assert (Hbody :
    same_files (fs st)
      (fs (fst (interpret userMsg dataObj (push "model" (JSON_stringify dataObj) st)
                >>> dispatch dataObj >>> gate dataObj
                >>> override_update userMsg dataObj >>> final_result dataObj
                >>> (fun st => (push "user" "Proceed to next step" st, Next)))))).
  { repeat (apply (and_then_preserves (fun s => same_files (fs st) (fs s)));
            [| intros s Hs]).
    - rewrite interpret_fs. apply same_files_refl.
    - eapply same_files_trans; [exact Hs |]. apply dispatch_same_files.
      intros fnv Hf. now apply Hfn.
    - now rewrite gate_fs.
    - eapply same_files_trans; [exact Hs |]. apply override_update_same_files.
    - now rewrite final_result_fs.
    - exact Hs. }
  destruct dataObj; try exact Hbody; try apply same_files_refl.
  destruct (negb _); [apply same_files_refl | exact Hbody].
Qed.

Lemma only_create_dynamic_file_steps_write_files_witness :
  readFileSync (fs (fst (processReply new_project_request reply_analyze_new
                           (initial_state ∅ [] [])))) "chaicode/a.txt" = Ok "A"
  <-> readFileSync (fs (initial_state ∅ [] [])) "chaicode/a.txt" = Ok "A".
Proof.
  apply (only_create_dynamic_file_steps_write_files new_project_request
           reply_analyze_new (initial_state ∅ [] [])).
  intros dataObj fnv Hparse. vm_compute in Hparse. injection Hparse as <-.
  intros [= <-]. discriminate.
Defined.

(** ** When the structure cannot be generated *)

(** X22: When the backend cannot be reached in a [generate_structure] step,
    [generateProjectStructure] answers [{}]: the proposed structure becomes
    the empty list, whatever it was, the gate stays shut and nobody is
    asked; the loop goes on to the next reply as if the structure had been
    approved. *)
Theorem structure_generation_failure_opens_no_gate
  (userMsg r : string) (dataObj args : json) (st : state) :
  JSON_parse (cleanReply r) = Some dataObj ->
  step_is dataObj "generate_structure" = true ->
  printable (get_prop dataObj "content") = true ->
  get_prop dataObj "function" = Some (JStr "generate_project_structure") ->
  get_prop dataObj "args" = Some args ->
  args <> JNull ->
  printable (get_prop args "projectType") = true ->
  printable (get_prop args "description") = true ->
  fetches st = [] \/ head (fetches st) = Some FetchFails ->
  let st' := fst (processReply userMsg r st) in
  snd (processReply userMsg r st) = Next /\
  proposedStructure st' = JArr [] /\
  answers st' = answers st /\
  calls st'
  = calls st ++ [CallGenerateProjectStructure (get_prop args "projectType")
                   (get_prop args "description")] /\
  contents st'
  = contents st ++ [Turn "model" (JSON_stringify dataObj);
                    Turn "user" (JSON_stringify (JStr "{}"));
                    Turn "user" "Proceed to next step"].
Proof.
  intros Hparse Hstep Hcontent Hfn Hargs Hnull Hpt Hdesc Hfetch. cbv zeta.
  set (st0 := push "model" (JSON_stringify dataObj) st).
  assert (Hi : interpret userMsg dataObj st0 = (st0, Next)).
  { unfold interpret.
    rewrite (step_is_unique _ _ "initialization" Hstep) by discriminate.
    now rewrite (step_is_unique _ _ "analyze" Hstep) by discriminate. }
  assert (Hfail : exists rest, next_fetch (fetches st0) = (FetchFails, rest)).
  { change (fetches st0) with (fetches st).
    destruct (fetches st) as [|[|data] more]; simpl; eauto.
    destruct Hfetch; discriminate. }
  destruct Hfail as [rest Hfail].
  set (st1 := push "user" (JSON_stringify (JStr "{}"))
                (set_proposedStructure (JArr [])
                   (set_fetches rest
                      (record_call
                         (CallGenerateProjectStructure (get_prop args "projectType")
                            (get_prop args "description")) st0)))).
  assert (Hd : dispatch dataObj st0 = (st1, Next)).
  { unfold dispatch. rewrite Hfn, Hargs. simpl truthy. simpl to_string_throws.
    cbv iota. simpl js_to_string.
    change (available_tools "generate_project_structure")
      with (Some (Registered generate_project_structure)).
    cbv iota. rewrite String.eqb_refl.
    assert (Hn : is_nullish (Some args) = false) by now destruct args.
    rewrite Hn, Hfail. simpl prop_of.
    unfold generateProjectStructure. rewrite Hpt, Hdesc. simpl andb. cbv iota.
    reflexivity. }
  assert (Hg : gate dataObj st1 = (st1, Next)).
  { unfold gate. now rewrite Hstep. }
  assert (Ho : override_update userMsg dataObj st1 = (st1, Next)).
  { apply override_update_other_step.
    now rewrite (step_is_unique _ _ "generate_files" Hstep) by discriminate. }
  assert (Hf : final_result dataObj st1 = (st1, Next)).
  { apply final_result_other_step.
    now rewrite (step_is_unique _ _ "final_result" Hstep) by discriminate. }
  assert (Hall : processReply userMsg r st
                 = (push "user" "Proceed to next step" st1, Next)).
  { unfold processReply. rewrite Hparse.
    rewrite (step_is_printable _ _ Hstep), Hcontent. simpl negb. cbv iota.
    fold st0. rewrite Hi. cbn [and_then]. rewrite Hd. cbn [and_then].
    rewrite Hg. cbn [and_then]. rewrite Ho. cbn [and_then].
    rewrite Hf. cbn [and_then].
    destruct dataObj; try reflexivity. now rewrite step_is_not_null in Hstep. }
  rewrite Hall. cbn [fst snd].
  split; [reflexivity |]. split; [reflexivity |]. split; [reflexivity |].
  split; [reflexivity |].
  subst st1 st0. unfold push. simpl. now rewrite <- !app_assoc.
Qed.

Lemma structure_generation_failure_opens_no_gate_witness :
  let st := set_proposedStructure (JArr [JStr "chaicode/old/index.html"])
              (initial_state ∅ [] ["no"]) in
  let st' := fst (processReply new_project_request reply_generate_structure st) in
  snd (processReply new_project_request reply_generate_structure st) = Next /\
  proposedStructure st' = JArr [] /\
  answers st' = ["no"].
Proof.
  destruct (structure_generation_failure_opens_no_gate new_project_request
              reply_generate_structure
              (JObj [("step", JStr "generate_structure");
                     ("content", JStr "Generating structure for the to-do list app.");
                     ("function", JStr "generate_project_structure");
                     ("args", JObj [("projectType", JStr "HTML web app");
                                    ("description", JStr "creates a to-do list")])])
              (JObj [("projectType", JStr "HTML web app");
                     ("description", JStr "creates a to-do list")])
              (set_proposedStructure (JArr [JStr "chaicode/old/index.html"])
                 (initial_state ∅ [] ["no"])))
    as (H1 & H2 & H3 & _); try (vm_compute; reflexivity).
  - discriminate.
  - now left.
  - cbv zeta. split; [exact H1 | split; [exact H2 | exact H3]].
Defined.

(** ** What the [analyze] block reads off the content *)

Lemma starts_with_long_prefix (p : string) :
  forall a b, String.length p <= String.length a ->
              starts_with p (a +:+ b) = starts_with p a.
Proof.
  induction p as [|x p IH]; intros a b Hlen; [reflexivity |].
  destruct a as [|y a]; [simpl in Hlen; lia |].
  rewrite append_cons. simpl. rewrite IH by (simpl in Hlen; lia). reflexivity.
Qed.

Lemma includes_suffix (p u w : string) :
  includes p (u +:+ w) = false -> starts_with p w = false.
Proof.
  induction u as [|c u IH].
  - rewrite append_empty_l. destruct w; simpl; now intros [H _]%orb_false_iff.
  - rewrite append_cons. simpl. intros [_ H]%orb_false_iff. auto.
Qed.

Lemma rmatch_lit_no (lit : string) :
  forall prev v caps k,
    starts_with lit v = false ->
    rmatch (RLit lit) (MState prev v caps) k = None.
Proof.
  induction lit as [|a lit IH]; intros prev v caps k H; [discriminate |].
  cbn [RLit]. rewrite rmatch_seq.
  destruct v as [|c v]; [reflexivity |]. rewrite rmatch_char.
  simpl in H. destruct (Ascii.eqb a c); [|reflexivity].
  apply IH. exact H.
Qed.

(** A search moves past the positions where the expression cannot
    match. *)
Lemma regex_search_skips (re : regex) (pre : string) :
  forall prev s,
    (forall prev' u v, pre = u +:+ v -> is_empty v = false ->
                       rmatch re (MState prev' (v +:+ s) []) Some = None) ->
    regex_search re prev (pre +:+ s) = regex_search re (last_prev prev pre) s.
Proof.
  induction pre as [|c pre IH]; intros prev s Hnone; [reflexivity |].
  rewrite append_cons.
  pose proof (Hnone prev EmptyString (String c pre) eq_refl eq_refl) as H0.
  rewrite append_cons in H0.
  cbn [regex_search]. rewrite H0. cbn [last_prev].
  apply IH. intros prev' u v -> Hv. apply (Hnone prev' (String c u)); auto.
Qed.

Lemma regex_search_found (re : regex) (prev : option ascii) (s : string)
  (st1 : mstate) :
  rmatch re (MState prev s []) Some = Some st1 ->
  regex_search re prev s = Some (ms_caps st1).
Proof. intros H. destruct s; cbn [regex_search]; now rewrite H. Qed.

(** A greedy run over a class, when the continuation accepts what comes
    after all of it. *)
Lemma star_greedy_class (cls : ascii -> bool) (w : string) :
  forall prev rest caps k res,
    all_in cls w = true ->
    match rest with String d _ => cls d = false | EmptyString => True end ->
    k (MState (last_prev prev w) rest caps) = Some res ->
    rmatch (RStar (RChar cls)) (MState prev (w +:+ rest) caps) k = Some res.
Proof.
  induction w as [|a w IH]; intros prev rest caps k res Hw Hrest Hk.
  - rewrite append_empty_l. destruct rest as [|d rest].
    + now rewrite rmatch_star_empty.
    + rewrite rmatch_star_char. now rewrite Hrest.
  - rewrite append_cons, rmatch_star_char.
    simpl in Hw. apply andb_true_iff in Hw as [Ha Hw]. rewrite Ha.
    now rewrite (IH (Some a) rest caps k res Hw Hrest Hk).
Qed.

Lemma take_str_append (a b : string) : take_str (String.length a) (a +:+ b) = a.
Proof.
  induction a as [|c a IH]; [now destruct b |].
  rewrite append_cons. simpl. now rewrite IH.
Qed.

(** A group over one or more characters of a class: it takes the longest
    run, which is what it captures. *)
Lemma group_plus_captures (i : nat) (cls : ascii -> bool) (w rest : string)
  (prev : option ascii) (caps : list (nat * string))
  (k : mstate -> option mstate) (res : mstate) :
  is_empty w = false ->
  all_in cls w = true ->
  match rest with String d _ => cls d = false | EmptyString => True end ->
  k (MState (last_prev prev w) rest ((i, w) :: caps)) = Some res ->
  rmatch (RGroup i (RPlus (RChar cls))) (MState prev (w +:+ rest) caps) k = Some res.
Proof.
  intros Hne Hw Hrest Hk.
  destruct w as [|c w]; [discriminate |].
  change (rmatch (RGroup i (RPlus (RChar cls)))
            (MState prev (String c w +:+ rest) caps) k)
    with (rmatch (RChar cls) (MState prev (String c w +:+ rest) caps)
            (fun st0 =>
               rmatch (RStar (RChar cls)) st0
                 (fun st1 =>
                    k (MState (ms_prev st1) (ms_rest st1)
                         ((i, take_str (String.length (String c w +:+ rest)
                                        - String.length (ms_rest st1))
                                (String c w +:+ rest)) :: ms_caps st1))))).
  rewrite append_cons, rmatch_char.
  simpl in Hw. apply andb_true_iff in Hw as [Hc Hw]. rewrite Hc.
  apply star_greedy_class; [exact Hw | exact Hrest |].
  cbn [ms_prev ms_rest ms_caps].
  replace (String.length (String c (w +:+ rest)) - String.length rest)
    with (String.length (String c w))
    by (simpl; rewrite length_append; lia).
  rewrite <- append_cons, take_str_append. exact Hk.
Qed.

Lemma no_char_all_in (c : ascii) (w : string) :
  has_char c w = false -> all_in (fun x => negb (Ascii.eqb x c)) w = true.
Proof.
  induction w as [|a w IH]; [reflexivity |].
  change (has_char c (String a w)) with (Ascii.eqb c a || has_char c w).
  intros [Ha Hw]%orb_false_iff. simpl.
  rewrite Ascii.eqb_sym, Ha. simpl. auto.
Qed.

Lemma name_it_found (prev : option ascii) (name post : string) :
  is_empty name = false ->
  has_char "'" name = false ->
  regex_search re_name_it prev ("I'll name it '" +:+ name +:+ "'" +:+ post)
  = Some [(1, name)].
Proof.
  intros Hne Hfree.
  apply (regex_search_found _ _ _ (MState (Some "'"%char) post [(1, name)])).
  unfold re_name_it. rewrite rmatch_seq, (rmatch_lit_matches "I'll name it '").
  rewrite rmatch_seq.
  apply group_plus_captures.
  - exact Hne.
  - now apply no_char_all_in.
  - reflexivity.
  - rewrite append_cons, append_empty_l, rmatch_char. reflexivity.
Qed.

(** X23: The [analyze] block takes the project name from the phrase the backend
    is told to use: the name between the apostrophes that follow the first
    [I'll name it '] of the content, whatever stands before and after. *)
Theorem analyze_reads_the_project_name (pre name post : string) (st : state) :
  is_empty name = false ->
  has_char "'" name = false ->
  includes "I'll name it '" (pre +:+ "I'll name it ") = false ->
  projectName (analyze (pre +:+ "I'll name it '" +:+ name +:+ "'" +:+ post) st)
  = Some name.
Proof.
  intros Hne Hfree Hfirst.
  assert (Hm : js_match re_name_it
                 (pre +:+ "I'll name it '" +:+ name +:+ "'" +:+ post)
               = Some [(1, name)]).
  { unfold js_match. rewrite regex_search_skips.
    - now apply name_it_found.
    - intros prev' u v -> Hv. unfold re_name_it. rewrite rmatch_seq.
      apply rmatch_lit_no.
      rewrite append_assoc in Hfirst. apply includes_suffix in Hfirst.
      change ("I'll name it '" +:+ name +:+ "'" +:+ post)
        with ("I'll name it " +:+ String "'" (name +:+ "'" +:+ post)).
      rewrite <- append_assoc.
      rewrite starts_with_long_prefix; [exact Hfirst |].
      rewrite length_append. destruct v; [discriminate |]. simpl. lia. }
  unfold analyze. rewrite Hm. cbn [first_match capture Nat.eqb].
  by_cases_on_branches reflexivity.
Qed.

Lemma analyze_reads_the_project_name_witness :
  projectName
    (analyze ("The project is an HTML to-do list app. " +:+ "I'll name it '"
              +:+ "todo-app" +:+ "'" +:+ " in 'chaicode'.")
       (initial_state ∅ [] []))
  = Some "todo-app".
Proof.
  apply (analyze_reads_the_project_name "The project is an HTML to-do list app. "
           "todo-app" " in 'chaicode'." (initial_state ∅ [] []));
    vm_compute; reflexivity.
Defined.

Lemma project_type_found (prev : option ascii) (an : bool) (ty post : string) :
  is_empty ty = false ->
  all_in (fun c => cls_word c || cls_space c) ty = true ->
  regex_search re_project_type prev
    ("identified as a" +:+ (if an then "n" else "") +:+ " " +:+ ty +:+ "." +:+ post)
  = Some [(1, ty)].
Proof.
  intros Hne Hty.
  apply (regex_search_found _ _ _ (MState (Some "."%char) post [(1, ty)])).
  unfold re_project_type.
  rewrite rmatch_seq, (rmatch_lit_matches "identified as a").
  rewrite rmatch_seq. unfold ROpt. rewrite rmatch_alt.
  assert (Hrest : forall p,
            rmatch (RSeq (RChar (Ascii.eqb " "))
                      (RSeq (RGroup 1 (RPlus (RChar (fun c => cls_word c || cls_space c))))
                         (RChar (Ascii.eqb "."))))
              (MState p (" " +:+ ty +:+ "." +:+ post) []) Some
            = Some (MState (Some "."%char) post [(1, ty)])).
  { intros p. rewrite rmatch_seq, append_cons, append_empty_l, rmatch_char.
    change (Ascii.eqb " " " ") with true. cbv iota. rewrite rmatch_seq.
    apply group_plus_captures; [exact Hne | exact Hty | reflexivity |].
    rewrite append_cons, append_empty_l, rmatch_char. reflexivity. }
  destruct an.
  - rewrite append_cons, append_empty_l, rmatch_char.
    change (Ascii.eqb "n" "n") with true. cbv iota. now rewrite Hrest.
  - rewrite append_empty_l.
    assert (Hn : rmatch (RChar (Ascii.eqb "n"))
                   (MState (last_prev prev "identified as a")
                      (" " +:+ ty +:+ "." +:+ post) [])
                   (fun st1 =>
                      rmatch (RSeq (RChar (Ascii.eqb " "))
                                (RSeq (RGroup 1 (RPlus (RChar (fun c => cls_word c || cls_space c))))
                                   (RChar (Ascii.eqb ".")))) st1 Some) = None).
    { rewrite append_cons, rmatch_char. reflexivity. }
    rewrite Hn. change (rmatch REps ?st ?k) with (k st). cbv beta.
    apply Hrest.
Qed.

(** X24: The [analyze] block takes the project type from the first
    [identified as a] or [identified as an] of the content: the words
    between it and the full stop that ends them. *)
Theorem analyze_reads_the_project_type
  (pre ty post : string) (an : bool) (st : state) :
  is_empty ty = false ->
  all_in (fun c => cls_word c || cls_space c) ty = true ->
  includes "identified as a" (pre +:+ "identified as ") = false ->
  projectType
    (analyze (pre +:+ "identified as a" +:+ (if an then "n" else "") +:+ " "
              +:+ ty +:+ "." +:+ post) st)
  = Some ty.
Proof.
  intros Hne Hty Hfirst.
  assert (Hm : js_match re_project_type
                 (pre +:+ "identified as a" +:+ (if an then "n" else "") +:+ " "
                  +:+ ty +:+ "." +:+ post)
               = Some [(1, ty)]).
  { unfold js_match. rewrite regex_search_skips.
    - now apply project_type_found.
    - intros prev' u v -> Hv. unfold re_project_type. rewrite rmatch_seq.
      apply rmatch_lit_no.
      rewrite append_assoc in Hfirst. apply includes_suffix in Hfirst.
      change ("identified as a" +:+ (if an then "n" else "") +:+ " "
              +:+ ty +:+ "." +:+ post)
        with ("identified as " +:+ String "a" ((if an then "n" else "") +:+ " "
              +:+ ty +:+ "." +:+ post)).
      rewrite <- append_assoc.
      rewrite starts_with_long_prefix; [exact Hfirst |].
      rewrite length_append. destruct v; [discriminate |]. simpl. lia. }
  unfold analyze. rewrite Hm. cbn [capture Nat.eqb].
  by_cases_on_branches reflexivity.
Qed.

Lemma analyze_reads_the_project_type_witness :
  projectType
    (analyze ("Found project 'todo-app' in 'chaicode', " +:+ "identified as a"
              +:+ (if true then "n" else "") +:+ " " +:+ "HTML web app" +:+ "."
              +:+ "")
       (initial_state ∅ [] []))
  = Some "HTML web app".
Proof.
  apply (analyze_reads_the_project_type "Found project 'todo-app' in 'chaicode', "
           "HTML web app" "" true (initial_state ∅ [] []));
    vm_compute; reflexivity.
Defined.

(** ** The execution instructions *)

Lemma starts_with_append (p a b : string) :
  starts_with p a = true -> starts_with p (a +:+ b) = true.
Proof.
  revert a. induction p as [|x p IH]; intros a H; [reflexivity |].
  destruct a as [|y a]; [discriminate |].
  rewrite append_cons. simpl in *. apply andb_true_iff in H as [-> H].
  now rewrite (IH a H).
Qed.

Lemma starts_with_self (p b : string) : starts_with p (p +:+ b) = true.
Proof.
  induction p as [|x p IH]; [reflexivity |].
  rewrite append_cons. simpl. now rewrite Ascii.eqb_refl.
Qed.

Lemma includes_starts (p s : string) : starts_with p s = true -> includes p s = true.
Proof. intros H. destruct s; simpl in *; now rewrite H. Qed.

Lemma includes_app_l (p a b : string) :
  includes p a = true -> includes p (a +:+ b) = true.
Proof.
  induction a as [|c a IH].
  - simpl. rewrite orb_false_r. intros H. rewrite append_empty_l.
    destruct p; [now apply includes_starts | discriminate].
  - rewrite append_cons. simpl. intros [H|H]%orb_true_iff.
    + rewrite <- append_cons, (starts_with_append _ _ _ H). reflexivity.
    + rewrite (IH H). apply orb_true_r.
Qed.

Lemma includes_app_r (p a b : string) :
  includes p b = true -> includes p (a +:+ b) = true.
Proof.
  intros H. induction a as [|c a IH]; [now rewrite append_empty_l |].
  rewrite append_cons. simpl. rewrite IH. apply orb_true_r.
Qed.

(** A text that is found in one of the pieces of a concatenation. *)
Ltac found_in_a_piece :=
  first [ apply includes_app_l; vm_compute; reflexivity
        | apply includes_app_r; found_in_a_piece
        | vm_compute; reflexivity ].

(** X25: Whatever the project type and name, the instructions open with a title
    that names the project and hold the four sections.  The steps to run
    the project follow the first of [html], [python] and [react] found in
    the lower-cased project type, in that order, and point to the [README]
    when none is found. *)
Theorem generateExecuteMdContent_follows_the_type (projectType projectName : string) :
  let doc := generateExecuteMdContent projectType projectName in
  let lowerType := toLowerCase projectType in
  starts_with ("# Execution Instructions for " +:+ projectName) doc = true /\
  includes "## How to Run the Project" doc = true /\
  includes "### Dependencies" doc = true /\
  includes "### Compatibility" doc = true /\
  includes "### Potential Issues" doc = true /\
  includes
    (if includes "html" lowerType then "Open `index.html` in a web browser"
     else if includes "python" lowerType then "Run the script"
     else if includes "react" lowerType then "npm start"
     else "Refer to the specific instructions in the `README.md` file")
    doc = true.
Proof.
  cbv zeta. unfold generateExecuteMdContent. cbv zeta.
  split.
  { rewrite !append_assoc.
    change (js_text "# Execution Instructions for ") with "# Execution Instructions for ".
    rewrite <- append_assoc. apply starts_with_self. }
  destruct (includes "html" (toLowerCase projectType));
    [| destruct (includes "python" (toLowerCase projectType));
       [| destruct (includes "react" (toLowerCase projectType))]];
    rewrite !append_assoc; repeat split; found_in_a_piece.
Qed.
